(** * Heap-file layer (heapfile.cpp): shallow embedding and verification

    The heap-file layer sits on three collaborators whose code is not part
    of heapfile.cpp: the database/file layer ([db]), the buffer manager
    ([bufMgr]) and the slotted page class ([Page]).  The embedding keeps
    them behind an interface ([Env]); every heap-layer routine is translated
    statement by statement into a state-and-error monad over the
    collaborators' state, and records each [db] / [bufMgr] call it makes
    together with the status that call returned. *)

From Stdlib Require Import ZArith List Bool Lia.
From Stdlib Require Import Strings.String Strings.Byte.
From Stdlib Require Import Floats.SpecFloat.
From stdpp Require Import base decidable option list gmap strings.

Local Open Scope string_scope.
Local Open Scope Z_scope.

(** ** Status codes, record identifiers, records *)

(** The status values heapfile.cpp names, plus [OTHER] for the statuses the
    lower layers pass through (I/O errors, bad page numbers, ...). *)
Inductive Status : Type :=
| OK | FILEEXISTS | FILEEOF | BADSCANPARM | INVALIDRECLEN
| NOSPACE | NORECORDS | ENDOFPAGE | BADPAGEPTR
| OTHER (code : Z).

#[global] Instance Status_eq_dec : EqDecision Status.
Proof. solve_decision. Defined.

Record RID : Type := mkRID { pageNo : Z; slotNo : Z }.

#[global] Instance RID_eq_dec : EqDecision RID.
Proof. solve_decision. Defined.

Definition NULLRID : RID := mkRID (-1) (-1).

(** [struct Record { void* data; int length; }]: the bytes [data] points at,
    and the length field. *)
Record Record_ : Type := mkRecord { data : list byte; length_ : Z }.

(** [FileHdrPage], the header page of a heap file. *)
Record FileHdrPage : Type := mkHdr {
  fileName : string;
  firstPage : Z;
  lastPage : Z;
  pageCnt : Z;
  recCnt : Z
}.

Definition set_fileName (s : string) (h : FileHdrPage) : FileHdrPage :=
  mkHdr s (firstPage h) (lastPage h) (pageCnt h) (recCnt h).
Definition set_firstPage (v : Z) (h : FileHdrPage) : FileHdrPage :=
  mkHdr (fileName h) v (lastPage h) (pageCnt h) (recCnt h).
Definition set_lastPage (v : Z) (h : FileHdrPage) : FileHdrPage :=
  mkHdr (fileName h) (firstPage h) v (pageCnt h) (recCnt h).
Definition set_pageCnt (v : Z) (h : FileHdrPage) : FileHdrPage :=
  mkHdr (fileName h) (firstPage h) (lastPage h) v (recCnt h).
Definition set_recCnt (v : Z) (h : FileHdrPage) : FileHdrPage :=
  mkHdr (fileName h) (firstPage h) (lastPage h) (pageCnt h) v.

(** ** 32-bit machine integers *)

Definition wrap_unsigned (z : Z) : Z := z mod 2 ^ 32.

Definition wrap_signed (z : Z) : Z := (z + 2 ^ 31) mod 2 ^ 32 - 2 ^ 31.

Definition INT_MIN : Z := - 2 ^ 31.
Definition INT_MAX : Z := 2 ^ 31 - 1.

Definition int_add (a b : Z) : Z := wrap_signed (a + b).
Definition int_sub (a b : Z) : Z := wrap_signed (a - b).

(** Signed [int] arithmetic where overflow is undefined behaviour: no
    result outside the range of [int]. *)
Definition int_checked (z : Z) : option Z :=
  if (INT_MIN <=? z) && (z <=? INT_MAX) then Some z else None.

(** ** The collaborators' interface

    [W] is the whole state of the lower layers (disk, open-file table,
    buffer pool and the page frames the heap layer holds pointers into).
    Reference out-parameters ([File*&], [int&], [Page*&], [RID&],
    [Record&]) are results; what they hold after a failing call is the
    collaborator's choice.  A [Page*] is an [option Ptr], [None] being the
    null pointer.  [PAGESIZE] and [DPFIXED] are the page layer's
    constants. *)
Record Env : Type := mkEnv {
  W : Type;
  File : Type;
  Ptr : Type;
  PAGESIZE : Z;
  DPFIXED : Z;
  db_createFile : string -> W -> Status * W;
  db_openFile : string -> W -> Status * File * W;
  db_closeFile : File -> W -> Status * W;
  db_destroyFile : string -> W -> Status * W;
  file_getFirstPage : File -> W -> Status * Z * W;
  buf_allocPage : File -> W -> Status * Z * option Ptr * W;
  buf_readPage : File -> Z -> W -> Status * option Ptr * W;
  buf_unPinPage : File -> Z -> bool -> W -> Status * W;
  pg_init : Ptr -> Z -> W -> W;
  pg_getNextPage : Ptr -> W -> Z;
  pg_setNextPage : Ptr -> Z -> W -> W;
  pg_firstRecord : Ptr -> W -> Status * RID;
  pg_nextRecord : Ptr -> RID -> W -> Status * RID;
  pg_getRecord : Ptr -> RID -> W -> Status * Record_;
  pg_insertRecord : Ptr -> Record_ -> W -> Status * RID * W;
  pg_deleteRecord : Ptr -> RID -> W -> Status * W;
  hdr_load : Ptr -> W -> FileHdrPage;
  hdr_store : Ptr -> FileHdrPage -> W -> W
}.

(** The calls to [db] and [bufMgr] the heap layer makes. *)
Inductive Call (F : Type) : Type :=
| CreateFile (name : string)
| OpenFile (name : string)
| CloseFile (f : F)
| DestroyFile (name : string)
| GetFirstPage (f : F)
| AllocPage (f : F)
| ReadPage (f : F) (pno : Z)
| UnPinPage (f : F) (pno : Z) (dirty : bool).

Arguments CreateFile {F} name.
Arguments OpenFile {F} name.
Arguments CloseFile {F} f.
Arguments DestroyFile {F} name.
Arguments GetFirstPage {F} f.
Arguments AllocPage {F} f.
Arguments ReadPage {F} f pno.
Arguments UnPinPage {F} f pno dirty.

(** ** The monad of heap-layer code *)

(** Outcome of running a routine: it returns [a] in state [s]; it
    dereferences a null pointer or reads outside an object ([Fault]); or
    the loop bound of the model ran out ([OutOfFuel]). *)
Inductive Res (S A : Type) : Type :=
| Done (a : A) (s : S)
| Fault
| OutOfFuel.

Arguments Done {S A} a s.
Arguments Fault {S A}.
Arguments OutOfFuel {S A}.

Definition M (S A : Type) : Type := S -> Res S A.

Definition ret {S A} (a : A) : M S A := fun s => Done a s.

Definition bind {S A B} (m : M S A) (k : A -> M S B) : M S B :=
  fun s => match m s with
           | Done a s' => k a s'
           | Fault => Fault
           | OutOfFuel => OutOfFuel
           end.

Definition fault {S A} : M S A := fun _ => Fault.

Declare Scope heap_scope.
Delimit Scope heap_scope with heap.
Notation "'let*' x ':=' c 'in' k" := (bind c (fun x => k))
  (at level 10, x pattern, c at level 100, k at level 200) : heap_scope.
Notation "c ';;' k" := (bind c (fun _ => k))
  (at level 100, k at level 200, right associativity) : heap_scope.

(** [status != OK] *)
Definition failed (s : Status) : bool := bool_decide (s <> OK).

(** ** Scan predicates: raw memory, integers, floats, strings *)

Inductive Datatype : Type :=
| STRING | INTEGER | FLOAT
| DatatypeOther (v : Z).

Inductive Operator : Type :=
| LT | LTE | EQ | GTE | GT | NE
| OperatorOther (v : Z).

#[global] Instance Datatype_eq_dec : EqDecision Datatype.
Proof. solve_decision. Defined.

#[global] Instance Operator_eq_dec : EqDecision Operator.
Proof. solve_decision. Defined.

(** [sizeof(int)] and [sizeof(float)] on the platforms the code targets. *)
Definition sizeof_int : Z := 4.
Definition sizeof_float : Z := 4.

Definition byte_val (b : byte) : Z := Z.of_N (Byte.to_N b).

(** [p + off] for a pointer [p] to the start of the bytes [d]; [None] when
    the result lies outside the object. *)
Definition ptr_add (d : list byte) (off : Z) : option (list byte) :=
  if (0 <=? off) && (off <=? Z.of_nat (length d))
  then Some (drop (Z.to_nat off) d) else None.

(** The [n] bytes a [memcpy] reads at [d]; [None] when it reads past the
    end of the object. *)
Definition read_bytes (d : list byte) (n : Z) : option (list byte) :=
  if (0 <=? n) && (n <=? Z.of_nat (length d))
  then Some (take (Z.to_nat n) d) else None.

(** Little-endian value of a byte sequence. *)
Fixpoint le_decode (bs : list byte) : Z :=
  match bs with
  | [] => 0
  | b :: bs' => byte_val b + 256 * le_decode bs'
  end.

(** [int x; memcpy(&x, src, n)]: defined when [n = sizeof(int)]; a shorter
    copy leaves [x] partly indeterminate and a longer one overruns it. *)
Definition memcpy_int (src : list byte) (n : Z) : option Z :=
  if n =? sizeof_int
  then bs ← read_bytes src n; Some (wrap_signed (le_decode bs))
  else None.

(** IEEE 754 binary32 ([prec = 24], [emax = 128]) from its 32-bit pattern. *)
Definition b32_of_bits (x : Z) : spec_float :=
  let s := Z.testbit x 31 in
  let e := Z.land (Z.shiftr x 23) 255 in
  let m := Z.land x (2 ^ 23 - 1) in
  if e =? 0 then
    match m with
    | Zpos p => S754_finite s p (-149)
    | _ => S754_zero s
    end
  else if e =? 255 then
    (if m =? 0 then S754_infinity s else S754_nan)
  else
    match Z.lor m (2 ^ 23) with
    | Zpos p => S754_finite s p (e - 150)
    | _ => S754_nan
    end.

(** [float x; memcpy(&x, src, n)]. *)
Definition memcpy_float (src : list byte) (n : Z) : option spec_float :=
  if n =? sizeof_float
  then bs ← read_bytes src n; Some (b32_of_bits (le_decode bs))
  else None.

(** Conversion [int -> float] (round to nearest even). *)
Definition float_of_int (z : Z) : spec_float := binary_normalize 24 128 z 0 false.

Definition float_sub (x y : spec_float) : spec_float := SFsub 24 128 x y.

Definition float_zero : spec_float := S754_zero false.

(** [strncmp(s1, s2, n)]: bytes compared as [unsigned char], stopping after
    [n] bytes, at the first difference, or at a NUL present in both.  The
    result is the difference of the two bytes that decide; only its sign
    is specified by C.  [None] when an array ends before the comparison
    does. *)
Fixpoint strncmp (s1 s2 : list byte) (n : Z) : option Z :=
  if n =? 0 then Some 0 else
  match s1, s2 with
  | c1 :: t1, c2 :: t2 =>
      if byte_val c1 =? byte_val c2
      then (if byte_val c1 =? 0 then Some 0 else strncmp t1 t2 (n - 1))
      else Some (byte_val c1 - byte_val c2)
  | _, _ => None
  end.

(** [int -> size_t] *)
Definition to_size_t (z : Z) : Z := z mod 2 ^ 64.

(** The final [switch(op)] of [matchRec] on [float diff]. *)
Definition op_test (op : Operator) (diff : spec_float) : bool :=
  match op with
  | LT => SFltb diff float_zero
  | LTE => SFleb diff float_zero
  | EQ => SFeqb diff float_zero
  | GTE => SFleb float_zero diff
  | GT => SFltb float_zero diff
  | NE => negb (SFeqb diff float_zero)
  | OperatorOther _ => false
  end.

(** ** The heap-file layer *)

Section HeapLayer.

Variable E : Env.

(** State threaded through heap-layer code: the collaborators' state and
    the [db] / [bufMgr] calls made so far, oldest first, each with the
    status it returned. *)
Record St : Type := mkSt {
  env : W E;
  calls : list (Call (File E) * Status)
}.

Definition logged (c : Call (File E)) (st : Status) (w : W E) (s : St) : St :=
  mkSt w (calls s ++ [(c, st)]).

(** *** Calls into [db] and [bufMgr] *)

Definition createFile (name : string) : M St Status := fun s =>
  let '(st, w) := db_createFile E name (env s) in
  Done st (logged (CreateFile name) st w s).

Definition openFile (name : string) : M St (Status * File E) := fun s =>
  let '(st, f, w) := db_openFile E name (env s) in
  Done (st, f) (logged (OpenFile name) st w s).

Definition closeFile (f : File E) : M St Status := fun s =>
  let '(st, w) := db_closeFile E f (env s) in
  Done st (logged (CloseFile f) st w s).

Definition destroyFile (name : string) : M St Status := fun s =>
  let '(st, w) := db_destroyFile E name (env s) in
  Done st (logged (DestroyFile name) st w s).

Definition getFirstPage (f : File E) : M St (Status * Z) := fun s =>
  let '(st, n, w) := file_getFirstPage E f (env s) in
  Done (st, n) (logged (GetFirstPage f) st w s).

Definition allocPage (f : File E) : M St (Status * Z * option (Ptr E)) := fun s =>
  let '(st, n, p, w) := buf_allocPage E f (env s) in
  Done (st, n, p) (logged (AllocPage f) st w s).

Definition readPage (f : File E) (pno : Z) : M St (Status * option (Ptr E)) := fun s =>
  let '(st, p, w) := buf_readPage E f pno (env s) in
  Done (st, p) (logged (ReadPage f pno) st w s).

Definition unPinPage (f : File E) (pno : Z) (dirty : bool) : M St Status := fun s =>
  let '(st, w) := buf_unPinPage E f pno dirty (env s) in
  Done st (logged (UnPinPage f pno dirty) st w s).

(** *** Accesses through page pointers *)

Definition deref (p : option (Ptr E)) : M St (Ptr E) := fun s =>
  match p with
  | Some q => Done q s
  | None => Fault
  end.

Definition page_init (p : option (Ptr E)) (pno : Z) : M St unit :=
  (let* q := deref p in
   fun s => Done tt (mkSt (pg_init E q pno (env s)) (calls s)))%heap.

Definition page_getNextPage (p : option (Ptr E)) : M St Z :=
  (let* q := deref p in
   fun s => Done (pg_getNextPage E q (env s)) s)%heap.

Definition page_setNextPage (p : option (Ptr E)) (pno : Z) : M St unit :=
  (let* q := deref p in
   fun s => Done tt (mkSt (pg_setNextPage E q pno (env s)) (calls s)))%heap.

Definition page_firstRecord (p : option (Ptr E)) : M St (Status * RID) :=
  (let* q := deref p in
   fun s => Done (pg_firstRecord E q (env s)) s)%heap.

Definition page_nextRecord (p : option (Ptr E)) (cur : RID) : M St (Status * RID) :=
  (let* q := deref p in
   fun s => Done (pg_nextRecord E q cur (env s)) s)%heap.

Definition page_getRecord (p : option (Ptr E)) (rid : RID) : M St (Status * Record_) :=
  (let* q := deref p in
   fun s => Done (pg_getRecord E q rid (env s)) s)%heap.

Definition page_insertRecord (p : option (Ptr E)) (rec : Record_) : M St (Status * RID) :=
  (let* q := deref p in
   fun s => let '(st, rid, w) := pg_insertRecord E q rec (env s) in
            Done (st, rid) (mkSt w (calls s)))%heap.

Definition page_deleteRecord (p : option (Ptr E)) (rid : RID) : M St Status :=
  (let* q := deref p in
   fun s => let '(st, w) := pg_deleteRecord E q rid (env s) in
            Done st (mkSt w (calls s)))%heap.

(** [hdr->field] (read) and [hdr->field = v] (write) on a [FileHdrPage*]. *)
Definition load_hdr (p : option (Ptr E)) : M St FileHdrPage :=
  (let* q := deref p in
   fun s => Done (hdr_load E q (env s)) s)%heap.

Definition modify_hdr (p : option (Ptr E)) (f : FileHdrPage -> FileHdrPage) : M St unit :=
  (let* q := deref p in
   fun s => Done tt (mkSt (hdr_store E q (f (hdr_load E q (env s))) (env s)) (calls s)))%heap.

Definition lift_opt {A} (o : option A) : M St A := fun s =>
  match o with
  | Some a => Done a s
  | None => Fault
  end.

(** *** createHeapFile, destroyHeapFile *)

Definition createHeapFile (fileName : string) : M St Status :=
  (let* (status, file) := openFile fileName in
   if failed status then
     let* status := createFile fileName in
     if failed status then ret status else
     let* (status, file) := openFile fileName in
     if failed status then ret status else
     let* (status, hdrPageNo, newPage) := allocPage file in
     if failed status then ret status else
     let hdrPage := newPage in
     let* (_, newPageNo, newPage) := allocPage file in
     page_init newPage newPageNo ;;
     modify_hdr hdrPage (set_fileName fileName) ;;
     modify_hdr hdrPage (set_firstPage newPageNo) ;;
     modify_hdr hdrPage (set_lastPage newPageNo) ;;
     modify_hdr hdrPage (set_pageCnt 1) ;;
     modify_hdr hdrPage (set_recCnt 0) ;;
     let* status := unPinPage file hdrPageNo true in
     if failed status then ret status else
     let* status := unPinPage file newPageNo true in
     if failed status then ret status else
     let* status := closeFile file in
     ret status
   else ret FILEEXISTS)%heap.

Definition destroyHeapFile (fileName : string) : M St Status :=
  destroyFile fileName.

(** *** class HeapFile *)

Record HeapFile : Type := mkHeapFile {
  filePtr : File E;
  headerPage : option (Ptr E);
  headerPageNo : Z;
  hdrDirtyFlag : bool;
  curPage : option (Ptr E);
  curPageNo : Z;
  curDirtyFlag : bool;
  curRec : RID
}.

Definition set_filePtr (v : File E) (h : HeapFile) : HeapFile :=
  mkHeapFile v (headerPage h) (headerPageNo h) (hdrDirtyFlag h)
             (curPage h) (curPageNo h) (curDirtyFlag h) (curRec h).
Definition set_headerPage (v : option (Ptr E)) (h : HeapFile) : HeapFile :=
  mkHeapFile (filePtr h) v (headerPageNo h) (hdrDirtyFlag h)
             (curPage h) (curPageNo h) (curDirtyFlag h) (curRec h).
Definition set_headerPageNo (v : Z) (h : HeapFile) : HeapFile :=
  mkHeapFile (filePtr h) (headerPage h) v (hdrDirtyFlag h)
             (curPage h) (curPageNo h) (curDirtyFlag h) (curRec h).
Definition set_hdrDirtyFlag (v : bool) (h : HeapFile) : HeapFile :=
  mkHeapFile (filePtr h) (headerPage h) (headerPageNo h) v
             (curPage h) (curPageNo h) (curDirtyFlag h) (curRec h).
Definition set_curPage (v : option (Ptr E)) (h : HeapFile) : HeapFile :=
  mkHeapFile (filePtr h) (headerPage h) (headerPageNo h) (hdrDirtyFlag h)
             v (curPageNo h) (curDirtyFlag h) (curRec h).
Definition set_curPageNo (v : Z) (h : HeapFile) : HeapFile :=
  mkHeapFile (filePtr h) (headerPage h) (headerPageNo h) (hdrDirtyFlag h)
             (curPage h) v (curDirtyFlag h) (curRec h).
Definition set_curDirtyFlag (v : bool) (h : HeapFile) : HeapFile :=
  mkHeapFile (filePtr h) (headerPage h) (headerPageNo h) (hdrDirtyFlag h)
             (curPage h) (curPageNo h) v (curRec h).
Definition set_curRec (v : RID) (h : HeapFile) : HeapFile :=
  mkHeapFile (filePtr h) (headerPage h) (headerPageNo h) (hdrDirtyFlag h)
             (curPage h) (curPageNo h) (curDirtyFlag h) v.

(** The constructor; [this] is the object's storage before construction
    (its members are not initialised).  Returns [returnStatus]. *)
Definition HeapFile_ctor (this : HeapFile) (fileName : string)
  : M St (Status * HeapFile) :=
  (let* (status, f) := openFile fileName in
   let this := set_filePtr f this in
   if bool_decide (status = OK) then
     let* (returnStatus, n) := getFirstPage (filePtr this) in
     let this := set_headerPageNo n this in
     if failed returnStatus then ret (returnStatus, this) else
     let* (returnStatus, pagePtr) := readPage (filePtr this) (headerPageNo this) in
     if failed returnStatus then ret (returnStatus, this) else
     let this := set_headerPage pagePtr this in
     let this := set_hdrDirtyFlag false this in
     let* hdr := load_hdr (headerPage this) in
     let this := set_curPageNo (firstPage hdr) this in
     let* (returnStatus, p) := readPage (filePtr this) (curPageNo this) in
     let this := set_curPage p this in
     if failed returnStatus then ret (returnStatus, this) else
     let this := set_curDirtyFlag false this in
     let this := set_curRec NULLRID this in
     ret (returnStatus, this)
   else ret (status, this))%heap.

(** The destructor (messages to [cout] / [cerr] are not modelled; the
    first statement reads [headerPage->fileName]). *)
Definition HeapFile_dtor (this : HeapFile) : M St HeapFile :=
  (let* _ := load_hdr (headerPage this) in
   let* this :=
     if bool_decide (curPage this <> None) then
       let* status := unPinPage (filePtr this) (curPageNo this) (curDirtyFlag this) in
       let this := set_curPage None this in
       let this := set_curPageNo 0 this in
       let this := set_curDirtyFlag false this in
       ret this
     else ret this in
   let* status := unPinPage (filePtr this) (headerPageNo this) (hdrDirtyFlag this) in
   let* status := closeFile (filePtr this) in
   ret this)%heap.

Definition getRecCnt (this : HeapFile) : M St Z :=
  (let* hdr := load_hdr (headerPage this) in ret (recCnt hdr))%heap.

(** [HeapFile::getRecord(rid, rec)]; [rec] is passed in and out. *)
Definition HeapFile_getRecord (rid : RID) (rec : Record_) (this : HeapFile)
  : M St (Status * Record_ * HeapFile) :=
  (let* r :=
     if bool_decide (pageNo rid <> curPageNo this) then
       let* status := unPinPage (filePtr this) (curPageNo this) (curDirtyFlag this) in
       if failed status then ret (inl (status, this)) else
       let this := set_curDirtyFlag false this in
       let* (status, p) := readPage (filePtr this) (pageNo rid) in
       let this := set_curPage p this in
       if failed status then ret (inl (status, this)) else
       let this := set_curPageNo (pageNo rid) this in
       ret (inr this)
     else ret (inr this) in
   match r with
   | inl (status, this) => ret (status, rec, this)
   | inr this =>
       let* (status, rec) := page_getRecord (curPage this) rid in
       if failed status then ret (status, rec, this) else
       let this := set_curRec rid this in
       ret (status, rec, this)
   end)%heap.

(** *** class HeapFileScan : public HeapFile *)

Record HeapFileScan : Type := mkScan {
  base : HeapFile;
  s_offset : Z;
  s_length : Z;
  s_type : Datatype;
  s_filter : option (list byte);
  s_op : Operator;
  markedPageNo : Z;
  markedRec : RID
}.

Definition set_base (v : HeapFile) (x : HeapFileScan) : HeapFileScan :=
  mkScan v (s_offset x) (s_length x) (s_type x) (s_filter x) (s_op x)
         (markedPageNo x) (markedRec x).
Definition set_filter (v : option (list byte)) (x : HeapFileScan) : HeapFileScan :=
  mkScan (base x) (s_offset x) (s_length x) (s_type x) v (s_op x)
         (markedPageNo x) (markedRec x).
Definition set_params (o l : Z) (t : Datatype) (f : option (list byte)) (p : Operator)
    (x : HeapFileScan) : HeapFileScan :=
  mkScan (base x) o l t f p (markedPageNo x) (markedRec x).
Definition set_marked (n : Z) (r : RID) (x : HeapFileScan) : HeapFileScan :=
  mkScan (base x) (s_offset x) (s_length x) (s_type x) (s_filter x) (s_op x) n r.

(** Update of an inherited member. *)
Definition upd (f : HeapFile -> HeapFile) (x : HeapFileScan) : HeapFileScan :=
  set_base (f (base x)) x.

Definition HeapFileScan_ctor (this : HeapFileScan) (name : string)
  : M St (Status * HeapFileScan) :=
  (let* (status, b) := HeapFile_ctor (base this) name in
   let this := set_base b this in
   let this := set_filter None this in
   ret (status, this))%heap.

Definition startScan (offset_ length_ : Z) (type_ : Datatype)
    (filter_ : option (list byte)) (op_ : Operator) (this : HeapFileScan)
  : Status * HeapFileScan :=
  match filter_ with
  | None => (OK, set_filter None this)
  | Some _ =>
      if ((offset_ <? 0) || (length_ <? 1))
         || (bool_decide (type_ <> STRING) && bool_decide (type_ <> INTEGER)
             && bool_decide (type_ <> FLOAT))
         || ((bool_decide (type_ = INTEGER) && bool_decide (to_size_t length_ <> sizeof_int))
             || (bool_decide (type_ = FLOAT) && bool_decide (to_size_t length_ <> sizeof_float)))
         || (bool_decide (op_ <> LT) && bool_decide (op_ <> LTE) && bool_decide (op_ <> EQ)
             && bool_decide (op_ <> GTE) && bool_decide (op_ <> GT) && bool_decide (op_ <> NE))
      then (BADSCANPARM, this)
      else (OK, set_params offset_ length_ type_ filter_ op_ this)
  end.

Definition endScan (this : HeapFileScan) : M St (Status * HeapFileScan) :=
  (if bool_decide (curPage (base this) <> None) then
     let* status := unPinPage (filePtr (base this)) (curPageNo (base this))
                              (curDirtyFlag (base this)) in
     let this := upd (set_curPage None) this in
     let this := upd (set_curPageNo 0) this in
     let this := upd (set_curDirtyFlag false) this in
     ret (status, this)
   else ret (OK, this))%heap.

(** [~HeapFileScan] runs [endScan], then the base destructor runs. *)
Definition HeapFileScan_dtor (this : HeapFileScan) : M St HeapFileScan :=
  (let* (_, this) := endScan this in
   let* b := HeapFile_dtor (base this) in
   ret (set_base b this))%heap.

Definition markScan (this : HeapFileScan) : Status * HeapFileScan :=
  (OK, set_marked (curPageNo (base this)) (curRec (base this)) this).

Definition resetScan (this : HeapFileScan) : M St (Status * HeapFileScan) :=
  (if bool_decide (markedPageNo this <> curPageNo (base this)) then
     let* r :=
       if bool_decide (curPage (base this) <> None) then
         let* status := unPinPage (filePtr (base this)) (curPageNo (base this))
                                  (curDirtyFlag (base this)) in
         ret status
       else ret OK in
     if failed r then ret (r, this) else
     let this := upd (set_curPageNo (markedPageNo this)) this in
     let this := upd (set_curRec (markedRec this)) this in
     let* (status, p) := readPage (filePtr (base this)) (curPageNo (base this)) in
     let this := upd (set_curPage p) this in
     if failed status then ret (status, this) else
     let this := upd (set_curDirtyFlag false) this in
     ret (OK, this)
   else
     let this := upd (set_curRec (markedRec this)) this in
     ret (OK, this))%heap.

(** [HeapFileScan::getRecord(rec)]: the record at [curRec] on [curPage]. *)
Definition HeapFileScan_getRecord (this : HeapFileScan) : M St (Status * Record_) :=
  page_getRecord (curPage (base this)) (curRec (base this)).

Definition deleteRecord (this : HeapFileScan) : M St (Status * HeapFileScan) :=
  (let* status := page_deleteRecord (curPage (base this)) (curRec (base this)) in
   let this := upd (set_curDirtyFlag true) this in
   modify_hdr (headerPage (base this)) (fun h => set_recCnt (int_sub (recCnt h) 1) h) ;;
   let this := upd (set_hdrDirtyFlag true) this in
   ret (status, this))%heap.

Definition markDirty (this : HeapFileScan) : Status * HeapFileScan :=
  (OK, upd (set_curDirtyFlag true) this).

(** [matchRec]; [None] when [offset + length - 1] overflows [int], when a
    [memcpy] or [strncmp] reads outside the record or the filter, or when
    one copies a width other than that of its target. *)
Definition matchRec (this : HeapFileScan) (rec : Record_) : option bool :=
  match s_filter this with
  | None => Some true
  | Some fltr =>
      sum ← int_checked (s_offset this + s_length this);
      end_ ← int_checked (sum - 1);
      if end_ >=? length_ rec
      then Some false
      else
        diff ← match s_type this with
               | INTEGER =>
                   src ← ptr_add (data rec) (s_offset this);
                   iattr ← memcpy_int src (s_length this);
                   ifltr ← memcpy_int fltr (s_length this);
                   Some (float_of_int (int_sub iattr ifltr))
               | FLOAT =>
                   src ← ptr_add (data rec) (s_offset this);
                   fattr ← memcpy_float src (s_length this);
                   ffltr ← memcpy_float fltr (s_length this);
                   Some (float_sub fattr ffltr)
               | STRING =>
                   src ← ptr_add (data rec) (s_offset this);
                   d ← strncmp src fltr (to_size_t (s_length this));
                   Some (float_of_int d)
               | DatatypeOther _ => Some float_zero
               end;
        Some (op_test (s_op this) diff)
  end.

(** One pass through the body of the [do ... while (!matchRec(rec))] loop
    of [scanNext]; [again] is the next iteration.  [outRid] is the caller's
    variable, passed in and out. *)
Definition scanNext_body
    (again : RID -> HeapFileScan -> M St (Status * RID * HeapFileScan))
    (outRid : RID) (this : HeapFileScan)
  : M St (Status * RID * HeapFileScan) :=
  (let fetch (tmpRid : RID) (this : HeapFileScan) :=
     let* (status, rec) := HeapFileScan_getRecord this in
     if failed status then ret (status, outRid, this) else
     let this := upd (set_curRec tmpRid) this in
     let* m := lift_opt (matchRec this rec) in
     if negb m then again outRid this
     else ret (status, curRec (base this), this) in
   let cross (status : Status) (tmpRid : RID) (this : HeapFileScan) :=
     if bool_decide (status = ENDOFPAGE) then
       let* status := unPinPage (filePtr (base this)) (curPageNo (base this))
                                (curDirtyFlag (base this)) in
       if failed status then ret (status, outRid, this) else
       let* n := page_getNextPage (curPage (base this)) in
       let this := upd (set_curPageNo n) this in
       let* (status, p) := readPage (filePtr (base this)) (curPageNo (base this)) in
       let this := upd (set_curPage p) this in
       if failed status then ret (status, outRid, this) else
       let* (status, tmpRid) := page_firstRecord (curPage (base this)) in
       if failed status then ret (FILEEOF, outRid, this) else
       fetch tmpRid this
     else fetch tmpRid this in
   if bool_decide (pageNo (curRec (base this)) = -1)
      && bool_decide (slotNo (curRec (base this)) = -1)
   then
     let* (status, tmpRid) := page_firstRecord (curPage (base this)) in
     if failed status then ret (FILEEOF, outRid, this) else
     cross status tmpRid this
   else
     let* (status, tmpRid) := page_nextRecord (curPage (base this)) (curRec (base this)) in
     cross status tmpRid this)%heap.

(** [scanNext]: the loop runs at most [fuel] times in the model. *)
Fixpoint scanNext (fuel : nat) (outRid : RID) (this : HeapFileScan)
  : M St (Status * RID * HeapFileScan) :=
  match fuel with
  | O => fun _ => OutOfFuel
  | S fuel' => scanNext_body (scanNext fuel') outRid this
  end.

(** *** class InsertFileScan : public HeapFile *)

Definition InsertFileScan_ctor (this : HeapFile) (name : string)
  : M St (Status * HeapFile) :=
  HeapFile_ctor this name.

(** Body of [~InsertFileScan]. *)
Definition InsertFileScan_dtor_body (this : HeapFile) : M St HeapFile :=
  (if bool_decide (curPage this <> None) then
     let* status := unPinPage (filePtr this) (curPageNo this) true in
     let this := set_curPage None this in
     let this := set_curPageNo 0 this in
     ret this
   else ret this)%heap.

(** [~InsertFileScan]: its body, then the base destructor. *)
Definition InsertFileScan_dtor (this : HeapFile) : M St HeapFile :=
  (let* this := InsertFileScan_dtor_body this in
   HeapFile_dtor this)%heap.

(** [insertRecord]; [outRid] is passed in and out. *)
Definition insertRecord (rec : Record_) (outRid : RID) (this : HeapFile)
  : M St (Status * RID * HeapFile) :=
  (if wrap_unsigned (length_ rec) >? wrap_unsigned (PAGESIZE E - DPFIXED E)
   then ret (INVALIDRECLEN, outRid, this)
   else
     let finish (outRid : RID) (this : HeapFile) :=
       let this := set_curDirtyFlag true this in
       modify_hdr (headerPage this) (fun h => set_recCnt (int_add (recCnt h) 1) h) ;;
       let this := set_curRec outRid this in
       ret (OK, outRid, this) in
     let* hdr := load_hdr (headerPage this) in
     let* r :=
       if bool_decide (curPageNo this <> lastPage hdr) then
         let* status := unPinPage (filePtr this) (curPageNo this) (curDirtyFlag this) in
         if failed status then ret (inl status) else
         let* hdr := load_hdr (headerPage this) in
         let* (status, newPage) := readPage (filePtr this) (lastPage hdr) in
         if failed status then ret (inl status) else
         let this := set_curPage newPage this in
         let* hdr := load_hdr (headerPage this) in
         let this := set_curPageNo (lastPage hdr) this in
         let this := set_curDirtyFlag false this in
         ret (inr this)
       else ret (inr this) in
     match r with
     | inl status => ret (status, outRid, this)
     | inr this =>
         let* (status, outRid) := page_insertRecord (curPage this) rec in
         if bool_decide (status = NOSPACE) then
           let* (status, newPageNo, newPage) := allocPage (filePtr this) in
           if failed status then ret (status, outRid, this) else
           page_init newPage newPageNo ;;
           page_setNextPage (curPage this) newPageNo ;;
           let* status := unPinPage (filePtr this) (curPageNo this) (curDirtyFlag this) in
           if failed status then ret (status, outRid, this) else
           let this := set_curPage newPage this in
           let this := set_curPageNo newPageNo this in
           let this := set_curDirtyFlag false this in
           let* (status, outRid) := page_insertRecord (curPage this) rec in
           if failed status then ret (status, outRid, this) else
           modify_hdr (headerPage this) (set_lastPage (curPageNo this)) ;;
           modify_hdr (headerPage this) (fun h => set_pageCnt (int_add (pageCnt h) 1) h) ;;
           let this := set_hdrDirtyFlag true this in
           finish outRid this
         else finish outRid this
     end)%heap.

End HeapLayer.

Arguments mkSt {E} env calls.
Arguments env {E} s.
Arguments calls {E} s.
Arguments mkHeapFile {E}.
Arguments mkScan {E}.

(** ** Collaborators

    Two instances of the interface.  [ScriptEnv] answers the [n]-th call to
    [db] / [bufMgr] with a status read from a script, which drives any error
    path of the heap layer.  [RefEnv] is a reference model of the three
    collaborators. *)

Module ScriptEnv.

(** The state counts the [db] / [bufMgr] calls answered so far.  Files are
    numbered; a page pointer is the number of the page it points at; page
    numbers handed out by [allocPage] are the call count. *)
Definition make (script : nat -> Status) : Env := {|
  W := nat;
  File := Z;
  Ptr := Z;
  PAGESIZE := 1024;
  DPFIXED := 20;
  db_createFile := fun _ n => (script n, S n);
  db_openFile := fun _ n => (script n, 1, S n);
  db_closeFile := fun _ n => (script n, S n);
  db_destroyFile := fun _ n => (script n, S n);
  file_getFirstPage := fun _ n => (script n, 1, S n);
  buf_allocPage := fun _ n => (script n, Z.of_nat n, Some (Z.of_nat n), S n);
  buf_readPage := fun _ pno n => (script n, Some pno, S n);
  buf_unPinPage := fun _ _ _ n => (script n, S n);
  pg_init := fun _ _ n => n;
  pg_getNextPage := fun _ _ => -1;
  pg_setNextPage := fun _ _ n => n;
  pg_firstRecord := fun p _ => (OK, mkRID p 0);
  pg_nextRecord := fun p cur _ => (ENDOFPAGE, cur);
  pg_getRecord := fun _ _ _ => (OK, mkRecord [] 0);
  pg_insertRecord := fun p _ n => (OK, mkRID p 0, n);
  pg_deleteRecord := fun _ _ n => (OK, n);
  hdr_load := fun _ _ => mkHdr "" 1 1 1 0;
  hdr_store := fun _ _ n => n
|}.

(** Every call succeeds, except the calls numbered in [bad], which return
    the paired status. *)
Fixpoint failing (bad : list (nat * Status)) (n : nat) : Status :=
  match bad with
  | [] => OK
  | (k, st) :: bad' => if Nat.eqb k n then st else failing bad' n
  end.

End ScriptEnv.

Module RefEnv.

(** Modelled from the spec: the database/file layer, the buffer manager and
    the page class (spec section 6, "External interfaces"), none of which
    is in heapfile.cpp.  A file is a sequence of page frames numbered from
    0 with a count of outstanding opens; the buffer pool is coherent and
    never evicts, so a page pointer is the pair (file, page number) and every
    read through it sees the latest write.  Pin counts and dirty bits are
    not kept: the [dirty] argument of [unPinPage] plays no part, and no
    change is lost whatever it is ([PoolEnv] has both).  A frame is raw after
    allocation, a data page after [init], or a header once header fields
    are stored through it.  A data page has a next-page link and a slot
    directory; a record fits while the bytes in use plus its length stay
    within [PAGESIZE - DPFIXED], each stored record also taking [SLOTSIZE]
    bytes of directory. *)

Definition BADPAGENO : Status := OTHER 1.
Definition FILENOTFOUND : Status := OTHER 2.
Definition FILENOTOPEN : Status := OTHER 3.
Definition FILEOPEN : Status := OTHER 4.
Definition INVALIDSLOTNO : Status := OTHER 5.

Definition SLOTSIZE : Z := 4.

Record RPage : Type := mkRPage {
  rp_no : Z;
  rp_next : Z;
  rp_slots : list (option (list byte))
}.

Inductive Frame : Type :=
| FRaw
| FHdr (h : FileHdrPage)
| FData (d : RPage).

Record RFile : Type := mkRFile {
  rf_pages : list Frame;
  rf_open : nat
}.

Definition frame_at (w : gmap string RFile) (p : string * Z) : option Frame :=
  f ← w !! p.1;
  if 0 <=? p.2 then rf_pages f !! Z.to_nat p.2 else None.

Definition set_frame (w : gmap string RFile) (p : string * Z) (fr : Frame)
  : gmap string RFile :=
  match w !! p.1 with
  | Some f =>
      if 0 <=? p.2
      then <[p.1 := mkRFile (<[Z.to_nat p.2 := fr]> (rf_pages f)) (rf_open f)]> w
      else w
  | None => w
  end.

Definition data_at (w : gmap string RFile) (p : string * Z) : option RPage :=
  match frame_at w p with
  | Some (FData d) => Some d
  | _ => None
  end.

(** Index of the first live slot of [slots], whose head has index [i]. *)
Fixpoint first_live (slots : list (option (list byte))) (i : Z) : option Z :=
  match slots with
  | [] => None
  | Some _ :: _ => Some i
  | None :: t => first_live t (i + 1)
  end.

Fixpoint used (slots : list (option (list byte))) : Z :=
  match slots with
  | [] => 0
  | Some bs :: t => Z.of_nat (length bs) + SLOTSIZE + used t
  | None :: t => SLOTSIZE + used t
  end.

Definition createFile (name : string) (w : gmap string RFile) : Status * gmap string RFile :=
  match w !! name with
  | Some _ => (FILEEXISTS, w)
  | None => (OK, <[name := mkRFile [] 0]> w)
  end.

Definition openFile (name : string) (w : gmap string RFile)
  : Status * string * gmap string RFile :=
  match w !! name with
  | Some f => (OK, name, <[name := mkRFile (rf_pages f) (S (rf_open f))]> w)
  | None => (FILENOTFOUND, name, w)
  end.

Definition closeFile (name : string) (w : gmap string RFile) : Status * gmap string RFile :=
  match w !! name with
  | Some f =>
      match rf_open f with
      | O => (FILENOTOPEN, w)
      | S n => (OK, <[name := mkRFile (rf_pages f) n]> w)
      end
  | None => (FILENOTFOUND, w)
  end.

Definition destroyFile (name : string) (w : gmap string RFile) : Status * gmap string RFile :=
  match w !! name with
  | Some f =>
      match rf_open f with
      | O => (OK, delete name w)
      | S _ => (FILEOPEN, w)
      end
  | None => (FILENOTFOUND, w)
  end.

Definition getFirstPage (name : string) (w : gmap string RFile)
  : Status * Z * gmap string RFile :=
  match w !! name with
  | Some f => if decide (rf_pages f = []) then (BADPAGENO, -1, w) else (OK, 0, w)
  | None => (FILENOTFOUND, -1, w)
  end.

Definition allocPage (name : string) (w : gmap string RFile)
  : Status * Z * option (string * Z) * gmap string RFile :=
  match w !! name with
  | Some f =>
      let n := Z.of_nat (length (rf_pages f)) in
      (OK, n, Some (name, n), <[name := mkRFile (rf_pages f ++ [FRaw]) (rf_open f)]> w)
  | None => (FILENOTFOUND, -1, None, w)
  end.

Definition readPage (name : string) (pno : Z) (w : gmap string RFile)
  : Status * option (string * Z) * gmap string RFile :=
  match frame_at w (name, pno) with
  | Some _ => (OK, Some (name, pno), w)
  | None => (BADPAGENO, None, w)
  end.

Definition unPinPage (name : string) (pno : Z) (dirty : bool) (w : gmap string RFile)
  : Status * gmap string RFile :=
  match frame_at w (name, pno) with
  | Some _ => (OK, w)
  | None => (BADPAGENO, w)
  end.

Definition init (p : string * Z) (pno : Z) (w : gmap string RFile) : gmap string RFile :=
  set_frame w p (FData (mkRPage pno (-1) [])).

Definition getNextPage (p : string * Z) (w : gmap string RFile) : Z :=
  match data_at w p with
  | Some d => rp_next d
  | None => 0
  end.

Definition setNextPage (p : string * Z) (n : Z) (w : gmap string RFile) : gmap string RFile :=
  match data_at w p with
  | Some d => set_frame w p (FData (mkRPage (rp_no d) n (rp_slots d)))
  | None => w
  end.

Definition firstRecord (p : string * Z) (w : gmap string RFile) : Status * RID :=
  match data_at w p with
  | Some d =>
      match first_live (rp_slots d) 0 with
      | Some i => (OK, mkRID (rp_no d) i)
      | None => (NORECORDS, NULLRID)
      end
  | None => (NORECORDS, NULLRID)
  end.

Definition nextRecord (p : string * Z) (cur : RID) (w : gmap string RFile) : Status * RID :=
  match data_at w p with
  | Some d =>
      if slotNo cur <? 0 then (INVALIDSLOTNO, NULLRID) else
      match first_live (drop (Z.to_nat (slotNo cur + 1)) (rp_slots d)) (slotNo cur + 1) with
      | Some i => (OK, mkRID (rp_no d) i)
      | None => (ENDOFPAGE, NULLRID)
      end
  | None => (INVALIDSLOTNO, NULLRID)
  end.

Definition getRecord (p : string * Z) (rid : RID) (w : gmap string RFile) : Status * Record_ :=
  match data_at w p with
  | Some d =>
      if slotNo rid <? 0 then (INVALIDSLOTNO, mkRecord [] 0) else
      match rp_slots d !! Z.to_nat (slotNo rid) with
      | Some (Some bs) => (OK, mkRecord bs (Z.of_nat (length bs)))
      | _ => (INVALIDSLOTNO, mkRecord [] 0)
      end
  | None => (INVALIDSLOTNO, mkRecord [] 0)
  end.

Definition insertRecord (pagesize dpfixed : Z) (p : string * Z) (rec : Record_)
    (w : gmap string RFile) : Status * RID * gmap string RFile :=
  match data_at w p with
  | Some d =>
      if (0 <=? length_ rec) && (used (rp_slots d) + length_ rec <=? pagesize - dpfixed)
      then (OK, mkRID (rp_no d) (Z.of_nat (length (rp_slots d))),
            set_frame w p (FData (mkRPage (rp_no d) (rp_next d)
              (rp_slots d ++ [Some (take (Z.to_nat (length_ rec)) (data rec))]))))
      else (NOSPACE, NULLRID, w)
  | None => (NOSPACE, NULLRID, w)
  end.

Definition deleteRecord (p : string * Z) (rid : RID) (w : gmap string RFile)
  : Status * gmap string RFile :=
  match data_at w p with
  | Some d =>
      if slotNo rid <? 0 then (INVALIDSLOTNO, w) else
      match rp_slots d !! Z.to_nat (slotNo rid) with
      | Some (Some _) =>
          (OK, set_frame w p (FData (mkRPage (rp_no d) (rp_next d)
                 (<[Z.to_nat (slotNo rid) := None]> (rp_slots d)))))
      | _ => (INVALIDSLOTNO, w)
      end
  | None => (INVALIDSLOTNO, w)
  end.

Definition blank_hdr : FileHdrPage := mkHdr "" 0 0 0 0.

Definition load (p : string * Z) (w : gmap string RFile) : FileHdrPage :=
  match frame_at w p with
  | Some (FHdr h) => h
  | _ => blank_hdr
  end.

Definition store (p : string * Z) (h : FileHdrPage) (w : gmap string RFile)
  : gmap string RFile :=
  set_frame w p (FHdr h).

Definition make (pagesize dpfixed : Z) : Env := {|
  W := gmap string RFile;
  File := string;
  Ptr := string * Z;
  PAGESIZE := pagesize;
  DPFIXED := dpfixed;
  db_createFile := createFile;
  db_openFile := openFile;
  db_closeFile := closeFile;
  db_destroyFile := destroyFile;
  file_getFirstPage := getFirstPage;
  buf_allocPage := allocPage;
  buf_readPage := readPage;
  buf_unPinPage := unPinPage;
  pg_init := init;
  pg_getNextPage := getNextPage;
  pg_setNextPage := setNextPage;
  pg_firstRecord := firstRecord;
  pg_nextRecord := nextRecord;
  pg_getRecord := getRecord;
  pg_insertRecord := insertRecord pagesize dpfixed;
  pg_deleteRecord := deleteRecord;
  hdr_load := load;
  hdr_store := store
|}.

End RefEnv.

Module PoolEnv.

(** Modelled from the spec: a buffer manager with pin counts and a dirty
    bit per frame (spec section 6 and glossary), over the files and pages
    of [RefEnv]; heapfile.cpp has none of it.  By the glossary a pinned
    page cannot be evicted, and the dirty bit of a frame says that the
    buffer contents differ from disk and is set through the [dirty]
    argument of [unPinPage].  This pool keeps a frame only while it is
    pinned: when the last pin of a page is released the frame is evicted,
    written to disk if its dirty bit is set and dropped otherwise.
    [disk] holds the files as stored, [mem] the files as seen through the
    pool (the frames of the pinned pages, the stored contents of the
    others), [pins] the pin count and the dirty bit of every page in the
    pool.  [allocPage] and [readPage] return the page pinned; page and
    header operations work on the frame. *)

Import RefEnv.

Definition PAGENOTPINNED : Status := OTHER 6.

Record Pool : Type := mkPool {
  disk : gmap string RFile;
  mem : gmap string RFile;
  pins : gmap (string * Z) (nat * bool)
}.

(** A file-layer operation, applied to the stored files and to their image
    in the pool. *)
Definition on_files {A : Type} (f : gmap string RFile -> A * gmap string RFile)
    (w : Pool) : A * Pool :=
  ((f (disk w)).1, mkPool (f (disk w)).2 (f (mem w)).2 (pins w)).

(** A page operation, applied to the frame. *)
Definition on_mem (f : gmap string RFile -> gmap string RFile) (w : Pool) : Pool :=
  mkPool (disk w) (f (mem w)) (pins w).

(** Page [p] of [dst] overwritten with page [p] of [src]. *)
Definition copy_frame (src dst : gmap string RFile) (p : string * Z) : gmap string RFile :=
  match frame_at src p with
  | Some fr => set_frame dst p fr
  | None => dst
  end.

Definition pin (p : string * Z) (w : Pool) : Pool :=
  mkPool (disk w) (mem w)
         (<[p := match pins w !! p with
                 | Some (k, d) => (S k, d)
                 | None => (1%nat, false)
                 end]> (pins w)).

Definition allocPage (name : string) (w : Pool)
  : Status * Z * option (string * Z) * Pool :=
  let r := on_files (RefEnv.allocPage name) w in
  match r.1.2 with
  | Some p => (r.1, pin p r.2)
  | None => r
  end.

Definition readPage (name : string) (pno : Z) (w : Pool)
  : Status * option (string * Z) * Pool :=
  match frame_at (mem w) (name, pno) with
  | Some _ => (OK, Some (name, pno), pin (name, pno) w)
  | None => (BADPAGENO, None, w)
  end.

Definition unPinPage (name : string) (pno : Z) (dirty : bool) (w : Pool) : Status * Pool :=
  match pins w !! (name, pno) with
  | Some (S k, d0) =>
      let d := d0 || dirty in
      match k with
      | O =>
          if d
          then (OK, mkPool (copy_frame (mem w) (disk w) (name, pno)) (mem w)
                           (delete (name, pno) (pins w)))
          else (OK, mkPool (disk w) (copy_frame (disk w) (mem w) (name, pno))
                           (delete (name, pno) (pins w)))
      | S _ => (OK, mkPool (disk w) (mem w) (<[(name, pno) := (k, d)]> (pins w)))
      end
  | _ => (PAGENOTPINNED, w)
  end.

Definition insertRecord (pagesize dpfixed : Z) (p : string * Z) (rec : Record_) (w : Pool)
  : Status * RID * Pool :=
  let r := RefEnv.insertRecord pagesize dpfixed p rec (mem w) in
  (r.1, mkPool (disk w) r.2 (pins w)).

Definition deleteRecord (p : string * Z) (rid : RID) (w : Pool) : Status * Pool :=
  let r := RefEnv.deleteRecord p rid (mem w) in
  (r.1, mkPool (disk w) r.2 (pins w)).

Definition make (pagesize dpfixed : Z) : Env := {|
  W := Pool;
  File := string;
  Ptr := string * Z;
  PAGESIZE := pagesize;
  DPFIXED := dpfixed;
  db_createFile := fun name => on_files (RefEnv.createFile name);
  db_openFile := fun name => on_files (RefEnv.openFile name);
  db_closeFile := fun name => on_files (RefEnv.closeFile name);
  db_destroyFile := fun name => on_files (RefEnv.destroyFile name);
  file_getFirstPage := fun name => on_files (RefEnv.getFirstPage name);
  buf_allocPage := allocPage;
  buf_readPage := readPage;
  buf_unPinPage := unPinPage;
  pg_init := fun p n => on_mem (RefEnv.init p n);
  pg_getNextPage := fun p w => RefEnv.getNextPage p (mem w);
  pg_setNextPage := fun p n => on_mem (RefEnv.setNextPage p n);
  pg_firstRecord := fun p w => RefEnv.firstRecord p (mem w);
  pg_nextRecord := fun p cur w => RefEnv.nextRecord p cur (mem w);
  pg_getRecord := fun p rid w => RefEnv.getRecord p rid (mem w);
  pg_insertRecord := insertRecord pagesize dpfixed;
  pg_deleteRecord := deleteRecord;
  hdr_load := fun p w => RefEnv.load p (mem w);
  hdr_store := fun p h => on_mem (RefEnv.store p h)
|}.

End PoolEnv.


(** ** Concrete runs

    Test programs over the two collaborator instances, used to evaluate
    the heap layer on explicit inputs. *)

Module Runs.

Definition E0 : Env := RefEnv.make 1024 20.

(** No files yet, no calls made. *)
Definition st0 : St E0 := mkSt (E := E0) (∅ : gmap string RefEnv.RFile) [].

(** Object storage before construction. *)
Definition raw : HeapFile E0 :=
  mkHeapFile (E := E0) "" None 0 false None 0 false NULLRID.

Definition raw_scan : HeapFileScan E0 :=
  mkScan raw 0 0 (DatatypeOther 0) None (OperatorOther 0) 0 NULLRID.

Definition recA : Record_ := mkRecord ["A"%byte] 1.
Definition recB : Record_ := mkRecord ["B"%byte] 1.

Definition value_of {S A} (r : Res S A) : option A :=
  match r with
  | Done a _ => Some a
  | _ => None
  end.


(** Create "t1" and insert [recs] through one [InsertFileScan], which is
    then destroyed. *)
Fixpoint insert_all (recs : list Record_) (ins : HeapFile E0) : M (St E0) (HeapFile E0) :=
  match recs with
  | [] => ret ins
  | r :: recs' =>
      (let* (_, _, ins) := insertRecord E0 r NULLRID ins in
       insert_all recs' ins)%heap
  end.

Definition populate (recs : list Record_) : M (St E0) unit :=
  (createHeapFile E0 "t1" ;;
   let* (_, ins) := InsertFileScan_ctor E0 raw "t1" in
   let* ins := insert_all recs ins in
   let* _ := InsertFileScan_dtor E0 ins in
   ret tt)%heap.

(** A scan of "t1" with the filter [attr[0..1) == "A"], positioned on the
    record [rid] by [HeapFile::getRecord]. *)
Definition scan_at (rid : RID) : M (St E0) (HeapFileScan E0) :=
  (let* (_, scan) := HeapFileScan_ctor E0 raw_scan "t1" in
   let scan := (startScan E0 0 1 STRING (Some ["A"%byte]) EQ scan).2 in
   let* (_, _, b) := HeapFile_getRecord E0 rid (mkRecord [] 0) (base E0 scan) in
   ret (set_base E0 b scan))%heap.

(** What the caller of [scanNext] observes, and whether the record at the
    returned RID satisfies the scan's predicate. *)
Definition observe (scan : HeapFileScan E0)
  : M (St E0) (Status * RID * RID * option bool) :=
  (let* (status, rid, scan) := scanNext E0 8 NULLRID scan in
   let* (_, rec) := page_getRecord E0 (curPage E0 (base E0 scan)) rid in
   ret (status, rid, curRec E0 (base E0 scan), matchRec E0 scan rec))%heap.

(** Records "A", "B"; the scan stands on the first one. *)
Definition run_scanNext : M (St E0) (Status * RID * RID * option bool) :=
  (populate [recA; recB] ;;
   let* scan := scan_at (mkRID 1 0) in
   observe scan)%heap.

(** Records "A", "B", "A"; mark on the first one, one [scanNext], reset,
    and [scanNext] again. *)
Definition run_mark_reset : M (St E0) (Status * RID * RID * option bool) :=
  (populate [recA; recB; recA] ;;
   let* scan := scan_at (mkRID 1 0) in
   let scan := (markScan E0 scan).2 in
   let* (_, _, scan) := scanNext E0 8 NULLRID scan in
   let* (_, scan) := resetScan E0 scan in
   observe scan)%heap.

(** A fresh scan without filter over one record. *)
Definition run_fresh_scan : M (St E0) (Status * RID) :=
  (populate [recA] ;;
   let* (_, scan) := HeapFileScan_ctor E0 raw_scan "t1" in
   let* (status, rid, _) := scanNext E0 8 NULLRID scan in
   ret (status, rid))%heap.

(** "t1" is created twice. *)
Definition run_create_twice : M (St E0) Status :=
  (createHeapFile E0 "t1" ;; createHeapFile E0 "t1")%heap.


(** The state after "t1" was created, and a handle open on it (as the
    constructor leaves it). *)
Definition s_t1 : St E0 :=
  Eval vm_compute in
    match createHeapFile E0 "t1" st0 with
    | Done _ s => s
    | _ => st0
    end.

(** The state after "t1" was created a second time. *)
Definition s_t1_twice : St E0 :=
  Eval vm_compute in
    match createHeapFile E0 "t1" s_t1 with
    | Done _ s => s
    | _ => st0
    end.

Definition h_t1 : HeapFile E0 :=
  mkHeapFile (E := E0) "t1" (Some ("t1", 0)) 0 false (Some ("t1", 1)) 1 false NULLRID.

Definition scan_t1 : HeapFileScan E0 :=
  mkScan h_t1 0 0 (DatatypeOther 0) None (OperatorOther 0) 0 NULLRID.



(** The state after "t1" was created and the record "A" inserted, and a
    scan standing on that record, the last of the last page. *)
Definition s_one : St E0 :=
  Eval vm_compute in
    match populate [recA] st0 with
    | Done _ s => s
    | _ => st0
    end.

Definition scan_one : HeapFileScan E0 :=
  mkScan (mkHeapFile (E := E0) "t1" (Some ("t1", 0)) 0 false (Some ("t1", 1)) 1 false
                     (mkRID 1 0))
         0 0 (DatatypeOther 0) None (OperatorOther 0) 0 NULLRID.

(** A string filter and a record that agree up to a NUL and differ after
    it. *)
Definition scan_nul : HeapFileScan E0 :=
  set_params E0 0 3 STRING (Some ["a"%byte; x00; "c"%byte]) EQ raw_scan.

Definition rec_nul : Record_ := mkRecord ["a"%byte; x00; "b"%byte] 3.

(** The integer filter [attr > -1] and a record holding [INT_MAX]. *)
Definition scan_gt : HeapFileScan E0 :=
  set_params E0 0 4 INTEGER (Some [xff; xff; xff; xff]) GT raw_scan.

Definition rec_max : Record_ := mkRecord [xff; xff; xff; x7f] 4.

(** The integer filter [attr >= 5] on a record whose key is 7, and the
    float filter [attr < 1.0f] on a record holding 0.5f. *)
Definition scan_ge5 : HeapFileScan E0 :=
  set_params E0 0 4 INTEGER (Some [x05; x00; x00; x00]) GTE raw_scan.

Definition rec_7 : Record_ := mkRecord [x07; x00; x00; x00; "x"%byte] 5.

Definition scan_lt1 : HeapFileScan E0 :=
  set_params E0 0 4 FLOAT (Some [x00; x00; x80; x3f]) LT raw_scan.

Definition rec_half : Record_ := mkRecord [x00; x00; x00; x3f] 4.

(** The file does not exist (call 0 fails), and the second [allocPage]
    (call 4) fails; every other call succeeds. *)
Definition E_alloc2 : Env :=
  ScriptEnv.make (ScriptEnv.failing [(0, OTHER 2); (4, OTHER 7)]%nat).

End Runs.

(** ** Vocabulary of the statements *)

(** The values of an [int]. *)
Definition is_int (z : Z) : Prop := INT_MIN <= z <= INT_MAX.

(** The parameter combinations [startScan] is to reject. *)
Definition bad_scan_params (offset_ length_ : Z) (type_ : Datatype) (op_ : Operator) : Prop :=
  offset_ < 0 \/ length_ < 1 \/
  (type_ <> STRING /\ type_ <> INTEGER /\ type_ <> FLOAT) \/
  (type_ = INTEGER /\ length_ <> sizeof_int) \/
  (type_ = FLOAT /\ length_ <> sizeof_float) \/
  (op_ <> LT /\ op_ <> LTE /\ op_ <> EQ /\ op_ <> GTE /\ op_ <> GT /\ op_ <> NE).

(** None of the calls [insertRecord] makes below itself ever answers [st]. *)
Definition insert_callees_never (E : Env) (st : Status) : Prop :=
  (forall f n d w, (buf_unPinPage E f n d w).1 <> st) /\
  (forall f n w, (buf_readPage E f n w).1.1 <> st) /\
  (forall f w, (buf_allocPage E f w).1.1.1 <> st) /\
  (forall p r w, (pg_insertRecord E p r w).1.1 <> st).

(** None of the calls [scanNext] passes a status through from ever
    answers [st]. *)
Definition scan_callees_never (E : Env) (st : Status) : Prop :=
  (forall f n d w, (buf_unPinPage E f n d w).1 <> st) /\
  (forall f n w, (buf_readPage E f n w).1.1 <> st) /\
  (forall p r w, (pg_getRecord E p r w).1 <> st).

(** Whether a three-way comparison result satisfies an operator. *)
Definition op_holds (op : Operator) (c : comparison) : bool :=
  match op, c with
  | LT, Lt => true
  | LTE, (Lt | Eq) => true
  | EQ, Eq => true
  | GTE, (Gt | Eq) => true
  | GT, Gt => true
  | NE, (Lt | Gt) => true
  | _, _ => false
  end.

(** Lexicographic comparison of byte sequences, bytes as unsigned values. *)
Fixpoint lex_compare (a b : list byte) : comparison :=
  match a, b with
  | [], [] => Eq
  | [], _ :: _ => Lt
  | _ :: _, [] => Gt
  | x :: a', y :: b' =>
      match byte_val x ?= byte_val y with
      | Eq => lex_compare a' b'
      | c => c
      end
  end.

(** The C string held in a byte array: its bytes before the first NUL. *)
Fixpoint cstr (s : list byte) : list byte :=
  match s with
  | [] => []
  | c :: t => if byte_val c =? 0 then [] else c :: cstr t
  end.

(** The bytes of the comparison window of [rec]. *)
Definition window (rec : Record_) (off len : Z) : list byte :=
  take (Z.to_nat len) (drop (Z.to_nat off) (data rec)).

(** The length field of a record is the number of its bytes. *)
Definition well_formed (rec : Record_) : Prop :=
  length_ rec = Z.of_nat (length (data rec)).

(** ** The page chain of a heap file (over the reference collaborators) *)

Module Chain.

(** The next-page link of page [p] of [f], when [p] is a data page. *)
Definition next_link (w : gmap string RefEnv.RFile) (f : string) (p : Z) : option Z :=
  RefEnv.rp_next <$> RefEnv.data_at w (f, p).

(** The header of [f]: what page 0 holds, when it is a header page. *)
Definition hdr_at (w : gmap string RefEnv.RFile) (f : string) : option FileHdrPage :=
  match RefEnv.frame_at w (f, 0) with
  | Some (RefEnv.FHdr h) => Some h
  | _ => None
  end.

(** [chain w f p l]: in the file [f], following next-page links from the
    data page [p] visits exactly the pages [l], the last of which has the
    link -1. *)
Inductive chain (w : gmap string RefEnv.RFile) (f : string) : Z -> list Z -> Prop :=
| chain_end (p : Z) :
    next_link w f p = Some (-1) -> chain w f p [p]
| chain_step (p n : Z) (l : list Z) :
    next_link w f p = Some n -> n <> -1 ->
    chain w f n l -> chain w f p (p :: l).

(** The same walk as a function, at most [fuel] pages long. *)
Fixpoint walk (fuel : nat) (w : gmap string RefEnv.RFile) (f : string) (p : Z)
  : option (list Z) :=
  match fuel with
  | O => None
  | S k =>
      match next_link w f p with
      | Some n =>
          if n =? -1 then Some [p]
          else l ← walk k w f n; Some (p :: l)
      | None => None
      end
  end.

(** The header page of [f] describes the chain [l]: it starts at
    [firstPage], ends at [lastPage], and has [pageCnt] pages. *)
Definition header_chain (w : gmap string RefEnv.RFile) (f : string) (l : list Z) : Prop :=
  exists hdr : FileHdrPage,
    hdr_at w f = Some hdr /\
    chain w f (firstPage hdr) l /\
    last l = Some (lastPage hdr) /\
    pageCnt hdr = Z.of_nat (length l).

(** The handle's pointers are into [f]: its header pointer is page 0 and
    its current-page pointer is page [curPageNo]. *)
Definition handle_ok (ps dp : Z) (f : string) (h : HeapFile (RefEnv.make ps dp)) : Prop :=
  filePtr _ h = f /\
  headerPage _ h = Some (f, 0) /\
  curPage _ h = Some (f, curPageNo _ h).

(** A sequence of [insertRecord] calls on one handle, each returning [OK]. *)
Inductive inserts (E : Env) : list Record_ -> HeapFile E -> St E -> HeapFile E -> St E -> Prop :=
| inserts_nil (h : HeapFile E) (s : St E) : inserts E [] h s h s
| inserts_cons (rec : Record_) (recs : list Record_) (rid r : RID)
    (h h1 h2 : HeapFile E) (s s1 s2 : St E) :
    insertRecord E rec rid h s = Done (OK, r, h1) s1 ->
    inserts E recs h1 s1 h2 s2 ->
    inserts E (rec :: recs) h s h2 s2.

(** Pages small enough that a page holds one 1-byte record. *)
Definition E1 : Env := RefEnv.make 24 20.

Definition st1 : St E1 := mkSt (E := E1) (∅ : gmap string RefEnv.RFile) [].

Definition raw1 : HeapFile E1 :=
  mkHeapFile (E := E1) "" None 0 false None 0 false NULLRID.

(** The header and the chain (walked from [firstPage]) of "t1" after it is
    created and [recs] are inserted. *)
Fixpoint insert_each (recs : list Record_) (h : HeapFile E1)
  : M (St E1) (list Status * HeapFile E1) :=
  match recs with
  | [] => ret ([], h)
  | r :: recs' =>
      (let* (st, _, h) := insertRecord E1 r NULLRID h in
       let* (sts, h) := insert_each recs' h in
       ret (st :: sts, h))%heap
  end.

Definition run_inserts (recs : list Record_)
  : M (St E1) (list Status * FileHdrPage * option (list Z)) :=
  (createHeapFile E1 "t1" ;;
   let* (_, h) := InsertFileScan_ctor E1 raw1 "t1" in
   let* (sts, h) := insert_each recs h in
   let* hdr := load_hdr E1 (headerPage E1 h) in
   fun s => Done (sts, hdr, walk 10 (env s) "t1" (firstPage hdr)) s)%heap.

(** The file [createHeapFile] leaves: a header page 0 naming one empty
    data page, page 1, as first and last page. *)
Definition fresh_file (name : string) : RefEnv.RFile :=
  RefEnv.mkRFile [RefEnv.FHdr (mkHdr name 1 1 1 0);
                  RefEnv.FData (RefEnv.mkRPage 1 (-1) [])] 0.

(** "t1" created, opened by an [InsertFileScan], and three 1-byte records
    inserted, each on a page of its own. *)
Definition c1 : St E1 :=
  Eval vm_compute in
    match createHeapFile E1 "t1" st1 with
    | Done _ s => s
    | _ => st1
    end.

Definition c2 : HeapFile E1 * St E1 :=
  Eval vm_compute in
    match InsertFileScan_ctor E1 raw1 "t1" c1 with
    | Done (_, h) s => (h, s)
    | _ => (raw1, c1)
    end.

Definition after_insert (rec : Record_) (hs : HeapFile E1 * St E1) : HeapFile E1 * St E1 :=
  match insertRecord E1 rec NULLRID hs.1 hs.2 with
  | Done (_, _, h) s => (h, s)
  | _ => hs
  end.

Definition c3 : HeapFile E1 * St E1 := Eval vm_compute in after_insert Runs.recA c2.
Definition c4 : HeapFile E1 * St E1 := Eval vm_compute in after_insert Runs.recB c3.
Definition c5 : HeapFile E1 * St E1 := Eval vm_compute in after_insert Runs.recA c4.

(** Pages that hold two 1-byte records, and [pageCnt] read after the
    creation and after each of a sequence of inserts. *)
Definition E2 : Env := RefEnv.make 26 20.

Fixpoint pageCnt_trace (recs : list Record_) (h : HeapFile E2)
  : M (St E2) (list Z) :=
  match recs with
  | [] => ret []
  | r :: recs' =>
      (let* (_, _, h) := insertRecord E2 r NULLRID h in
       let* hdr := load_hdr E2 (headerPage E2 h) in
       let* rest := pageCnt_trace recs' h in
       ret (pageCnt hdr :: rest))%heap
  end.

Definition run_pageCnt (recs : list Record_) : M (St E2) (list Z) :=
  (createHeapFile E2 "t1" ;;
   let* (_, h) := InsertFileScan_ctor E2
                    (mkHeapFile (E := E2) "" None 0 false None 0 false NULLRID) "t1" in
   let* hdr := load_hdr E2 (headerPage E2 h) in
   let* rest := pageCnt_trace recs h in
   ret (pageCnt hdr :: rest))%heap.

End Chain.

(** ** Runs over the evicting pool *)

Module Evicted.

Import Chain.

(** Pages that hold one 1-byte record, under the pool that keeps dirty
    bits. *)
Definition E3 : Env := PoolEnv.make 24 20.

Definition st3 : St E3 := mkSt (E := E3) (PoolEnv.mkPool ∅ ∅ ∅) [].

Definition raw3 : HeapFile E3 :=
  mkHeapFile (E := E3) "" None 0 false None 0 false NULLRID.

(** "t1" is created; an [InsertFileScan] inserts "A" and is destroyed. *)
Definition first_handle : M (St E3) Status :=
  (createHeapFile E3 "t1" ;;
   let* (_, a) := InsertFileScan_ctor E3 raw3 "t1" in
   let* (st, _, a) := insertRecord E3 Runs.recA NULLRID a in
   InsertFileScan_dtor E3 a ;;
   ret st)%heap.

Definition e1 : Status * St E3 :=
  Eval vm_compute in
    match first_handle st3 with
    | Done st s => (st, s)
    | _ => (OK, st3)
    end.

(** A second [InsertFileScan] is opened on the file and inserts "B". *)
Definition e2 : HeapFile E3 * St E3 :=
  Eval vm_compute in
    match InsertFileScan_ctor E3 raw3 "t1" e1.2 with
    | Done (_, b) s => (b, s)
    | _ => (raw3, e1.2)
    end.

Definition e3 : Status * RID * HeapFile E3 * St E3 :=
  Eval vm_compute in
    match insertRecord E3 Runs.recB NULLRID e2.1 e2.2 with
    | Done (st, rid, b) s => (st, rid, b, s)
    | _ => (OK, NULLRID, e2.1, e2.2)
    end.

(** The second handle is destroyed. *)
Definition e4 : St E3 :=
  Eval vm_compute in
    match InsertFileScan_dtor E3 e3.1.2 e3.2 with
    | Done _ s => s
    | _ => e3.2
    end.

End Evicted.

(** ** Mark and reset (over the reference collaborators) *)

Module Mark.

(** Any number of [scanNext] calls, each returning [OK]. *)
Inductive scans (E : Env) : HeapFileScan E -> St E -> HeapFileScan E -> St E -> Prop :=
| scans_nil (this : HeapFileScan E) (s : St E) : scans E this s this s
| scans_cons (fuel : nat) (rid r : RID) (this this1 this2 : HeapFileScan E)
    (s s1 s2 : St E) :
    scanNext E fuel rid this s = Done (OK, r, this1) s1 ->
    scans E this1 s1 this2 s2 ->
    scans E this s this2 s2.

(** Where a scan stands and what it looks for: everything [scanNext] reads
    from the object apart from [curDirtyFlag]. *)
Definition Position (E : Env) : Type :=
  File E * option (Ptr E) * Z * RID * (Z * Z * Datatype * option (list byte) * Operator).

Definition position (E : Env) (this : HeapFileScan E) : Position E :=
  (filePtr E (base E this), curPage E (base E this), curPageNo E (base E this),
   curRec E (base E this),
   (s_offset E this, s_length E this, s_type E this, s_filter E this, s_op E this)).

(** The current-page pointer is the page [curPageNo] of the scan's file,
    and that page exists. *)
Definition scan_ok (ps dp : Z) (this : HeapFileScan (RefEnv.make ps dp))
    (w : gmap string RefEnv.RFile) : Prop :=
  curPage _ (base _ this) = Some (filePtr _ (base _ this), curPageNo _ (base _ this)) /\
  is_Some (RefEnv.frame_at w (filePtr _ (base _ this), curPageNo _ (base _ this))).

(** What a caller sees of a [scanNext]: the status, the RID, where the scan
    stands afterwards, and the files and pages; not the calls made nor
    [curDirtyFlag]. *)
Definition outcome (E : Env) (r : Res (St E) (Status * RID * HeapFileScan E))
  : Res (W E) (Status * RID * Position E) :=
  match r with
  | Done (st, rid, this) s => Done (st, rid, position E this) (env s)
  | Fault => Fault
  | OutOfFuel => OutOfFuel
  end.

End Mark.

(** ** Pages changed since they were pinned *)

Module Touched.

(** The operations of an open handle that can be followed by others: those
    of a [HeapFileScan] ([OnScan]) and those of an [InsertFileScan]
    ([OnInsert]); [HeapFile::getRecord] is inherited by both.  Each carries
    its arguments, among them the caller's variable that is passed in and
    out.  An [InsertFileScan] is run as the inherited part of the handle. *)
Inductive Op : Type :=
| OGetRecord (rid : RID) (rec : Record_)
| OStartScan (offset_ length_ : Z) (type_ : Datatype) (filter_ : option (list byte))
             (op_ : Operator)
| OScanNext (fuel : nat) (outRid : RID)
| OMarkScan
| OResetScan
| OScanGetRecord
| ODeleteRecord
| OMarkDirty
| OInsertRecord (rec : Record_) (outRid : RID).





Definition run_op (E : Env) (op : Op) (this : HeapFileScan E)
  : M (St E) (Status * HeapFileScan E) :=
  match op with
  | OGetRecord rid rec =>
      (let* (st, _, b) := HeapFile_getRecord E rid rec (base E this) in
       ret (st, set_base E b this))%heap
  | OStartScan o l t f p => ret (startScan E o l t f p this)
  | OScanNext fuel outRid =>
      (let* (st, _, this) := scanNext E fuel outRid this in ret (st, this))%heap
  | OMarkScan => ret (markScan E this)
  | OResetScan => resetScan E this
  | OScanGetRecord =>
      (let* (st, _) := HeapFileScan_getRecord E this in ret (st, this))%heap
  | ODeleteRecord => deleteRecord E this
  | OMarkDirty => ret (markDirty E this)
  | OInsertRecord rec outRid =>
      (let* (st, _, b) := insertRecord E rec outRid (base E this) in
       ret (st, set_base E b this))%heap
  end.




End Touched.

(** ** Two handles followed through their operations *)

Module Trace.

Import Chain Touched.

Definition after_op (op : Op) (hs : HeapFileScan E1 * St E1) : HeapFileScan E1 * St E1 :=
  match run_op E1 op hs.1 hs.2 with
  | Done (_, h) s => (h, s)
  | _ => hs
  end.

Definition as_scan (b : HeapFile E1) : HeapFileScan E1 :=
  mkScan b 0 0 (DatatypeOther 0) None (OperatorOther 0) 0 NULLRID.

Definition get_1 : Op := OGetRecord (mkRID 1 0) (mkRecord [] 0).
Definition get_2 : Op := OGetRecord (mkRID 2 0) (mkRecord [] 0).
Definition next_ : Op := OScanNext 4 NULLRID.


(** A [HeapFileScan] opened on the three-page file fetches the record of
    page 1, deletes it, fetches the record of page 2, moves on to page 3 by
    [scanNext], marks that page dirty, marks the scan, fetches the record
    of page 2 again and resets the scan, which takes it back to page 3. *)
Definition k0 : HeapFileScan E1 * St E1 :=
  Eval vm_compute in
    match HeapFileScan_ctor E1 (as_scan raw1) "t1" c5.2 with
    | Done (_, h) s => (h, s)
    | _ => (as_scan raw1, c5.2)
    end.

Definition k1 : HeapFileScan E1 * St E1 := Eval vm_compute in after_op get_1 k0.
Definition k2 : HeapFileScan E1 * St E1 := Eval vm_compute in after_op ODeleteRecord k1.
Definition k3 : HeapFileScan E1 * St E1 := Eval vm_compute in after_op get_2 k2.

End Trace.

(** ** Call logs *)

Module Log.

(** The calls a run made: what the log of [s'] holds beyond that of [s]. *)
Definition made {E : Env} (s s' : St E) (l : list (Call (File E) * Status)) : Prop :=
  calls s' = (calls s ++ l)%list.

(** The last call of [l] returned [st] and every call before it [OK]. *)
Definition stops_with {F : Type} (l : list (Call F * Status)) (st : Status) : Prop :=
  last (l.*2) = Some st /\ Forall (fun x => x = OK) (removelast (l.*2)).

End Log.

Module Pins.

(** Calls that pin or unpin a page. *)
Definition is_pin_traffic {F : Type} (c : Call F) : bool :=
  match c with
  | ReadPage _ _ | UnPinPage _ _ _ => true
  | _ => false
  end.

(** Calls to the buffer manager. *)
Definition is_buffer_call {F : Type} (c : Call F) : bool :=
  match c with
  | ReadPage _ _ | UnPinPage _ _ _ | AllocPage _ => true
  | _ => false
  end.

(** Whether [m] is the page [n], as a count. *)
Definition here (n m : Z) : Z := if bool_decide (m = n) then 1 else 0.

(** Pins of page [n] taken ([readPage]) less pins given back ([unPinPage])
    by the calls [l]. *)
Fixpoint pinned {F : Type} (n : Z) (l : list (Call F)) : Z :=
  match l with
  | [] => 0
  | ReadPage _ m :: l' => here n m + pinned n l'
  | UnPinPage _ m _ :: l' => pinned n l' - here n m
  | _ :: l' => pinned n l'
  end.

End Pins.

(** ** Files of the reference collaborators as the heap layer keeps them *)

Module Sound.

(** Every data page of [f] carries its own page number. *)
Definition numbered (w : gmap string RefEnv.RFile) (f : string) : Prop :=
  forall n d, RefEnv.data_at w (f, n) = Some d -> RefEnv.rp_no d = n.

(** Page 0 of [f] is the header [h], and the data pages are numbered. *)
Definition heap_ok (w : gmap string RefEnv.RFile) (f : string) (h : FileHdrPage) : Prop :=
  Chain.hdr_at w f = Some h /\ numbered w f.

(** Every record of [f] that can be fetched in [w] can be fetched in [w1],
    under the same RID and with the same bytes. *)
Definition keeps_records (w w1 : gmap string RefEnv.RFile) (f : string) : Prop :=
  forall p rid x,
    RefEnv.getRecord (f, p) rid w = (OK, x) -> RefEnv.getRecord (f, p) rid w1 = (OK, x).

(** What [Page::insertRecord] stores of [rec], read back as a record. *)
Definition stored (rec : Record_) : Record_ :=
  mkRecord (take (Z.to_nat (length_ rec)) (data rec))
           (Z.of_nat (length (take (Z.to_nat (length_ rec)) (data rec)))).

End Sound.

(** ** Further concrete runs *)

Module Runs2.

Import Runs Chain.

(** Collaborators that answer every call with [OK], except that the page
    refuses every record with a status of its own. *)
Definition E_refuse : Env :=
  let E := ScriptEnv.make (fun _ => OK) in
  {|
    W := W E; File := File E; Ptr := Ptr E;
    PAGESIZE := PAGESIZE E; DPFIXED := DPFIXED E;
    db_createFile := db_createFile E;
    db_openFile := db_openFile E;
    db_closeFile := db_closeFile E;
    db_destroyFile := db_destroyFile E;
    file_getFirstPage := file_getFirstPage E;
    buf_allocPage := buf_allocPage E;
    buf_readPage := buf_readPage E;
    buf_unPinPage := buf_unPinPage E;
    pg_init := pg_init E;
    pg_getNextPage := pg_getNextPage E;
    pg_setNextPage := pg_setNextPage E;
    pg_firstRecord := pg_firstRecord E;
    pg_nextRecord := pg_nextRecord E;
    pg_getRecord := pg_getRecord E;
    pg_insertRecord := fun _ _ n => (OTHER 9, NULLRID, n);
    pg_deleteRecord := pg_deleteRecord E;
    hdr_load := hdr_load E;
    hdr_store := hdr_store E
  |}.

(** A handle of [E_refuse] on page 1, which its header names as the last. *)
Definition h_refuse : HeapFile E_refuse :=
  mkHeapFile (E := E_refuse) 1 (Some 0) 0 false (Some 1) 1 false NULLRID.

Definition s_refuse : St E_refuse := mkSt (E := E_refuse) 0%nat [].

(** The state after "t1" was created and opened on [E0]. *)
Definition s_t1_open : St E0 :=
  Eval vm_compute in
    match HeapFile_ctor E0 raw "t1" s_t1 with
    | Done _ s => s
    | _ => st0
    end.

(** The state after "t1" was created and destroyed on [E0]. *)
Definition s_t1_gone : St E0 :=
  Eval vm_compute in
    match destroyHeapFile E0 "t1" s_t1 with
    | Done _ s => s
    | _ => st0
    end.

(** A handle standing on the record "A" of [s_one]. *)
Definition h_one : HeapFile E0 :=
  mkHeapFile (E := E0) "t1" (Some ("t1", 0)) 0 false (Some ("t1", 1)) 1 false (mkRID 1 0).

(** What [scanNext] leaves when it runs off the end of [s_one]. *)
Definition off_one : HeapFileScan E0 * St E0 :=
  Eval vm_compute in
    match scanNext E0 1 NULLRID scan_one s_one with
    | Done (_, _, t) s => (t, s)
    | _ => (scan_one, s_one)
    end.

(** Three pages with one record each ([c5]); a scan without filter that
    stands on the record of page 1, and what one [scanNext] after
    [markScan] leaves: the scan has crossed to page 2. *)
Definition scan_c5 : HeapFileScan E1 :=
  mkScan (mkHeapFile (E := E1) "t1" (Some ("t1", 0)) 0 false (Some ("t1", 1)) 1 false
                     (mkRID 1 0))
         0 0 (DatatypeOther 0) None (OperatorOther 0) 0 NULLRID.

Definition next_c5 : RID * HeapFileScan E1 * St E1 :=
  Eval vm_compute in
    match scanNext E1 4 NULLRID (markScan E1 scan_c5).2 c5.2 with
    | Done (_, r, t) s => (r, t, s)
    | _ => (NULLRID, scan_c5, c5.2)
    end.

(** Collaborators that answer every call with [OK]; a scan opened there,
    moved twice by [scanNext] (the second time across a page boundary), and
    destroyed. *)
Definition E_ok : Env := ScriptEnv.make (fun _ => OK).

Definition raw_ok : HeapFileScan E_ok :=
  mkScan (mkHeapFile (E := E_ok) 0 None 0 false None 0 false NULLRID)
         0 0 (DatatypeOther 0) None (OperatorOther 0) 0 NULLRID.

Definition s_ok : St E_ok := mkSt (E := E_ok) 0%nat [].

Definition k0 : HeapFileScan E_ok * St E_ok :=
  Eval vm_compute in
    match HeapFileScan_ctor E_ok raw_ok "t1" s_ok with
    | Done (_, t) s => (t, s)
    | _ => (raw_ok, s_ok)
    end.

Definition after_scanNext (ts : HeapFileScan E_ok * St E_ok) : HeapFileScan E_ok * St E_ok :=
  match scanNext E_ok 2 NULLRID ts.1 ts.2 with
  | Done (_, _, t) s => (t, s)
  | _ => ts
  end.

Definition k1 : HeapFileScan E_ok * St E_ok := Eval vm_compute in after_scanNext k0.
Definition k2 : HeapFileScan E_ok * St E_ok := Eval vm_compute in after_scanNext k1.

Definition k3 : HeapFileScan E_ok * St E_ok :=
  Eval vm_compute in
    match HeapFileScan_dtor E_ok k2.1 k2.2 with
    | Done t s => (t, s)
    | _ => k2
    end.

(** [getRecord] of record (1, 0) through the handle that has just inserted
    the third record and stands on page 3. *)
Definition get_c5 : Status * Record_ * HeapFile E1 * St E1 :=
  Eval vm_compute in
    match HeapFile_getRecord E1 (mkRID 1 0) (mkRecord [] 0) c5.1 c5.2 with
    | Done (st, r, h) s => (st, r, h, s)
    | _ => (OK, mkRecord [] 0, c5.1, c5.2)
    end.

(** An integer key, a float and a string in bytes 1.. of a record, each
    with a record that differs from it before and after the attribute. *)
Definition scan_key : HeapFileScan E0 :=
  set_params E0 1 4 INTEGER (Some [x05; x00; x00; x00]) GTE raw_scan.
Definition rec_key : Record_ := mkRecord ["p"%byte; x07; x00; x00; x00; "x"%byte] 6.
Definition rec_key' : Record_ := mkRecord ["q"%byte; x07; x00; x00; x00; "y"%byte] 6.

Definition scan_flt : HeapFileScan E0 :=
  set_params E0 1 4 FLOAT (Some [x00; x00; x80; x3f]) LT raw_scan.
Definition rec_flt : Record_ := mkRecord ["p"%byte; x00; x00; x00; x3f; "x"%byte] 6.
Definition rec_flt' : Record_ := mkRecord ["q"%byte; x00; x00; x00; x3f; "y"%byte] 6.

Definition scan_str : HeapFileScan E0 :=
  set_params E0 1 2 STRING (Some ["a"%byte; "b"%byte]) EQ raw_scan.
Definition rec_str : Record_ := mkRecord ["p"%byte; "a"%byte; "b"%byte; "c"%byte] 4.
Definition rec_str' : Record_ := mkRecord ["q"%byte; "a"%byte; "b"%byte; "d"%byte] 4.

End Runs2.

(** * Verification *)

Import Runs.

Local Open Scope list_scope.

(** ** Stepping through monadic code *)

Lemma failed_OK : failed OK = false.
Proof. reflexivity. Qed.

Lemma failed_true (st : Status) : st <> OK -> failed st = true.
Proof. intros H. unfold failed. apply bool_decide_eq_true_2. exact H. Qed.

Lemma failed_false (st : Status) : failed st = false -> st = OK.
Proof.
  unfold failed. intros H. apply bool_decide_eq_false_1 in H.
  destruct (decide (st = OK)) as [Heq | Hne]; [exact Heq | contradiction].
Qed.

Lemma failed_spec (st : Status) : failed st = true <-> st <> OK.
Proof. unfold failed. apply bool_decide_eq_true. Qed.

(** Case analysis on every call result and test a run [H] went through. *)
Ltac split_run H :=
  repeat match type of H with
         | context [match ?x with _ => _ end] =>
             lazymatch x with
             | context [match _ with _ => _ end] => fail
             | _ => idtac
             end;
             let Hc := fresh "Hc" in destruct x eqn:Hc; simpl in H; try discriminate
         end.

(** ** createHeapFile *)

(** When the first [openFile] succeeds, [createHeapFile] answers
    [FILEEXISTS] having made that one call and no other: the state it
    leaves is the state [openFile] left. *)
Lemma createHeapFile_exists (E : Env) (name : string) (s : St E) (f : File E) (w : W E) :
  db_openFile E name (env s) = (OK, f, w) ->
  createHeapFile E name s
  = Done FILEEXISTS (mkSt w (calls s ++ [(OpenFile name, OK)])%list).
Proof.
  intros H. unfold createHeapFile, bind, openFile. rewrite H. reflexivity.
Qed.

(** On the creation path the status of the second [allocPage] plays no
    part: with collaborators whose [unPinPage] and [closeFile] succeed,
    [createHeapFile] returns [OK] whatever that status is. *)
Lemma createHeapFile_second_allocPage_status (E : Env) (name : string) (s : St E)
    (st0 st2 : Status) (f0 f : File E) (n1 n2 : Z) (p1 p2 : Ptr E)
    (w0 w1 w2 w3 w4 : W E) :
  (forall f n d w, (buf_unPinPage E f n d w).1 = OK) ->
  (forall f w, (db_closeFile E f w).1 = OK) ->
  st0 <> OK ->
  db_openFile E name (env s) = (st0, f0, w0) ->
  db_createFile E name w0 = (OK, w1) ->
  db_openFile E name w1 = (OK, f, w2) ->
  buf_allocPage E f w2 = (OK, n1, Some p1, w3) ->
  buf_allocPage E f w3 = (st2, n2, Some p2, w4) ->
  exists s', createHeapFile E name s = Done OK s'.
Proof.
  intros Hunpin Hclose Hst0 Ho1 Hc Ho2 Ha1 Ha2.
  unfold createHeapFile, bind, openFile, createFile, allocPage, unPinPage, closeFile,
    page_init, modify_hdr, deref, ret, logged, bind, deref.
  repeat first [ rewrite Ho1 | rewrite (failed_true st0 Hst0) | rewrite Hc | rewrite Ho2
               | rewrite Ha1 | rewrite Ha2 | progress simpl ].
  repeat match goal with
         | |- context [buf_unPinPage E ?a ?b ?c ?d] =>
             let H := fresh "Hu" in
             pose proof (Hunpin a b c d) as H;
             destruct (buf_unPinPage E a b c d) as [? ?]; simpl in H; subst; simpl
         end.
  match goal with
  | |- context [db_closeFile E ?a ?b] =>
      pose proof (Hclose a b) as Hcl;
      destruct (db_closeFile E a b) as [? ?]; simpl in Hcl; subst; simpl
  end.
  eexists. reflexivity.
Qed.

(** C2: evaluation at the failing input.  The file does not exist and the
    second [allocPage] returns the non-OK status [OTHER 7]; [createHeapFile]
    goes on to initialise the page, unpin twice and close, and returns
    [OK]. *)
Theorem createHeapFile_second_allocPage_unchecked :
  createHeapFile E_alloc2 "t1" (mkSt (E := E_alloc2) 0%nat [])
  = Done OK (mkSt (E := E_alloc2) 8%nat
      [(OpenFile "t1", OTHER 2); (CreateFile "t1", OK); (OpenFile "t1", OK);
       (AllocPage 1, OK); (AllocPage 1, OTHER 7);
       (UnPinPage 1 3 true, OK); (UnPinPage 1 4 true, OK); (CloseFile 1, OK)]).
Proof. vm_compute. reflexivity. Qed.

(** C8: evaluation at the failing input.  "t1" is created and created
    again.  The second call returns [FILEEXISTS] after one successful
    [openFile] and no [closeFile]: the pages of "t1" are as before, but its
    open count went from 0 to 1, and a following [destroyHeapFile] is
    refused because the file is open. *)
Theorem createHeapFile_existing_leaves_file_open :
  createHeapFile E0 "t1" st0 = Done OK s_t1 /\
  createHeapFile E0 "t1" s_t1 = Done FILEEXISTS s_t1_twice /\
  calls s_t1_twice = calls s_t1 ++ [(OpenFile "t1", OK)] /\
  RefEnv.rf_pages <$> (env s_t1_twice !! "t1") = RefEnv.rf_pages <$> (env s_t1 !! "t1") /\
  RefEnv.rf_open <$> (env s_t1 !! "t1") = Some 0%nat /\
  RefEnv.rf_open <$> (env s_t1_twice !! "t1") = Some 1%nat /\
  value_of (destroyHeapFile E0 "t1" s_t1) = Some OK /\
  value_of (destroyHeapFile E0 "t1" s_t1_twice) = Some RefEnv.FILEOPEN.
Proof. repeat split; reflexivity. Qed.

(** ** scanNext *)

(** C1: evaluation at the failing input.  "t1" holds the records "A" and
    "B" on page 1; the scan has the filter [attr == "A"] and stands on
    "A" at (1,0).  [scanNext] obtains the tentative RID (1,1), returns [OK]
    with that RID in [outRid] and in [curRec], yet the record at (1,1) does
    not satisfy the predicate: the record tested was the one at the old
    [curRec]. *)
Theorem scanNext_tests_record_at_old_curRec :
  value_of (run_scanNext st0)
  = Some (OK, mkRID 1 1, mkRID 1 1, Some false).
Proof. vm_compute. reflexivity. Qed.

(** The same defect on a fresh scan: the first record is found, but the
    record fetched is the one at [NULLRID]. *)
Lemma scanNext_fresh_scan_fetches_NULLRID :
  value_of (run_fresh_scan st0) = Some (RefEnv.INVALIDSLOTNO, NULLRID).
Proof. vm_compute. reflexivity. Qed.

(** C6: evaluation at the failing input.  "t1" holds "A", "B", "A"; the
    filter is [attr == "A"]; the scan is marked on (1,0).  After one
    [scanNext] and [resetScan], [scanNext] returns (1,1), whose record "B"
    does not match; the first matching record after the mark is (1,2). *)
Theorem scanNext_after_reset_not_first_match :
  value_of (run_mark_reset st0)
  = Some (OK, mkRID 1 1, mkRID 1 1, Some false).
Proof. vm_compute. reflexivity. Qed.

(** ** startScan *)

Lemma to_size_t_small (z : Z) : 0 <= z -> is_int z -> to_size_t z = z.
Proof.
  unfold is_int, INT_MAX, to_size_t. intros H0 [_ H1].
  apply Z.mod_small. lia.
Qed.

(** C9: with a null filter pointer [startScan] clears the filter and
    returns [OK] whatever the other arguments are; with a filter and an
    invalid offset, length, type, numeric width or operator it returns
    [BADSCANPARM] and the scan object is unchanged. *)
Theorem startScan_validation (E : Env) (offset_ length_ : Z) (type_ : Datatype)
    (op_ : Operator) (this : HeapFileScan E) :
  is_int length_ ->
  startScan E offset_ length_ type_ None op_ this = (OK, set_filter E None this) /\
  (forall fltr : list byte,
      bad_scan_params offset_ length_ type_ op_ ->
      startScan E offset_ length_ type_ (Some fltr) op_ this = (BADSCANPARM, this)).
Proof.
  intros Hint. split; [reflexivity |].
  intros fltr Hbad. unfold startScan.
  destruct (offset_ <? 0) eqn:Hoff; [reflexivity |].
  destruct (length_ <? 1) eqn:Hlen; [reflexivity |].
  apply Z.ltb_ge in Hoff, Hlen.
  assert (Hsz : to_size_t length_ = length_) by (apply to_size_t_small; [lia | exact Hint]).
  rewrite Hsz.
  unfold bad_scan_params, sizeof_int, sizeof_float in *.
  destruct Hbad as [H | [H | [H | [H | [H | H]]]]]; try lia.
  - destruct H as (H1 & H2 & H3).
    rewrite !(bool_decide_eq_true_2 _ H1), !(bool_decide_eq_true_2 _ H2),
      !(bool_decide_eq_true_2 _ H3).
    reflexivity.
  - destruct H as (-> & H2).
    rewrite !(bool_decide_eq_true_2 _ H2). reflexivity.
  - destruct H as (-> & H2).
    rewrite !(bool_decide_eq_true_2 _ H2). reflexivity.
  - destruct H as (H1 & H2 & H3 & H4 & H5 & H6).
    rewrite (bool_decide_eq_true_2 _ H1), (bool_decide_eq_true_2 _ H2),
      (bool_decide_eq_true_2 _ H3), (bool_decide_eq_true_2 _ H4),
      (bool_decide_eq_true_2 _ H5), (bool_decide_eq_true_2 _ H6).
    simpl. rewrite !orb_true_r. reflexivity.
Qed.

Lemma startScan_validation_witness :
  is_int 0 /\
  startScan E0 0 0 INTEGER None EQ raw_scan = (OK, set_filter E0 None raw_scan) /\
  bad_scan_params 0 0 INTEGER EQ /\
  startScan E0 0 0 INTEGER (Some ["A"%byte]) EQ raw_scan = (BADSCANPARM, raw_scan).
Proof.
  assert (Hi : is_int 0) by (unfold is_int, INT_MIN, INT_MAX; lia).
  assert (Hb : bad_scan_params 0 0 INTEGER EQ) by (right; left; lia).
  destruct (startScan_validation E0 0 0 INTEGER EQ raw_scan Hi) as [H1 H2].
  split; [exact Hi |].
  split; [exact H1 |].
  split; [exact Hb |].
  exact (H2 ["A"%byte] Hb).
Defined.

(** ** insertRecord: the length check *)

Lemma wrap_unsigned_small (z : Z) : 0 <= z < 2 ^ 32 -> wrap_unsigned z = z.
Proof. intros H. unfold wrap_unsigned. apply Z.mod_small. exact H. Qed.

Lemma wrap_unsigned_neg (z : Z) : - 2 ^ 31 <= z < 0 -> wrap_unsigned z = z + 2 ^ 32.
Proof.
  intros H. unfold wrap_unsigned.
  symmetry. apply (Z.mod_unique_pos z (2 ^ 32) (-1) (z + 2 ^ 32)); lia.
Qed.

(** The guard of [insertRecord], in terms of the signed length. *)
Lemma length_guard (E : Env) (rec : Record_) :
  0 <= PAGESIZE E - DPFIXED E <= INT_MAX ->
  is_int (length_ rec) ->
  (wrap_unsigned (length_ rec) >? wrap_unsigned (PAGESIZE E - DPFIXED E)) = true
  <-> (length_ rec < 0 \/ length_ rec > PAGESIZE E - DPFIXED E).
Proof.
  unfold is_int, INT_MIN, INT_MAX. intros HP Hl.
  rewrite (wrap_unsigned_small (PAGESIZE E - DPFIXED E)) by lia.
  rewrite Z.gtb_gt.
  destruct (Z.lt_ge_cases (length_ rec) 0) as [Hneg | Hpos].
  - rewrite wrap_unsigned_neg by lia. lia.
  - rewrite wrap_unsigned_small by lia. lia.
Qed.

(** C7, as stated, fails: a record whose length field is -1 does not
    exceed [PAGESIZE - DPFIXED] = 1004, and is rejected with
    [INVALIDRECLEN]. *)
Lemma insertRecord_negative_length_rejected :
  ~ (-1 > PAGESIZE E0 - DPFIXED E0) /\
  insertRecord E0 (mkRecord [] (-1)) NULLRID raw st0
  = Done (INVALIDRECLEN, NULLRID, raw) st0.
Proof. split; [vm_compute; discriminate | reflexivity]. Qed.

(** C7, amended: [insertRecord] returns [INVALIDRECLEN] exactly when the
    length, read as an unsigned int, exceeds [PAGESIZE - DPFIXED], that is
    when it is negative or greater than [PAGESIZE - DPFIXED]; it then
    returns before any call is made and with the collaborators' state, the
    object and [outRid] untouched.  A record of any other length, one of
    length exactly [PAGESIZE - DPFIXED] included, is never answered
    [INVALIDRECLEN] (as long as no callee produces that status itself). *)
Theorem insertRecord_length_check (E : Env) (rec : Record_) (outRid : RID)
    (this : HeapFile E) (s : St E) :
  0 <= PAGESIZE E - DPFIXED E <= INT_MAX ->
  is_int (length_ rec) ->
  insert_callees_never E INVALIDRECLEN ->
  (length_ rec < 0 \/ length_ rec > PAGESIZE E - DPFIXED E ->
   insertRecord E rec outRid this s = Done (INVALIDRECLEN, outRid, this) s) /\
  (0 <= length_ rec <= PAGESIZE E - DPFIXED E ->
   forall r this' s',
     insertRecord E rec outRid this s <> Done (INVALIDRECLEN, r, this') s').
Proof.
  intros HP Hl (Hunpin & Hread & Halloc & Hins).
  pose proof (length_guard E rec HP Hl) as Hg.
  split.
  - intros Hbig. unfold insertRecord. apply Hg in Hbig. rewrite Hbig. reflexivity.
  - intros Hfit r this' s' Hrun.
    unfold insertRecord in Hrun.
    destruct (bool_dec (wrap_unsigned (length_ rec) >? wrap_unsigned (PAGESIZE E - DPFIXED E))
                true) as [Hgd | Hgd].
    { apply Hg in Hgd. lia. }
    apply not_true_is_false in Hgd. rewrite Hgd in Hrun.
    unfold bind, load_hdr, modify_hdr, deref, ret, unPinPage, readPage, allocPage,
      page_insertRecord, page_init, page_setNextPage, bind, deref in Hrun.
    split_run Hrun;
      try (injection Hrun as Hst _ _ _; subst);
      repeat match goal with
             | H : failed _ = true |- _ => clear H
             | H : buf_unPinPage E ?f ?n ?d ?w = _ |- _ =>
                 pose proof (Hunpin f n d w); rewrite H in *; clear H
             | H : buf_readPage E ?f ?n ?w = _ |- _ =>
                 pose proof (Hread f n w); rewrite H in *; clear H
             | H : buf_allocPage E ?f ?w = _ |- _ =>
                 pose proof (Halloc f w); rewrite H in *; clear H
             | H : pg_insertRecord E ?p ?r ?w = _ |- _ =>
                 pose proof (Hins p r w); rewrite H in *; clear H
             end;
      simpl in *; try congruence.
Qed.

(** The reference collaborators never answer [INVALIDRECLEN]. *)
Lemma RefEnv_insert_callees (pagesize dpfixed : Z) :
  insert_callees_never (RefEnv.make pagesize dpfixed) INVALIDRECLEN.
Proof.
  repeat split; simpl; intros.
  - unfold RefEnv.unPinPage. destruct (RefEnv.frame_at _ _); simpl; discriminate.
  - unfold RefEnv.readPage. destruct (RefEnv.frame_at _ _); simpl; discriminate.
  - unfold RefEnv.allocPage. destruct (_ !! _); simpl; discriminate.
  - unfold RefEnv.insertRecord. destruct (RefEnv.data_at _ _); simpl; [| discriminate].
    destruct (_ && _); simpl; discriminate.
Qed.

Lemma insertRecord_length_check_witness :
  insertRecord E0 (mkRecord [] 1005) NULLRID raw st0
  = Done (INVALIDRECLEN, NULLRID, raw) st0 /\
  (forall r this' s',
      insertRecord E0 (mkRecord [] 1004) NULLRID raw st0
      <> Done (INVALIDRECLEN, r, this') s').
Proof.
  assert (HP : 0 <= PAGESIZE E0 - DPFIXED E0 <= INT_MAX) by (vm_compute; split; discriminate).
  assert (Hbig : is_int (length_ (mkRecord [] 1005))) by (vm_compute; split; discriminate).
  assert (Hfit : is_int (length_ (mkRecord [] 1004))) by (vm_compute; split; discriminate).
  split.
  - apply (insertRecord_length_check E0 (mkRecord [] 1005) NULLRID raw st0 HP Hbig
             (RefEnv_insert_callees 1024 20)).
    right. vm_compute. reflexivity.
  - apply (insertRecord_length_check E0 (mkRecord [] 1004) NULLRID raw st0 HP Hfit
             (RefEnv_insert_callees 1024 20)).
    vm_compute. split; discriminate.
Defined.

(** ** Dirty flags passed to unPinPage *)


(** *** What each operation unpins *)

Import Touched.












(** ** scanNext at the end of the page chain *)

(** C10: when [nextRecord] reports [ENDOFPAGE] on a page whose next-page
    link is -1, [scanNext] unpins the page, asks the buffer manager for
    page -1 and returns the (non-OK) status of that read unchanged.  And
    whenever [scanNext] returns [FILEEOF], [firstRecord] has failed on the
    page that is then current: there is no test of the link against -1. *)
Theorem scanNext_end_of_chain (E : Env) :
  scan_callees_never E FILEEOF ->
  (forall fuel outRid (this : HeapFileScan E) (s : St E) p junk w1 st p' w2,
      curPage E (base E this) = Some p ->
      ~ (pageNo (curRec E (base E this)) = -1 /\ slotNo (curRec E (base E this)) = -1) ->
      pg_nextRecord E p (curRec E (base E this)) (env s) = (ENDOFPAGE, junk) ->
      buf_unPinPage E (filePtr E (base E this)) (curPageNo E (base E this))
        (curDirtyFlag E (base E this)) (env s) = (OK, w1) ->
      pg_getNextPage E p w1 = -1 ->
      buf_readPage E (filePtr E (base E this)) (-1) w1 = (st, p', w2) ->
      st <> OK ->
      scanNext E (S fuel) outRid this s
      = Done (st, outRid, upd E (set_curPage E p') (upd E (set_curPageNo E (-1)) this))
          (mkSt w2 (calls s ++
             [(UnPinPage (filePtr E (base E this)) (curPageNo E (base E this))
                         (curDirtyFlag E (base E this)), OK);
              (ReadPage (filePtr E (base E this)) (-1), st)]))) /\
  (forall fuel outRid (this this' : HeapFileScan E) (s s' : St E) r,
      scanNext E fuel outRid this s = Done (FILEEOF, r, this') s' ->
      exists p, curPage E (base E this') = Some p /\
                (pg_firstRecord E p (env s')).1 <> OK).
Proof.
  intros (Hunpin & Hread & Hget). split.
  - intros fuel outRid this s p junk w1 st p' w2 Hp Hcur Hnext Hun Hlink Hrd Hst.
    simpl. unfold scanNext_body.
    replace (bool_decide (pageNo (curRec E (base E this)) = -1)
             && bool_decide (slotNo (curRec E (base E this)) = -1)) with false.
    2: { symmetry. apply andb_false_iff.
         destruct (decide (pageNo (curRec E (base E this)) = -1)) as [H1 | H1];
           [| left; apply bool_decide_eq_false_2; exact H1].
         right. apply bool_decide_eq_false_2. intros H2. apply Hcur. split; assumption. }
    unfold bind, page_nextRecord, page_getNextPage, unPinPage, readPage, deref, ret, logged.
    repeat first [ rewrite Hp | rewrite Hnext | rewrite Hun | rewrite Hlink | rewrite Hrd
                 | rewrite (failed_true st Hst) | progress simpl ].
    rewrite <- app_assoc. reflexivity.
  - induction fuel as [| fuel IH]; intros outRid this this' s s' r Hrun.
    + discriminate Hrun.
    + simpl in Hrun. unfold scanNext_body in Hrun.
      unfold bind, page_firstRecord, page_nextRecord, page_getNextPage,
        HeapFileScan_getRecord, page_getRecord, unPinPage, readPage, lift_opt,
        deref, ret, bind, deref in Hrun.
      split_run Hrun;
        try (apply IH in Hrun; exact Hrun);
        try (injection Hrun; intros; subst);
        repeat match goal with
               | H : failed _ = false |- _ => apply failed_false in H
               | H : failed _ = true |- _ => apply failed_spec in H
               end;
        try match goal with
            | H : pg_firstRecord E ?p ?w = (?st, _), Hf : ?st <> OK |- _ =>
                exists p; simpl; rewrite H; split; [first [assumption | reflexivity] | exact Hf]
            end;
        try match goal with
            | H : buf_unPinPage E ?f ?n ?d ?w = (FILEEOF, _) |- _ =>
                exfalso; apply (Hunpin f n d w); rewrite H; reflexivity
            | H : buf_readPage E ?f ?n ?w = (FILEEOF, _, _) |- _ =>
                exfalso; apply (Hread f n w); rewrite H; reflexivity
            | H : pg_getRecord E ?p ?r ?w = (FILEEOF, _) |- _ =>
                exfalso; apply (Hget p r w); rewrite H; reflexivity
            end.
Qed.

(** The reference collaborators never answer [FILEEOF]. *)
Lemma RefEnv_scan_callees (pagesize dpfixed : Z) :
  scan_callees_never (RefEnv.make pagesize dpfixed) FILEEOF.
Proof.
  repeat split; simpl; intros.
  - unfold RefEnv.unPinPage. destruct (RefEnv.frame_at _ _); simpl; discriminate.
  - unfold RefEnv.readPage. destruct (RefEnv.frame_at _ _); simpl; discriminate.
  - unfold RefEnv.getRecord. destruct (RefEnv.data_at _ _); simpl; [| discriminate].
    destruct (_ <? _); simpl; [discriminate |].
    destruct (_ !! _) as [[bs |] |]; simpl; discriminate.
Qed.

Lemma scanNext_end_of_chain_witness :
  scanNext E0 1 NULLRID scan_one s_one
  = Done (RefEnv.BADPAGENO, NULLRID,
          upd E0 (set_curPage E0 None) (upd E0 (set_curPageNo E0 (-1)) scan_one))
      (mkSt (E := E0) (env s_one) (calls s_one ++
         [(UnPinPage "t1" 1 false, OK); (ReadPage "t1" (-1), RefEnv.BADPAGENO)])) /\
  (exists p, curPage E0 (base E0 scan_t1) = Some p /\
             (pg_firstRecord E0 p (env s_t1)).1 <> OK).
Proof.
  destruct (scanNext_end_of_chain E0 (RefEnv_scan_callees 1024 20)) as [Ha Hb].
  split.
  - apply (Ha 0%nat NULLRID scan_one s_one ("t1", 1) NULLRID (env s_one)
              RefEnv.BADPAGENO None (env s_one)).
    + reflexivity.
    + simpl. intros [H _]. discriminate H.
    + vm_compute. reflexivity.
    + vm_compute. reflexivity.
    + vm_compute. reflexivity.
    + vm_compute. reflexivity.
    + discriminate.
  - apply (Hb 1%nat NULLRID scan_t1 scan_t1 s_t1 s_t1 NULLRID).
    reflexivity.
Defined.

(** ** Conversion of integers to float keeps the sign *)

Section FloatOfInt.

(** binary32: [prec = 24], [emax = 128], smallest exponent -149. *)

Lemma digits2_pos_lower (p : positive) :
  2 ^ (Z.pos (digits2_pos p) - 1) <= Z.pos p.
Proof.
  induction p as [p IH | p IH |]; simpl digits2_pos.
  - rewrite Pos2Z.inj_succ.
    replace (Z.succ (Z.pos (digits2_pos p)) - 1) with (Z.succ (Z.pos (digits2_pos p) - 1)) by lia.
    rewrite Z.pow_succ_r by lia. lia.
  - rewrite Pos2Z.inj_succ.
    replace (Z.succ (Z.pos (digits2_pos p)) - 1) with (Z.succ (Z.pos (digits2_pos p) - 1)) by lia.
    rewrite Z.pow_succ_r by lia. lia.
  - simpl. lia.
Qed.

Lemma shr_1_m (r : shr_record) :
  0 <= shr_m r -> shr_m (shr_1 r) = shr_m r / 2.
Proof.
  destruct r as [m rb sb]. simpl. intros Hm.
  rewrite <- Z.div2_div.
  destruct m as [| [p | p |] | p]; try reflexivity. lia.
Qed.

Lemma iter_shr_1_m (k : positive) :
  forall r : shr_record,
    0 <= shr_m r -> shr_m (SpecFloat.iter_pos shr_1 k r) = shr_m r / 2 ^ Z.pos k.
Proof.
  induction k as [k IH | k IH |]; intros r Hr; simpl SpecFloat.iter_pos.
  - assert (Hp : 2 ^ Z.pos k~1 = 2 * 2 ^ Z.pos k * 2 ^ Z.pos k).
    { replace (Z.pos k~1) with (Z.succ (Z.pos k + Z.pos k)) by lia.
      rewrite Z.pow_succ_r by lia. rewrite Z.pow_add_r by lia. lia. }
    assert (H1 : 0 <= shr_m (shr_1 r)).
    { rewrite shr_1_m by exact Hr. apply Z.div_pos; lia. }
    assert (H2 : 0 <= shr_m (SpecFloat.iter_pos shr_1 k (shr_1 r))).
    { rewrite IH by exact H1. apply Z.div_pos; [exact H1 | lia]. }
    rewrite IH by exact H2. rewrite IH by exact H1. rewrite shr_1_m by exact Hr.
    rewrite !Z.div_div by lia. rewrite Hp. f_equal. lia.
  - assert (Hp : 2 ^ Z.pos k~0 = 2 ^ Z.pos k * 2 ^ Z.pos k).
    { replace (Z.pos k~0) with (Z.pos k + Z.pos k) by lia.
      apply Z.pow_add_r; lia. }
    assert (H2 : 0 <= shr_m (SpecFloat.iter_pos shr_1 k r)).
    { rewrite IH by exact Hr. apply Z.div_pos; [exact Hr | lia]. }
    rewrite IH by exact H2. rewrite IH by exact Hr.
    rewrite Z.div_div by lia. rewrite Hp. reflexivity.
  - rewrite shr_1_m by exact Hr. reflexivity.
Qed.

(** Above the smallest exponent, the shift that aligns a positive mantissa
    leaves it positive. *)
Lemma shr_fexp_pos (m : positive) (e : Z) (l : location) :
  emin 24 128 <= e ->
  0 < shr_m (shr_fexp 24 128 (Z.pos m) e l).1 /\
  emin 24 128 <= (shr_fexp 24 128 (Z.pos m) e l).2.
Proof.
  intros He. unfold shr_fexp, shr.
  assert (Hrec : shr_m (shr_record_of_loc (Z.pos m) l) = Z.pos m).
  { destruct l as [| []]; reflexivity. }
  simpl Zdigits2.
  pose proof (digits2_pos_lower m) as Hlow.
  set (d := Z.pos (digits2_pos m)) in *.
  assert (Hd : 1 <= d) by (unfold d; lia).
  unfold fexp, emin in *.
  destruct (Z.max (d + e - 24) (3 - 128 - 24) - e) as [| k | k] eqn:Hn; simpl.
  - rewrite Hrec. lia.
  - rewrite iter_shr_1_m by (rewrite Hrec; lia). rewrite Hrec.
    split; [| lia].
    assert (Hk : Z.pos k <= d - 1) by lia.
    apply Z.div_str_pos. split; [apply Z.pow_pos_nonneg; lia |].
    apply Z.le_trans with (2 ^ (d - 1)); [| exact Hlow].
    apply Z.pow_le_mono_r; lia.
  - rewrite Hrec. lia.
Qed.

Lemma round_nearest_even_pos (m : Z) (l : location) :
  0 < m -> 0 < round_nearest_even m l.
Proof.
  intros Hm. destruct l as [| []]; simpl; try lia.
  destruct (Z.even m); lia.
Qed.

(** Rounding a positive mantissa above the smallest exponent gives a
    non-zero number of the given sign. *)
Lemma binary_round_aux_sign (sx : bool) (m : positive) (e : Z) (l : location) :
  emin 24 128 <= e ->
  (exists m' e', binary_round_aux 24 128 sx (Z.pos m) e l = S754_finite sx m' e') \/
  binary_round_aux 24 128 sx (Z.pos m) e l = S754_infinity sx.
Proof.
  intros He. unfold binary_round_aux.
  destruct (shr_fexp_pos m e l He) as [H1 H1e].
  destruct (shr_fexp 24 128 (Z.pos m) e l) as [mrs' e'] eqn:Hs1. simpl in H1, H1e.
  pose proof (round_nearest_even_pos (shr_m mrs') (loc_of_shr_record mrs') H1) as Hr.
  destruct (round_nearest_even (shr_m mrs') (loc_of_shr_record mrs')) as [| m2 | m2] eqn:Hm2;
    try lia.
  destruct (shr_fexp_pos m2 e' loc_Exact H1e) as [H2 _].
  destruct (shr_fexp 24 128 (Z.pos m2) e' loc_Exact) as [mrs'' e''] eqn:Hs2. simpl in H2.
  destruct (shr_m mrs'') as [| m3 | m3]; try lia.
  destruct (e'' <=? 128 - 24)%Z; [left; eauto | right; reflexivity].
Qed.

Lemma float_of_int_sign (z : Z) :
  match z with
  | Z0 => float_of_int z = S754_zero false
  | Zpos _ =>
      (exists m e, float_of_int z = S754_finite false m e) \/
      float_of_int z = S754_infinity false
  | Zneg _ =>
      (exists m e, float_of_int z = S754_finite true m e) \/
      float_of_int z = S754_infinity true
  end.
Proof.
  assert (Hround : forall sx p,
             (exists m e, binary_round 24 128 sx p 0 = S754_finite sx m e) \/
             binary_round 24 128 sx p 0 = S754_infinity sx).
  { intros sx p. unfold binary_round.
    destruct (shl_align p 0 (fexp 24 128 (Z.pos (digits2_pos p) + 0))) as [mz ez] eqn:Hal.
    apply (binary_round_aux_sign sx mz ez loc_Exact).
    unfold shl_align in Hal. unfold fexp, emin in *.
    destruct (Z.max (Z.pos (digits2_pos p) + 0 - 24) (3 - 128 - 24) - 0) eqn:Hd;
      injection Hal as _ <-; lia. }
  destruct z as [| p | p]; [reflexivity | apply Hround | apply Hround].
Qed.

(** The test [matchRec] makes on [float diff] after [diff = (an int)] is
    the test of that int against zero. *)
Lemma op_test_float_of_int (op : Operator) (z : Z) :
  op_test op (float_of_int z) = op_holds op (z ?= 0).
Proof.
  pose proof (float_of_int_sign z) as H.
  destruct z as [| p | p].
  - rewrite H. destruct op; reflexivity.
  - destruct H as [(m & e & ->) | ->]; destruct op; reflexivity.
  - destruct H as [(m & e & ->) | ->]; destruct op; reflexivity.
Qed.

End FloatOfInt.

(** ** matchRec *)

Lemma byte_val_nonneg (b : byte) : 0 <= byte_val b.
Proof. unfold byte_val. lia. Qed.

Lemma wrap_signed_small (z : Z) : is_int z -> wrap_signed z = z.
Proof.
  unfold is_int, INT_MIN, INT_MAX, wrap_signed. intros H.
  rewrite Z.mod_small by lia. lia.
Qed.

Lemma int_checked_small (z : Z) : is_int z -> int_checked z = Some z.
Proof.
  intros [Hlo Hhi]. unfold int_checked.
  rewrite (proj2 (Z.leb_le _ _) Hlo), (proj2 (Z.leb_le _ _) Hhi). reflexivity.
Qed.

(** The guard of [matchRec] when [offset + length] is an int. *)
Lemma matchRec_guard (E : Env) (this : HeapFileScan E) (rec : Record_) (fltr : list byte) :
  s_filter E this = Some fltr ->
  0 <= s_offset E this -> 1 <= s_length E this ->
  s_offset E this + s_length E this <= INT_MAX ->
  matchRec E this rec
  = (if s_offset E this + s_length E this - 1 >=? length_ rec then Some false
     else
       diff ← match s_type E this with
              | INTEGER =>
                  src ← ptr_add (data rec) (s_offset E this);
                  iattr ← memcpy_int src (s_length E this);
                  ifltr ← memcpy_int fltr (s_length E this);
                  Some (float_of_int (int_sub iattr ifltr))
              | FLOAT =>
                  src ← ptr_add (data rec) (s_offset E this);
                  fattr ← memcpy_float src (s_length E this);
                  ffltr ← memcpy_float fltr (s_length E this);
                  Some (float_sub fattr ffltr)
              | STRING =>
                  src ← ptr_add (data rec) (s_offset E this);
                  d ← strncmp src fltr (to_size_t (s_length E this));
                  Some (float_of_int d)
              | DatatypeOther _ => Some float_zero
              end;
       Some (op_test (s_op E this) diff)).
Proof.
  intros Hf Hoff Hlen Hmax. unfold matchRec. rewrite Hf.
  rewrite int_checked_small by (unfold is_int, INT_MIN, INT_MAX in *; lia).
  cbn [mbind option_bind].
  rewrite int_checked_small by (unfold is_int, INT_MIN, INT_MAX in *; lia).
  reflexivity.
Qed.

(** [strncmp] orders two arrays of at least [n] bytes as the C strings in
    their first [n] bytes are ordered lexicographically. *)
Lemma strncmp_lex (s1 : list byte) :
  forall (s2 : list byte) (n : Z),
    0 <= n <= Z.of_nat (length s1) -> n <= Z.of_nat (length s2) ->
    exists d, strncmp s1 s2 n = Some d /\
              (d ?= 0) = lex_compare (cstr (take (Z.to_nat n) s1))
                                     (cstr (take (Z.to_nat n) s2)).
Proof.
  induction s1 as [| c1 t1 IH]; intros s2 n Hn1 Hn2.
  - simpl in Hn1. assert (n = 0) by lia. subst n.
    exists 0. split; reflexivity.
  - destruct (Z.eq_dec n 0) as [-> | Hnz].
    { exists 0. split; reflexivity. }
    destruct s2 as [| c2 t2]; [simpl in Hn2; lia |].
    assert (Hsucc : Z.to_nat n = S (Z.to_nat (n - 1))) by lia.
    simpl length in Hn1, Hn2.
    assert (Hv1 := byte_val_nonneg c1). assert (Hv2 := byte_val_nonneg c2).
    simpl strncmp. rewrite (proj2 (Z.eqb_neq n 0) Hnz).
    rewrite Hsucc. simpl take. simpl cstr.
    destruct (byte_val c1 =? byte_val c2) eqn:Heq.
    + apply Z.eqb_eq in Heq. rewrite <- Heq.
      destruct (byte_val c1 =? 0) eqn:Hz.
      * exists 0. split; reflexivity.
      * destruct (IH t2 (n - 1)) as (d & Hd & Hcmp); [lia | lia |].
        exists d. split; [exact Hd |].
        simpl lex_compare. rewrite <- Heq, Z.compare_refl. exact Hcmp.
    + apply Z.eqb_neq in Heq.
      exists (byte_val c1 - byte_val c2). split; [reflexivity |].
      rewrite Z.compare_sub.
      replace (byte_val c1 - byte_val c2 - 0) with (byte_val c1 - byte_val c2) by lia.
      rewrite <- Z.compare_sub.
      destruct (byte_val c1 =? 0) eqn:Hz1; destruct (byte_val c2 =? 0) eqn:Hz2;
        rewrite ?Z.eqb_eq, ?Z.eqb_neq in Hz1, Hz2; simpl lex_compare.
      * lia.
      * apply Z.compare_lt_iff. lia.
      * apply Z.compare_gt_iff. lia.
      * destruct (byte_val c1 ?= byte_val c2) eqn:Hc; try reflexivity.
        apply Z.compare_eq in Hc. lia.
Qed.

(** C5, as stated, fails: with the STRING filter "a\0c" of length 3 and
    operator EQ, the record "a\0b" is matched, while the 3-byte windows
    compare as different ([strncmp] stops at the NUL the two share). *)
Lemma matchRec_strncmp_stops_at_NUL :
  matchRec E0 scan_nul rec_nul = Some true /\
  op_holds EQ (lex_compare (window rec_nul 0 3) ["a"%byte; x00; "c"%byte]) = false.
Proof. split; vm_compute; reflexivity. Qed.

(** The integer difference is computed in [int] and wraps: [INT_MAX > -1]
    holds, and the record holding [INT_MAX] is not matched by [attr > -1]. *)
Lemma matchRec_integer_difference_wraps :
  matchRec E0 scan_gt rec_max = Some false /\
  wrap_signed (le_decode (window rec_max 0 4)) = INT_MAX /\
  wrap_signed (le_decode [xff; xff; xff; xff]) = -1 /\
  op_holds GT (INT_MAX ?= -1) = true.
Proof. repeat split; vm_compute; reflexivity. Qed.

Lemma ptr_add_in_bounds (d : list byte) (off : Z) :
  0 <= off <= Z.of_nat (length d) -> ptr_add d off = Some (drop (Z.to_nat off) d).
Proof.
  intros H. unfold ptr_add.
  rewrite (proj2 (Z.leb_le 0 off)) by lia.
  rewrite (proj2 (Z.leb_le off _)) by lia. reflexivity.
Qed.

Lemma read_bytes_in_bounds (d : list byte) (n : Z) :
  0 <= n <= Z.of_nat (length d) -> read_bytes d n = Some (take (Z.to_nat n) d).
Proof.
  intros H. unfold read_bytes.
  rewrite (proj2 (Z.leb_le 0 n)) by lia.
  rewrite (proj2 (Z.leb_le n _)) by lia. reflexivity.
Qed.

(** C5, amended.  [matchRec] returns true when no filter is set.  With a
    filter, a non-negative offset, a positive length and [offset + length]
    within [int], it returns false when [offset + length - 1 >= rec.length],
    and otherwise:
    - INTEGER: the exact comparison of the two signed integers under [op],
      provided their difference is representable as an [int];
    - FLOAT: the test under [op] of the binary32 difference of the two
      floats against zero;
    - STRING (filter of at least [length] bytes): the lexicographic
      comparison under [op] of the C strings held in the window and in the
      first [length] bytes of the filter, bytes as unsigned values; bytes
      after a NUL take no part. *)
Theorem matchRec_semantics (E : Env) (this : HeapFileScan E) (rec : Record_) :
  (s_filter E this = None -> matchRec E this rec = Some true) /\
  (forall fltr : list byte,
      s_filter E this = Some fltr ->
      0 <= s_offset E this -> 1 <= s_length E this ->
      s_offset E this + s_length E this <= INT_MAX ->
      well_formed rec ->
      (s_offset E this + s_length E this - 1 >= length_ rec ->
       matchRec E this rec = Some false) /\
      (s_offset E this + s_length E this - 1 < length_ rec ->
       (s_type E this = INTEGER -> s_length E this = sizeof_int ->
        sizeof_int <= Z.of_nat (length fltr) ->
        is_int (wrap_signed (le_decode (window rec (s_offset E this) (s_length E this)))
                - wrap_signed (le_decode (take (Z.to_nat sizeof_int) fltr))) ->
        matchRec E this rec
        = Some (op_holds (s_op E this)
                  (wrap_signed (le_decode (window rec (s_offset E this) (s_length E this)))
                   ?= wrap_signed (le_decode (take (Z.to_nat sizeof_int) fltr))))) /\
       (s_type E this = FLOAT -> s_length E this = sizeof_float ->
        sizeof_float <= Z.of_nat (length fltr) ->
        matchRec E this rec
        = Some (op_test (s_op E this)
                  (float_sub
                     (b32_of_bits (le_decode (window rec (s_offset E this) (s_length E this))))
                     (b32_of_bits (le_decode (take (Z.to_nat sizeof_float) fltr)))))) /\
       (s_type E this = STRING ->
        s_length E this <= Z.of_nat (length fltr) ->
        matchRec E this rec
        = Some (op_holds (s_op E this)
                  (lex_compare
                     (cstr (window rec (s_offset E this) (s_length E this)))
                     (cstr (take (Z.to_nat (s_length E this)) fltr))))))).
Proof.
  split.
  - intros Hf. unfold matchRec. rewrite Hf. reflexivity.
  - intros fltr Hf Hoff Hlen Hmax Hwf.
    pose proof (matchRec_guard E this rec fltr Hf Hoff Hlen Hmax) as Hend.
    unfold well_formed in Hwf.
    split.
    + intros Hout. rewrite Hend.
      rewrite (proj2 (Z.geb_le _ _)) by lia. reflexivity.
    + intros Hin.
      assert (Hgeb : (s_offset E this + s_length E this - 1 >=? length_ rec) = false).
      { rewrite Z.geb_leb. apply Z.leb_gt. lia. }
      assert (Hptr : ptr_add (data rec) (s_offset E this)
                     = Some (drop (Z.to_nat (s_offset E this)) (data rec))).
      { apply ptr_add_in_bounds. lia. }
      assert (Hsrc : s_length E this
                     <= Z.of_nat (length (drop (Z.to_nat (s_offset E this)) (data rec)))).
      { rewrite length_drop. lia. }
      split; [| split].
      * intros Hty Hw Hfl Hdiff.
        rewrite Hend, Hgeb, Hty, Hptr.
        unfold memcpy_int, window in *. rewrite Hw in *. rewrite Z.eqb_refl.
        cbn [mbind option_bind].
        rewrite !read_bytes_in_bounds by (unfold sizeof_int in *; lia).
        cbn [mbind option_bind].
        f_equal. rewrite op_test_float_of_int.
        unfold int_sub. rewrite wrap_signed_small by exact Hdiff.
        rewrite <- Z.compare_sub. reflexivity.
      * intros Hty Hw Hfl.
        rewrite Hend, Hgeb, Hty, Hptr.
        unfold memcpy_float, window in *. rewrite Hw in *. rewrite Z.eqb_refl.
        cbn [mbind option_bind].
        rewrite !read_bytes_in_bounds by (unfold sizeof_float in *; lia).
        reflexivity.
      * intros Hty Hfl.
        rewrite Hend, Hgeb, Hty, Hptr.
        assert (Hsz : to_size_t (s_length E this) = s_length E this).
        { unfold to_size_t. apply Z.mod_small. unfold INT_MAX in Hmax. lia. }
        rewrite Hsz.
        destruct (strncmp_lex (drop (Z.to_nat (s_offset E this)) (data rec)) fltr
                    (s_length E this)) as (d & Hd & Hcmp); [lia | lia |].
        cbn [mbind option_bind]. rewrite Hd.
        cbn [mbind option_bind]. rewrite op_test_float_of_int, Hcmp. reflexivity.
Qed.

Lemma matchRec_semantics_witness :
  matchRec E0 raw_scan rec_7 = Some true /\
  matchRec E0 scan_ge5 (mkRecord [x07] 1) = Some false /\
  matchRec E0 scan_ge5 rec_7 = Some (op_holds GTE (7 ?= 5)) /\
  matchRec E0 scan_lt1 rec_half
  = Some (op_test LT (float_sub (S754_finite false 8388608 (-24))
                                (S754_finite false 8388608 (-23)))) /\
  matchRec E0 scan_nul rec_nul
  = Some (op_holds EQ (lex_compare ["a"%byte] ["a"%byte])).
Proof.
  split; [exact (proj1 (matchRec_semantics E0 raw_scan rec_7) eq_refl) |].
  split.
  { refine (proj1 (proj2 (matchRec_semantics E0 scan_ge5 (mkRecord [x07] 1))
                     [x05; x00; x00; x00] eq_refl _ _ _ _) _);
      vm_compute; first [reflexivity | discriminate]. }
  split.
  { refine (proj1 (proj2 (proj2 (matchRec_semantics E0 scan_ge5 rec_7)
                            [x05; x00; x00; x00] eq_refl _ _ _ _) _) eq_refl eq_refl _ _);
      vm_compute; first [reflexivity | discriminate | split; discriminate]. }
  split.
  { refine (proj1 (proj2 (proj2 (proj2 (matchRec_semantics E0 scan_lt1 rec_half)
                            [x00; x00; x80; x3f] eq_refl _ _ _ _) _)) eq_refl eq_refl _);
      vm_compute; first [reflexivity | discriminate]. }
  refine (proj2 (proj2 (proj2 (proj2 (matchRec_semantics E0 scan_nul rec_nul)
                          ["a"%byte; x00; "c"%byte] eq_refl _ _ _ _) _)) eq_refl _);
    vm_compute; first [reflexivity | discriminate].
Defined.

(** ** The page chain and pageCnt *)

Import Chain.

(** Two records per page, five inserts: a page is added by the third and
    by the fifth insert. *)
Example five_inserts_two_per_page :
  Runs.value_of
    (run_pageCnt [Runs.recA; Runs.recB; Runs.recA; Runs.recB; Runs.recA]
       (mkSt (E := E2) (∅ : gmap string RefEnv.RFile) []))
  = Some [1; 1; 1; 2; 2; 3].
Proof. vm_compute. reflexivity. Qed.

Example three_inserts_three_pages :
  Runs.value_of (run_inserts [Runs.recA; Runs.recB; Runs.recA] st1)
  = Some ([OK; OK; OK], mkHdr "t1" 1 3 3 3, Some [1; 2; 3]).
Proof. vm_compute. reflexivity. Qed.

(** *** Frames under the reference collaborators' writes *)

Lemma frame_at_set_frame (w : gmap string RefEnv.RFile) (f : string) (p p' : Z)
    (fr : RefEnv.Frame) :
  RefEnv.frame_at (RefEnv.set_frame w (f, p) fr) (f, p')
  = if decide (p = p')
    then match RefEnv.frame_at w (f, p) with
         | Some _ => Some fr
         | None => None
         end
    else RefEnv.frame_at w (f, p').
Proof.
  unfold RefEnv.frame_at, RefEnv.set_frame. simpl.
  destruct (w !! f) as [file |] eqn:Hf; simpl.
  - destruct (0 <=? p) eqn:Hp.
    + rewrite lookup_insert_eq. simpl.
      destruct (decide (p = p')) as [<- | Hne].
      * rewrite ?Hp, ?Hf; simpl; rewrite ?Hp.
        destruct (RefEnv.rf_pages file !! Z.to_nat p) eqn:Hl.
        -- apply list_lookup_insert_eq. eapply lookup_lt_Some. exact Hl.
        -- rewrite list_insert_ge; [exact Hl |]. apply lookup_ge_None. exact Hl.
      * rewrite ?Hf; simpl.
        destruct (0 <=? p') eqn:Hp'; [| reflexivity].
        apply list_lookup_insert_ne. apply Z.leb_le in Hp, Hp'. lia.
    + rewrite ?Hf; simpl. destruct (decide (p = p')) as [<- | Hne]; [| reflexivity].
      rewrite ?Hp. reflexivity.
  - rewrite ?Hf; simpl. destruct (decide (p = p')); reflexivity.
Qed.

Lemma unPinPage_world f n d (w w1 : gmap string RefEnv.RFile) st :
  RefEnv.unPinPage f n d w = (st, w1) -> w1 = w.
Proof.
  unfold RefEnv.unPinPage. destruct (RefEnv.frame_at w (f, n)); intros H; congruence.
Qed.

Lemma readPage_OK f n (w w1 : gmap string RefEnv.RFile) o :
  RefEnv.readPage f n w = (OK, o, w1) -> w1 = w /\ o = Some (f, n).
Proof.
  unfold RefEnv.readPage. destruct (RefEnv.frame_at w (f, n)); intros H.
  - split; congruence.
  - discriminate H.
Qed.

Lemma allocPage_OK f (w w1 : gmap string RefEnv.RFile) n o :
  RefEnv.allocPage f w = (OK, n, o, w1) ->
  o = Some (f, n) /\ 0 <= n /\
  RefEnv.frame_at w (f, n) = None /\
  RefEnv.frame_at w1 (f, n) = Some RefEnv.FRaw /\
  (forall p, p <> n -> RefEnv.frame_at w1 (f, p) = RefEnv.frame_at w (f, p)).
Proof.
  unfold RefEnv.allocPage. destruct (w !! f) as [file |] eqn:Hf; [| discriminate].
  intros H. injection H as <- <- <-.
  unfold RefEnv.frame_at. simpl. rewrite lookup_insert_eq, Hf. simpl.
  assert (H0 : (0 <=? Z.of_nat (length (RefEnv.rf_pages file))) = true)
    by (apply Z.leb_le; lia).
  rewrite H0, Nat2Z.id.
  split; [reflexivity |]. split; [lia |].
  split; [apply lookup_ge_None; lia |].
  split; [rewrite lookup_app_r by lia; rewrite Nat.sub_diag; reflexivity |].
  intros p Hp. destruct (0 <=? p) eqn:Hp0; [| reflexivity].
  apply Z.leb_le in Hp0.
  destruct (Nat.lt_ge_cases (Z.to_nat p) (length (RefEnv.rf_pages file))) as [Hlt | Hge].
  - apply lookup_app_l. exact Hlt.
  - rewrite (proj2 (lookup_ge_None _ _) Hge).
    apply lookup_ge_None. rewrite length_app. simpl. lia.
Qed.

Lemma openFile_OK name (w w1 : gmap string RefEnv.RFile) f :
  RefEnv.openFile name w = (OK, f, w1) ->
  f = name /\ forall p, RefEnv.frame_at w1 (name, p) = RefEnv.frame_at w (name, p).
Proof.
  unfold RefEnv.openFile. destruct (w !! name) as [file |] eqn:Hf; [| discriminate].
  intros H. injection H as <- <-. split; [reflexivity |].
  intros p. unfold RefEnv.frame_at. simpl. rewrite lookup_insert_eq, Hf. reflexivity.
Qed.

Lemma readPage_frame f n (w w1 : gmap string RefEnv.RFile) o :
  RefEnv.readPage f n w = (OK, o, w1) -> is_Some (RefEnv.frame_at w (f, n)).
Proof.
  unfold RefEnv.readPage. destruct (RefEnv.frame_at w (f, n)); intros H.
  - eauto.
  - discriminate H.
Qed.

Lemma readPage_exists f n (w : gmap string RefEnv.RFile) :
  is_Some (RefEnv.frame_at w (f, n)) -> RefEnv.readPage f n w = (OK, Some (f, n), w).
Proof. intros [fr H]. unfold RefEnv.readPage. rewrite H. reflexivity. Qed.

Lemma unPinPage_exists f n d (w : gmap string RefEnv.RFile) :
  is_Some (RefEnv.frame_at w (f, n)) -> RefEnv.unPinPage f n d w = (OK, w).
Proof. intros [fr H]. unfold RefEnv.unPinPage. rewrite H. reflexivity. Qed.

Lemma unPinPage_flag f n d d' (w : gmap string RefEnv.RFile) :
  RefEnv.unPinPage f n d w = RefEnv.unPinPage f n d' w.
Proof. reflexivity. Qed.

Lemma getFirstPage_OK name (w w1 : gmap string RefEnv.RFile) n :
  RefEnv.getFirstPage name w = (OK, n, w1) -> n = 0 /\ w1 = w.
Proof.
  unfold RefEnv.getFirstPage. destruct (w !! name) as [file |]; [| discriminate].
  destruct (decide (RefEnv.rf_pages file = [])); [discriminate |].
  intros H. split; congruence.
Qed.

(** *** What each write does to the header and to the links *)

Lemma next_link_frame (w : gmap string RefEnv.RFile) (f : string) (p : Z) :
  next_link w f p
  = match RefEnv.frame_at w (f, p) with
    | Some (RefEnv.FData d) => Some (RefEnv.rp_next d)
    | _ => None
    end.
Proof.
  unfold next_link, RefEnv.data_at.
  destruct (RefEnv.frame_at w (f, p)) as [[| h | d] |]; reflexivity.
Qed.

Lemma next_link_data (w : gmap string RefEnv.RFile) (f : string) (p n : Z) :
  next_link w f p = Some n ->
  exists d, RefEnv.data_at w (f, p) = Some d /\ RefEnv.rp_next d = n.
Proof.
  unfold next_link. destruct (RefEnv.data_at w (f, p)) as [d |]; [| discriminate].
  simpl. intros H. exists d. split; congruence.
Qed.

Lemma same_frames (w w1 : gmap string RefEnv.RFile) (f : string) :
  (forall p, RefEnv.frame_at w1 (f, p) = RefEnv.frame_at w (f, p)) ->
  hdr_at w1 f = hdr_at w f /\ forall p, next_link w1 f p = next_link w f p.
Proof.
  intros H. split.
  - unfold hdr_at. rewrite H. reflexivity.
  - intros p. rewrite !next_link_frame, H. reflexivity.
Qed.

Lemma insertRecord_keeps ps dp f p rec (w w1 : gmap string RefEnv.RFile) st rid :
  RefEnv.insertRecord ps dp (f, p) rec w = (st, rid, w1) ->
  hdr_at w1 f = hdr_at w f /\ forall p', next_link w1 f p' = next_link w f p'.
Proof.
  unfold RefEnv.insertRecord.
  destruct (RefEnv.data_at w (f, p)) as [d |] eqn:Hd.
  2: { intros H. injection H as _ _ <-. split; reflexivity. }
  destruct (_ && _).
  2: { intros H. injection H as _ _ <-. split; reflexivity. }
  intros H. injection H as _ _ <-.
  assert (Hfr : RefEnv.frame_at w (f, p) = Some (RefEnv.FData d)).
  { unfold RefEnv.data_at in Hd.
    destruct (RefEnv.frame_at w (f, p)) as [[| h | d0] |]; congruence. }
  split.
  - unfold hdr_at. rewrite frame_at_set_frame.
    destruct (decide (p = 0)) as [-> | Hne]; [rewrite Hfr |]; reflexivity.
  - intros p'. rewrite !next_link_frame, frame_at_set_frame.
    destruct (decide (p = p')) as [<- | Hne]; [rewrite Hfr |]; reflexivity.
Qed.

Lemma store_header f h h0 (w : gmap string RefEnv.RFile) :
  hdr_at w f = Some h0 ->
  hdr_at (RefEnv.store (f, 0) h w) f = Some h /\
  forall p, next_link (RefEnv.store (f, 0) h w) f p = next_link w f p.
Proof.
  unfold hdr_at, RefEnv.store. intros H0.
  destruct (RefEnv.frame_at w (f, 0)) as [[| hh | d] |] eqn:Hfr; try discriminate.
  split.
  - rewrite frame_at_set_frame, Hfr.
    destruct (decide (0 = 0)); [reflexivity | contradiction].
  - intros p. rewrite !next_link_frame, frame_at_set_frame.
    destruct (decide (0 = p)) as [<- | Hne]; [rewrite Hfr |]; reflexivity.
Qed.

Lemma load_header f h (w : gmap string RefEnv.RFile) :
  hdr_at w f = Some h -> RefEnv.load (f, 0) w = h.
Proof.
  unfold hdr_at, RefEnv.load.
  destruct (RefEnv.frame_at w (f, 0)) as [[| hh | d] |]; congruence.
Qed.

Lemma allocPage_keeps f (w w1 : gmap string RefEnv.RFile) q o :
  RefEnv.allocPage f w = (OK, q, o, w1) ->
  o = Some (f, q) /\ 0 <= q /\
  RefEnv.frame_at w (f, q) = None /\
  RefEnv.frame_at w1 (f, q) = Some RefEnv.FRaw /\
  hdr_at w1 f = hdr_at w f /\
  forall p, next_link w1 f p = next_link w f p.
Proof.
  intros H. destruct (allocPage_OK f w w1 q o H) as (Ho & Hq & Hnone & Hraw & Hsame).
  repeat (split; [assumption |]).
  split.
  - unfold hdr_at. destruct (decide (0 = q)) as [<- | Hne].
    + rewrite Hraw, Hnone. reflexivity.
    + rewrite Hsame by exact Hne. reflexivity.
  - intros p. rewrite !next_link_frame.
    destruct (decide (p = q)) as [-> | Hne].
    + rewrite Hraw, Hnone. reflexivity.
    + rewrite Hsame by exact Hne. reflexivity.
Qed.

Lemma init_fresh f q n (w : gmap string RefEnv.RFile) :
  RefEnv.frame_at w (f, q) = Some RefEnv.FRaw ->
  hdr_at (RefEnv.init (f, q) n w) f = hdr_at w f /\
  next_link (RefEnv.init (f, q) n w) f q = Some (-1) /\
  forall p, p <> q -> next_link (RefEnv.init (f, q) n w) f p = next_link w f p.
Proof.
  intros Hraw. unfold RefEnv.init. split; [| split].
  - unfold hdr_at. rewrite frame_at_set_frame.
    destruct (decide (q = 0)) as [-> | Hne]; [rewrite Hraw |]; reflexivity.
  - rewrite next_link_frame, frame_at_set_frame, Hraw.
    destruct (decide (q = q)); [reflexivity | contradiction].
  - intros p Hp. rewrite !next_link_frame, frame_at_set_frame.
    destruct (decide (q = p)); [congruence | reflexivity].
Qed.

Lemma setNextPage_link f p n n0 (w : gmap string RefEnv.RFile) :
  next_link w f p = Some n0 ->
  hdr_at (RefEnv.setNextPage (f, p) n w) f = hdr_at w f /\
  next_link (RefEnv.setNextPage (f, p) n w) f p = Some n /\
  forall p', p' <> p -> next_link (RefEnv.setNextPage (f, p) n w) f p' = next_link w f p'.
Proof.
  intros Hl. destruct (next_link_data w f p n0 Hl) as (d & Hd & _).
  assert (Hfr : RefEnv.frame_at w (f, p) = Some (RefEnv.FData d)).
  { unfold RefEnv.data_at in Hd.
    destruct (RefEnv.frame_at w (f, p)) as [[| h | d0] |]; congruence. }
  unfold RefEnv.setNextPage. rewrite Hd. split; [| split].
  - unfold hdr_at. rewrite frame_at_set_frame.
    destruct (decide (p = 0)) as [-> | Hne]; [rewrite Hfr |]; reflexivity.
  - rewrite next_link_frame, frame_at_set_frame, Hfr.
    destruct (decide (p = p)); [reflexivity | contradiction].
  - intros p' Hp. rewrite !next_link_frame, frame_at_set_frame.
    destruct (decide (p = p')); [congruence | reflexivity].
Qed.

(** *** Chains *)

Lemma chain_nonempty w f p l : chain w f p l -> l <> [].
Proof. intros H. destruct H; discriminate. Qed.

Lemma chain_last_link w f p l x :
  chain w f p l -> last l = Some x -> next_link w f x = Some (-1).
Proof.
  induction 1 as [p Hp | p n l Hp Hn Hc IH]; intros Hlast.
  - simpl in Hlast. injection Hlast as <-. exact Hp.
  - apply IH. destruct l as [| y l']; [destruct (chain_nonempty _ _ _ _ Hc eq_refl) |].
    exact Hlast.
Qed.

Lemma chain_links w f p l x : chain w f p l -> x ∈ l -> is_Some (next_link w f x).
Proof.
  induction 1 as [p Hp | p n l Hp Hn Hc IH]; intros Hx.
  - apply list_elem_of_singleton in Hx. subst. eauto.
  - apply elem_of_cons in Hx. destruct Hx as [-> | Hx]; [eauto | auto].
Qed.

(** A chain only depends on the links of its own pages. *)
Lemma chain_ext w w' f p l :
  (forall x, x ∈ l -> next_link w' f x = next_link w f x) ->
  chain w f p l -> chain w' f p l.
Proof.
  intros Hsame Hc. induction Hc as [p Hp | p n l Hp Hn Hc IH].
  - apply chain_end. rewrite Hsame; [exact Hp | apply list_elem_of_singleton; reflexivity].
  - apply chain_step with n.
    + rewrite Hsame; [exact Hp | apply elem_of_cons; left; reflexivity].
    + exact Hn.
    + apply IH. intros x Hx. apply Hsame. apply elem_of_cons. right. exact Hx.
Qed.

(** Linking a new last page [q] behind the last page [lp]. *)
Lemma chain_extend w w' f p l lp q :
  chain w f p l -> last l = Some lp ->
  q <> -1 ->
  next_link w' f lp = Some q ->
  next_link w' f q = Some (-1) ->
  (forall x, x ∈ l -> x <> lp -> next_link w' f x = next_link w f x) ->
  chain w' f p (l ++ [q]).
Proof.
  intros Hc. induction Hc as [p Hp | p n l Hp Hn Hc IH]; intros Hlast Hq Hlp Hnew Hsame.
  - simpl in Hlast. injection Hlast as <-. simpl.
    apply chain_step with q; [exact Hlp | exact Hq |].
    apply chain_end. exact Hnew.
  - assert (Hlast' : last l = Some lp).
    { destruct l as [| y l']; [destruct (chain_nonempty _ _ _ _ Hc eq_refl) |]. exact Hlast. }
    assert (Hne : p <> lp).
    { intros ->. pose proof (chain_last_link _ _ _ _ _ Hc Hlast') as Hend. congruence. }
    simpl. apply chain_step with n.
    + rewrite Hsame; [exact Hp | apply elem_of_cons; left; reflexivity | exact Hne].
    + exact Hn.
    + apply IH; try assumption.
      intros x Hx Hxl. apply Hsame; [apply elem_of_cons; right; exact Hx | exact Hxl].
Qed.

(** *** createHeapFile on a name that does not exist *)

Section OneFile.

Variables (w : gmap string RefEnv.RFile) (name : string).

Lemma openFile_entry (F : RefEnv.RFile) :
  RefEnv.openFile name (<[name := F]> w)
  = (OK, name, <[name := RefEnv.mkRFile (RefEnv.rf_pages F) (S (RefEnv.rf_open F))]> w).
Proof.
  unfold RefEnv.openFile. rewrite lookup_insert_eq. cbv beta iota.
  rewrite insert_insert_eq. reflexivity.
Qed.

Lemma allocPage_entry (F : RefEnv.RFile) :
  RefEnv.allocPage name (<[name := F]> w)
  = (OK, Z.of_nat (length (RefEnv.rf_pages F)),
     Some (name, Z.of_nat (length (RefEnv.rf_pages F))),
     <[name := RefEnv.mkRFile (RefEnv.rf_pages F ++ [RefEnv.FRaw]) (RefEnv.rf_open F)]> w).
Proof.
  unfold RefEnv.allocPage. rewrite lookup_insert_eq. cbv beta iota zeta.
  rewrite insert_insert_eq. reflexivity.
Qed.

Lemma frame_at_entry (F : RefEnv.RFile) (p : Z) :
  RefEnv.frame_at (<[name := F]> w) (name, p)
  = if 0 <=? p then RefEnv.rf_pages F !! Z.to_nat p else None.
Proof. unfold RefEnv.frame_at. simpl. rewrite lookup_insert_eq. reflexivity. Qed.

Lemma set_frame_entry (F : RefEnv.RFile) (p : Z) (fr : RefEnv.Frame) :
  0 <= p ->
  RefEnv.set_frame (<[name := F]> w) (name, p) fr
  = <[name := RefEnv.mkRFile (<[Z.to_nat p := fr]> (RefEnv.rf_pages F)) (RefEnv.rf_open F)]> w.
Proof.
  intros Hp. unfold RefEnv.set_frame. simpl.
  rewrite lookup_insert_eq. cbv beta iota.
  rewrite (proj2 (Z.leb_le 0 p) Hp), insert_insert_eq. reflexivity.
Qed.

Lemma closeFile_entry (pages : list RefEnv.Frame) (n : nat) :
  RefEnv.closeFile name (<[name := RefEnv.mkRFile pages (S n)]> w)
  = (OK, <[name := RefEnv.mkRFile pages n]> w).
Proof.
  unfold RefEnv.closeFile. rewrite lookup_insert_eq. cbv beta iota.
  simpl RefEnv.rf_open. cbv beta iota. rewrite insert_insert_eq. reflexivity.
Qed.

Lemma createHeapFile_fresh (ps dp : Z)
    (cs : list (Call (File (RefEnv.make ps dp)) * Status)) :
  w !! name = None ->
  createHeapFile (RefEnv.make ps dp) name (mkSt (E := RefEnv.make ps dp) w cs)
  = Done OK
      (mkSt (E := RefEnv.make ps dp) (<[name := fresh_file name]> w)
         (cs ++ [(OpenFile name, RefEnv.FILENOTFOUND); (CreateFile name, OK);
                 (OpenFile name, OK); (AllocPage name, OK); (AllocPage name, OK);
                 (UnPinPage name 0 true, OK); (UnPinPage name 1 true, OK);
                 (CloseFile name, OK)])).
Proof.
  intros Hnone.
  unfold createHeapFile, bind, openFile, createFile, allocPage, unPinPage, closeFile,
    page_init, modify_hdr, deref, ret, logged, bind, deref.
  simpl. unfold RefEnv.openFile at 1. rewrite Hnone. simpl.
  unfold RefEnv.createFile. rewrite Hnone. simpl.
  rewrite openFile_entry. simpl.
  rewrite allocPage_entry. simpl.
  rewrite allocPage_entry. simpl.
  unfold RefEnv.init, RefEnv.store, RefEnv.load.
  repeat (rewrite ?frame_at_entry, ?set_frame_entry by lia; simpl).
  unfold RefEnv.unPinPage.
  repeat (rewrite ?frame_at_entry; simpl).
  rewrite closeFile_entry. simpl.
  rewrite <- !app_assoc. reflexivity.
Qed.

Lemma openFile_existing (F : RefEnv.RFile) :
  w !! name = Some F ->
  RefEnv.openFile name w
  = (OK, name, <[name := RefEnv.mkRFile (RefEnv.rf_pages F) (S (RefEnv.rf_open F))]> w).
Proof. intros H. unfold RefEnv.openFile. rewrite H. reflexivity. Qed.

Lemma fresh_file_chain : header_chain (<[name := fresh_file name]> w) name [1].
Proof.
  exists (mkHdr name 1 1 1 0). split; [| split; [| split; reflexivity]].
  - unfold hdr_at. rewrite frame_at_entry. reflexivity.
  - apply chain_end. rewrite next_link_frame, frame_at_entry. reflexivity.
Qed.

End OneFile.

(** *** insertRecord keeps the header in step with the chain *)

Local Opaque RefEnv.unPinPage RefEnv.readPage RefEnv.allocPage RefEnv.insertRecord
  RefEnv.init RefEnv.setNextPage RefEnv.load RefEnv.store RefEnv.openFile
  RefEnv.getFirstPage RefEnv.createFile RefEnv.closeFile.

(** Turn the equations a run went through into facts about the worlds. *)
Ltac digest :=
  repeat match goal with
         | H : failed OK = true |- _ => discriminate H
         | H : failed ?st = false |- _ => apply failed_false in H; try subst st
         | H : bool_decide _ = true |- _ => apply bool_decide_eq_true_1 in H
         | H : bool_decide _ = false |- _ => apply bool_decide_eq_false_1 in H
         | H : Some _ = Some _ |- _ => injection H as H; try subst
         | H : (_, _) = (_, _) |- _ => injection H; clear H; intros; try subst
         | H : RefEnv.unPinPage _ _ _ _ = _ |- _ => apply unPinPage_world in H; try subst
         | H : RefEnv.readPage _ _ _ = (OK, _, _) |- _ =>
             apply readPage_OK in H; destruct H as [? ?]; try subst
         | H : RefEnv.openFile _ _ = (OK, _, _) |- _ =>
             apply openFile_OK in H; destruct H as [? H]; try subst;
             apply same_frames in H; destruct H as [? ?]
         | H : RefEnv.getFirstPage _ _ = (OK, _, _) |- _ =>
             apply getFirstPage_OK in H; destruct H as [? ?]; try subst
         | H : RefEnv.allocPage _ _ = (OK, _, _, _) |- _ =>
             apply allocPage_keeps in H; destruct H as (? & ? & ? & ? & ? & ?); try subst
         | H : RefEnv.insertRecord _ _ (_, _) _ _ = _ |- _ =>
             apply insertRecord_keeps in H; destruct H as [? ?]
         end.

(** Facts about the header through a sequence of header writes. *)
Ltac step_hdr :=
  repeat match goal with
         | Hh : hdr_at ?w ?f = Some ?h0 |- context [RefEnv.load (?f, 0) ?w] =>
             rewrite (load_header f h0 w Hh)
         | Hh : hdr_at ?w ?f = Some ?h0 |- context [RefEnv.store (?f, 0) ?h1 ?w] =>
             lazymatch goal with
             | _ : hdr_at (RefEnv.store (f, 0) h1 w) f = Some _ |- _ => fail
             | _ => destruct (store_header f h1 h0 w Hh) as [? ?]
             end
         end.

(** The path of [insertRecord] that stays on the last page. *)
Lemma chain_same_page (f : string) (w wf : gmap string RefEnv.RFile)
    (hdr hdr' : FileHdrPage) (l : list Z) :
  hdr_at w f = Some hdr ->
  chain w f (firstPage hdr) l ->
  last l = Some (lastPage hdr) ->
  pageCnt hdr = Z.of_nat (length l) ->
  hdr_at wf f = Some hdr' ->
  firstPage hdr' = firstPage hdr -> lastPage hdr' = lastPage hdr ->
  pageCnt hdr' = pageCnt hdr ->
  (forall p, next_link wf f p = next_link w f p) ->
  header_chain wf f l.
Proof.
  intros Hhdr Hch Hlast Hcnt Hhdr' Hfirst Hlp Hpc Hsame.
  exists hdr'. split; [exact Hhdr' |].
  split; [| split; congruence].
  rewrite Hfirst. apply (chain_ext w wf); [| exact Hch].
  intros x _. apply Hsame.
Qed.

(** The path of [insertRecord] that allocates the page [z], initialises
    it, and links it behind the last page. *)
Lemma chain_new_page (f : string) (w g1 g2 g4 wf : gmap string RefEnv.RFile)
    (hdr hdr' : FileHdrPage) (l : list Z) (z : Z) :
  hdr_at w f = Some hdr ->
  chain w f (firstPage hdr) l ->
  last l = Some (lastPage hdr) ->
  pageCnt hdr = Z.of_nat (length l) ->
  Z.of_nat (length l) < INT_MAX ->
  hdr_at g1 f = hdr_at w f ->
  (forall p, next_link g1 f p = next_link w f p) ->
  0 <= z ->
  RefEnv.frame_at g1 (f, z) = None ->
  RefEnv.frame_at g2 (f, z) = Some RefEnv.FRaw ->
  hdr_at g2 f = hdr_at g1 f ->
  (forall p, next_link g2 f p = next_link g1 f p) ->
  hdr_at g4 f
  = hdr_at (RefEnv.setNextPage (f, lastPage hdr) z (RefEnv.init (f, z) z g2)) f ->
  (forall p, next_link g4 f p
             = next_link (RefEnv.setNextPage (f, lastPage hdr) z
                            (RefEnv.init (f, z) z g2)) f p) ->
  (hdr_at g4 f = Some hdr ->
   hdr_at wf f = Some hdr' /\
   firstPage hdr' = firstPage hdr /\ lastPage hdr' = z /\
   pageCnt hdr' = int_add (pageCnt hdr) 1 /\
   (forall p, next_link wf f p = next_link g4 f p)) ->
  header_chain wf f (l ++ [z]).
Proof.
  intros Hhdr Hch Hlast Hcnt Hlen Hh1 Hn1 Hz Hnone Hraw Hh2 Hn2 Hh4 Hn4 Hfinal.
  destruct (init_fresh f z z g2 Hraw) as (Hhi & Hzi & Hni).
  pose proof (chain_last_link _ _ _ _ _ Hch Hlast) as Hend.
  assert (Hzfree : next_link w f z = None).
  { rewrite <- Hn1, next_link_frame, Hnone. reflexivity. }
  assert (Hlpz : lastPage hdr <> z) by congruence.
  assert (Hlpi : next_link (RefEnv.init (f, z) z g2) f (lastPage hdr) = Some (-1)).
  { rewrite Hni by exact Hlpz. rewrite Hn2, Hn1. exact Hend. }
  destruct (setNextPage_link f (lastPage hdr) z (-1) _ Hlpi) as (Hhs & Hlps & Hns).
  assert (Hhdr4 : hdr_at g4 f = Some hdr) by congruence.
  destruct (Hfinal Hhdr4) as (Hhdr' & Hfirst & Hlp' & Hpc & Hnf).
  exists hdr'. split; [exact Hhdr' |]. split; [| split].
  - rewrite Hfirst.
    apply (chain_extend w wf f (firstPage hdr) l (lastPage hdr) z Hch Hlast).
    + lia.
    + rewrite Hnf, Hn4. exact Hlps.
    + rewrite Hnf, Hn4, Hns by congruence. exact Hzi.
    + intros x Hx Hxl.
      assert (Hxz : x <> z).
      { intros ->. destruct (chain_links _ _ _ _ _ Hch Hx) as [n Hn]. congruence. }
      rewrite Hnf, Hn4, Hns by exact Hxl. rewrite Hni by exact Hxz.
      rewrite Hn2, Hn1. reflexivity.
  - rewrite last_snoc, Hlp'. reflexivity.
  - rewrite Hpc, Hcnt, length_app. simpl.
    unfold int_add. rewrite wrap_signed_small; [lia |].
    unfold is_int, INT_MIN, INT_MAX in *. lia.
Qed.

Lemma insertRecord_keeps_chain ps dp f rec rid (h h' : HeapFile (RefEnv.make ps dp))
    (s s' : St (RefEnv.make ps dp)) r l :
  handle_ok ps dp f h ->
  header_chain (env s) f l ->
  Z.of_nat (length l) < INT_MAX ->
  insertRecord (RefEnv.make ps dp) rec rid h s = Done (OK, r, h') s' ->
  handle_ok ps dp f h' /\
  exists l', header_chain (env s') f l' /\ (l' = l \/ exists q, l' = l ++ [q]).
Proof.
  intros (Hf & Hhp & Hcp) (hdr & Hhdr & Hch & Hlast & Hcnt) Hlen Hrun.
  destruct h as [fp hp hpn hdf cp cpn cdf cr]. simpl in Hf, Hhp, Hcp. subst fp hp cp.
  unfold insertRecord in Hrun. simpl in Hrun.
  destruct (wrap_unsigned (length_ rec) >? _); [discriminate |].
  unfold bind, load_hdr, modify_hdr, deref, ret, unPinPage, readPage, allocPage,
    page_insertRecord, page_init, page_setNextPage, bind, deref, logged in Hrun.
  simpl in Hrun.
  rewrite ?(load_header f hdr (env s) Hhdr) in Hrun.
  split_run Hrun.
  all: injection Hrun; intros; subst; digest.
  all: clear Hrun;
       match goal with
       | Hh : hdr_at (env ?s0) ?f0 = Some ?hdr0 |- _ =>
           rewrite ?(load_header f0 hdr0 (env s0) Hh) in *
       end.
  all: try match goal with
       | Hc : ~ (?a <> ?b) |- _ =>
           assert (a = b) by (destruct (decide (a = b)); [assumption | contradiction]);
           subst a
       end.
  all: split; [unfold handle_ok; simpl; repeat split; reflexivity |]; simpl.
  all: match goal with
       | Hh : hdr_at ?g1 ?f0 = hdr_at (env ?s0) ?f0, Hh0 : hdr_at (env ?s0) ?f0 = Some ?hdr0
         |- _ => assert (Hh1 : hdr_at g1 f0 = Some hdr0) by congruence
       end.
  all: try match goal with
       | Hraw : RefEnv.frame_at ?g2 (?f0, ?z) = Some RefEnv.FRaw,
         Hh4 : hdr_at ?g4 ?f0 = hdr_at (RefEnv.setNextPage _ _ _) ?f0,
         Hh0 : hdr_at (env ?s0) ?f0 = Some ?hdr0,
         Hch0 : chain (env ?s0) ?f0 _ ?l0 |- _ =>
           exists (l0 ++ [z]); split; [| right; exists z; reflexivity];
           eapply (chain_new_page f0 (env s0) _ g2 g4 _ hdr0 _ l0 z); try eassumption;
           intros Hhdr4; step_hdr;
           split; [eassumption |];
           split; [reflexivity |]; split; [reflexivity |]; split; [reflexivity |];
           intros p;
           repeat match goal with
                  | Hs : forall q, next_link (RefEnv.store _ ?h1 ?w) ?f1 q = next_link ?w ?f1 q
                    |- next_link (RefEnv.store _ ?h1 ?w) ?f1 _ = _ => rewrite Hs
                  end;
           reflexivity
       end.
  all: match goal with
       | Hh0 : hdr_at (env ?s0) ?f0 = Some ?hdr0, Hch0 : chain (env ?s0) ?f0 _ ?l0 |- _ =>
           exists l0; split; [| left; reflexivity]; step_hdr;
           eapply (chain_same_page f0 (env s0) _ hdr0 _ l0); try eassumption; try reflexivity;
           intros p;
           repeat match goal with
                  | Hs : forall q, next_link (RefEnv.store _ ?h1 ?w) ?f1 q = next_link ?w ?f1 q
                    |- next_link (RefEnv.store _ ?h1 ?w) ?f1 _ = _ => rewrite Hs
                  end;
           auto
       end.
Qed.

Lemma inserts_keep_chain ps dp f recs (h h' : HeapFile (RefEnv.make ps dp))
    (s s' : St (RefEnv.make ps dp)) :
  inserts (RefEnv.make ps dp) recs h s h' s' ->
  forall l,
    handle_ok ps dp f h ->
    header_chain (env s) f l ->
    Z.of_nat (length l) + Z.of_nat (length recs) < INT_MAX ->
    handle_ok ps dp f h' /\
    exists l', header_chain (env s') f l' /\
               (length l' <= length l + length recs)%nat.
Proof.
  induction 1 as [h s | rec recs rid r h h1 h2 s s1 s2 Hins Hrest IH];
    intros l Hok Hhc Hlen.
  - split; [exact Hok |]. exists l. split; [exact Hhc | lia].
  - simpl length in Hlen.
    destruct (insertRecord_keeps_chain ps dp f rec rid h h1 s s1 r l Hok Hhc
                ltac:(lia) Hins) as (Hok1 & l1 & Hhc1 & Hl1).
    assert (Hlen1 : (length l1 <= S (length l))%nat).
    { destruct Hl1 as [-> | [q ->]]; [lia | rewrite length_app; simpl; lia]. }
    destruct (IH l1 Hok1 Hhc1 ltac:(lia)) as (Hok2 & l2 & Hhc2 & Hl2).
    split; [exact Hok2 |]. exists l2. split; [exact Hhc2 |]. simpl. lia.
Qed.

(** The constructor leaves the file as it is and yields a handle whose
    pointers are into the file. *)
Lemma ctor_handle_ok ps dp name (this h : HeapFile (RefEnv.make ps dp))
    (s s' : St (RefEnv.make ps dp)) l :
  header_chain (env s) name l ->
  HeapFile_ctor (RefEnv.make ps dp) this name s = Done (OK, h) s' ->
  handle_ok ps dp name h /\ header_chain (env s') name l.
Proof.
  intros (hdr & Hhdr & Hch & Hlast & Hcnt) Hrun.
  unfold HeapFile_ctor in Hrun.
  unfold bind, openFile, getFirstPage, readPage, load_hdr, deref, ret, logged, bind, deref
    in Hrun.
  simpl in Hrun.
  split_run Hrun.
  all: injection Hrun; intros; subst; digest; try congruence.
  clear Hrun. split.
  - unfold handle_ok. simpl. repeat split; reflexivity.
  - simpl. exists hdr.
    match goal with
    | Hh : hdr_at ?g name = hdr_at (env s) name,
      Hn : forall p, next_link ?g name p = next_link (env s) name p |- _ =>
        split; [congruence |]; split; [| split; assumption];
        apply (chain_ext (env s) g); [intros x _; apply Hn | exact Hch]
    end.
Qed.

(** Through a pool that never evicts (the reference collaborators), when
    [createHeapFile] returns [OK] the header describes a chain of one data
    page with [pageCnt = 1]; and after an [InsertFileScan] is opened on the
    file and any sequence of [insertRecord] calls on it each returned [OK],
    [headerPage.pageCnt] is the number of pages on the chain that starts at
    [firstPage], follows the next-page links and ends at [lastPage], whose
    link is -1: the header and the links are kept in step as long as every
    page is read back as it was left. *)
Lemma pageCnt_counts_chain (ps dp : Z) (name : string) (recs : list Record_)
    (this h h' : HeapFile (RefEnv.make ps dp)) (s0 s1 s2 s3 : St (RefEnv.make ps dp)) :
  Z.of_nat (length recs) < INT_MAX - 1 ->
  createHeapFile (RefEnv.make ps dp) name s0 = Done OK s1 ->
  InsertFileScan_ctor (RefEnv.make ps dp) this name s1 = Done (OK, h) s2 ->
  inserts (RefEnv.make ps dp) recs h s2 h' s3 ->
  header_chain (env s1) name [1] /\
  exists l, header_chain (env s3) name l /\ (length l <= 1 + length recs)%nat.
Proof.
  intros Hlen Hcreate Hctor Hins.
  destruct s0 as [w cs].
  assert (Hc1 : header_chain (env s1) name [1]).
  { destruct (w !! name) as [F |] eqn:Hw.
    - rewrite (createHeapFile_exists (RefEnv.make ps dp) name
                 (mkSt (E := RefEnv.make ps dp) w cs) name _
                 (openFile_existing w name F Hw)) in Hcreate.
      discriminate Hcreate.
    - rewrite (createHeapFile_fresh w name ps dp cs Hw) in Hcreate.
      injection Hcreate as <-. apply fresh_file_chain. }
  split; [exact Hc1 |].
  destruct (ctor_handle_ok ps dp name this h s1 s2 [1] Hc1 Hctor) as [Hok Hc2].
  destruct (inserts_keep_chain ps dp name recs h h' s2 s3 Hins [1] Hok Hc2) as (_ & l & Hl & Hn).
  { simpl. lia. }
  exists l. split; [exact Hl |]. simpl in Hn. lia.
Qed.

Lemma pageCnt_counts_chain_witness :
  header_chain (env c1) "t1" [1] /\
  exists l, header_chain (env c5.2) "t1" l /\ (length l <= 4)%nat.
Proof.
  apply (pageCnt_counts_chain 24 20 "t1" [Runs.recA; Runs.recB; Runs.recA]
           raw1 c2.1 c5.1 st1 c1 c2.2 c5.2).
  - vm_compute. reflexivity.
  - reflexivity.
  - reflexivity.
  - apply (inserts_cons E1 Runs.recA _ NULLRID (mkRID 1 0) c2.1 c3.1 c5.1 c2.2 c3.2 c5.2);
      [reflexivity |].
    apply (inserts_cons E1 Runs.recB _ NULLRID (mkRID 2 0) c3.1 c4.1 c5.1 c3.2 c4.2 c5.2);
      [reflexivity |].
    apply (inserts_cons E1 Runs.recA _ NULLRID (mkRID 3 0) c4.1 c5.1 c5.1 c4.2 c5.2 c5.2);
      [reflexivity |].
    apply inserts_nil.
Defined.

(** ** The link to a new page, under a pool that keeps dirty bits *)

Import Evicted.

(** C4: the invariant is broken by [insertRecord] on a handle that has not
    changed its current page.  "t1" is created, a first [InsertFileScan]
    inserts a record that fills page 1 and is destroyed, and a second
    [InsertFileScan] inserts another record.  This insert returns [OK]; it
    allocates page 2, sets the link of page 1 in its frame and unpins
    page 1 with [dirty = false].  The pool, which writes back only frames
    unpinned dirty, drops that frame: from then on, as read through the
    pool and, after the handle is destroyed, as stored, the header has
    [lastPage = 2] and [pageCnt = 2] while page 1 has the link -1, so the
    chain from [firstPage] is the single page 1 and no chain is described
    by the header. *)
Theorem insertRecord_unpins_relinked_page_clean :
  first_handle st3 = Done OK e1.2 /\
  InsertFileScan_ctor E3 raw3 "t1" e1.2 = Done (OK, e2.1) e2.2 /\
  curPageNo E3 e2.1 = 1 /\ curDirtyFlag E3 e2.1 = false /\
  insertRecord E3 Runs.recB NULLRID e2.1 e2.2 = Done (OK, mkRID 2 0, e3.1.2) e3.2 /\
  calls e3.2 = calls e2.2 ++ [(AllocPage "t1", OK); (UnPinPage "t1" 1 false, OK)] /\
  (hdr_at (PoolEnv.mem (env e3.2)) "t1" = Some (mkHdr "t1" 1 2 2 1) /\
   walk 10 (PoolEnv.mem (env e3.2)) "t1" 1 = Some [1] /\
   forall l, ~ header_chain (PoolEnv.mem (env e3.2)) "t1" l) /\
  (exists b, InsertFileScan_dtor E3 e3.1.2 e3.2 = Done b e4) /\
  (hdr_at (PoolEnv.disk (env e4)) "t1" = Some (mkHdr "t1" 1 2 2 1) /\
   walk 10 (PoolEnv.disk (env e4)) "t1" 1 = Some [1] /\
   forall l, ~ header_chain (PoolEnv.disk (env e4)) "t1" l).
Proof.
  assert (Hno : forall w : gmap string RefEnv.RFile,
             hdr_at w "t1" = Some (mkHdr "t1" 1 2 2 1) ->
             next_link w "t1" 1 = Some (-1) ->
             forall l, ~ header_chain w "t1" l).
  { intros w Hh Hn l (hdr & Hh' & Hch & _ & Hcnt).
    rewrite Hh in Hh'. injection Hh' as <-. simpl in Hch, Hcnt.
    inversion Hch as [p Hend | p n l' Hnext Hne Hrest]; subst.
    - simpl in Hcnt. discriminate Hcnt.
    - rewrite Hn in Hnext. injection Hnext as <-. apply Hne. reflexivity. }
  split; [reflexivity |]. split; [reflexivity |].
  split; [reflexivity |]. split; [reflexivity |].
  split; [reflexivity |]. split; [vm_compute; reflexivity |].
  split.
  { split; [vm_compute; reflexivity |]. split; [vm_compute; reflexivity |].
    apply Hno; vm_compute; reflexivity. }
  split; [eexists; reflexivity |].
  split; [vm_compute; reflexivity |]. split; [vm_compute; reflexivity |].
  apply Hno; vm_compute; reflexivity.
Qed.

(** *** Changes that no dirty flag records *)

(** The plain path of [insertRecord] counts the record in the header and
    leaves [hdrDirtyFlag] clear: the first handle of [Evicted] inserts one
    record and is destroyed, its destructor unpins the header page with
    [dirty = false], and the stored header still counts no record while
    the stored page 1 holds one. *)
Example plain_insert_header_unpinned_clean :
  first_handle st3 = Done OK e1.2 /\
  drop 12 (calls e1.2)
  = [(UnPinPage "t1" 1 true, OK); (UnPinPage "t1" 0 false, OK); (CloseFile "t1", OK)] /\
  hdr_at (PoolEnv.disk (env e1.2)) "t1" = Some (mkHdr "t1" 1 1 1 0) /\
  RefEnv.data_at (PoolEnv.disk (env e1.2)) ("t1", 1)
  = Some (RefEnv.mkRPage 1 (-1) [Some ["A"%byte]]).
Proof.
  split; [reflexivity |]. repeat split; vm_compute; reflexivity.
Qed.

(** [scanNext] keeps [curDirtyFlag] when it moves to the next page: the
    scan of [Trace] that has deleted the record of page 1 moves on, unpins
    page 1 with [dirty = true], and stands on page 2, which it has not
    changed, with the flag still set. *)
Example scanNext_carries_flag_to_next_page :
  match run_op Chain.E1 Trace.next_ Trace.k2.1 Trace.k2.2 with
  | Done (st, h) s =>
      Some (st, curPageNo _ (base _ h), curDirtyFlag _ (base _ h),
            drop (length (calls Trace.k2.2)) (calls s))
  | _ => None
  end
  = Some (OK, 2, true, [(UnPinPage "t1" 1 true, OK); (ReadPage "t1" 2, OK)]).
Proof. vm_compute. reflexivity. Qed.

(** ** Further facts on scans *)

(** Whenever [scanNext] returns [OK], the RID it hands out is the one it
    left in [curRec]. *)
Lemma scanNext_OK_rid (E : Env) (fuel : nat) :
  forall outRid (this this' : HeapFileScan E) (s s' : St E) r,
    scanNext E fuel outRid this s = Done (OK, r, this') s' ->
    r = curRec E (base E this').
Proof.
  induction fuel as [| fuel IH]; intros outRid this this' s s' r Hrun.
  - discriminate Hrun.
  - simpl in Hrun. unfold scanNext_body in Hrun.
    unfold bind, page_firstRecord, page_nextRecord, page_getNextPage,
      HeapFileScan_getRecord, page_getRecord, unPinPage, readPage, lift_opt,
      deref, ret, bind, deref in Hrun.
    split_run Hrun;
      try (apply IH in Hrun; exact Hrun);
      injection Hrun; intros; subst; try reflexivity;
      match goal with
      | H : failed OK = true |- _ => discriminate H
      end.
Qed.

(** [markScan] takes the snapshot. *)
Lemma markScan_snapshot (E : Env) (this : HeapFileScan E) :
  markScan E this
  = (OK, set_marked E (curPageNo E (base E this)) (curRec E (base E this)) this).
Proof. reflexivity. Qed.

(** [resetScan] on the marked page only puts [curRec] back. *)
Lemma resetScan_same_page (E : Env) (this : HeapFileScan E) (s : St E) :
  markedPageNo E this = curPageNo E (base E this) ->
  resetScan E this s = Done (OK, upd E (set_curRec E (markedRec E this)) this) s.
Proof.
  intros H. unfold resetScan.
  rewrite (bool_decide_eq_false_2 _ (fun Hne => Hne H)). reflexivity.
Qed.

(** [resetScan] away from the marked page unpins the current page with
    [curDirtyFlag], reads the marked page, and leaves it current and clean
    with [curRec] put back. *)
Lemma resetScan_other_page (E : Env) (this : HeapFileScan E) (s : St E)
    (p : Ptr E) (w1 w2 : W E) (p' : option (Ptr E)) :
  markedPageNo E this <> curPageNo E (base E this) ->
  curPage E (base E this) = Some p ->
  buf_unPinPage E (filePtr E (base E this)) (curPageNo E (base E this))
    (curDirtyFlag E (base E this)) (env s) = (OK, w1) ->
  buf_readPage E (filePtr E (base E this)) (markedPageNo E this) w1 = (OK, p', w2) ->
  exists this',
    resetScan E this s
    = Done (OK, this')
        (mkSt w2 (calls s ++
           [(UnPinPage (filePtr E (base E this)) (curPageNo E (base E this))
                       (curDirtyFlag E (base E this)), OK);
            (ReadPage (filePtr E (base E this)) (markedPageNo E this), OK)])) /\
    curPageNo E (base E this') = markedPageNo E this /\
    curRec E (base E this') = markedRec E this /\
    curPage E (base E this') = p' /\
    curDirtyFlag E (base E this') = false.
Proof.
  intros Hne Hp Hun Hrd. unfold resetScan.
  rewrite (bool_decide_eq_true_2 _ Hne).
  assert (Hnn : curPage E (base E this) <> None) by (rewrite Hp; discriminate).
  rewrite (bool_decide_eq_true_2 _ Hnn).
  unfold bind, unPinPage, readPage, ret, logged.
  rewrite Hun. simpl. rewrite Hrd. simpl.
  eexists. split; [rewrite <- app_assoc; reflexivity |].
  repeat split; reflexivity.
Qed.

(** The record [scanNext] hands to [matchRec] is the one at the old
    [curRec]: when that record matches, [scanNext] returns the tentative RID
    without the record at that RID being read at all. *)
Lemma scanNext_returns_untested_rid (E : Env) (fuel : nat) (outRid : RID)
    (this : HeapFileScan E) (s : St E) (p : Ptr E) (tmpRid : RID) (rec : Record_) :
  curPage E (base E this) = Some p ->
  ~ (pageNo (curRec E (base E this)) = -1 /\ slotNo (curRec E (base E this)) = -1) ->
  pg_nextRecord E p (curRec E (base E this)) (env s) = (OK, tmpRid) ->
  pg_getRecord E p (curRec E (base E this)) (env s) = (OK, rec) ->
  matchRec E (upd E (set_curRec E tmpRid) this) rec = Some true ->
  scanNext E (S fuel) outRid this s
  = Done (OK, tmpRid, upd E (set_curRec E tmpRid) this) s.
Proof.
  intros Hp Hcur Hnext Hget Hmatch.
  simpl. unfold scanNext_body.
  replace (bool_decide (pageNo (curRec E (base E this)) = -1)
           && bool_decide (slotNo (curRec E (base E this)) = -1)) with false.
  2: { symmetry. apply andb_false_iff.
       destruct (decide (pageNo (curRec E (base E this)) = -1)) as [H1 | H1];
         [| left; apply bool_decide_eq_false_2; exact H1].
       right. apply bool_decide_eq_false_2. intros H2. apply Hcur. split; assumption. }
  unfold bind, page_nextRecord, HeapFileScan_getRecord, page_getRecord, lift_opt, deref, ret.
  repeat first [ rewrite Hp | rewrite Hnext | rewrite Hget | rewrite Hmatch | progress simpl ].
  reflexivity.
Qed.

(** ** Mark and reset across page crossings *)

Import Mark.

(** Over the reference collaborators a [scanNext] that returns [OK] writes
    nothing below the heap layer, keeps the current-page pointer on the page
    [curPageNo], and touches neither the mark nor the filter. *)
Lemma scanNext_keeps ps dp (fuel : nat) :
  forall rid r (this this' : HeapFileScan (RefEnv.make ps dp))
         (s s' : St (RefEnv.make ps dp)),
    scan_ok ps dp this (env s) ->
    scanNext (RefEnv.make ps dp) fuel rid this s = Done (OK, r, this') s' ->
    env s' = env s /\
    scan_ok ps dp this' (env s') /\
    filePtr _ (base _ this') = filePtr _ (base _ this) /\
    markedPageNo _ this' = markedPageNo _ this /\
    markedRec _ this' = markedRec _ this /\
    (position _ this').2 = (position _ this).2.
Proof.
  induction fuel as [| fuel IH]; intros rid r this this' s s' [Hptr Hfr] Hrun.
  - discriminate Hrun.
  - simpl in Hrun. unfold scanNext_body in Hrun.
    unfold bind, page_firstRecord, page_nextRecord, page_getNextPage,
      HeapFileScan_getRecord, page_getRecord, unPinPage, readPage, lift_opt,
      deref, ret, logged, bind, deref in Hrun.
    destruct this as [[fp hp hpn hdf cp cpn cdf cr] so sl sty sf sop mp mr].
    simpl in Hptr, Hfr, Hrun. subst cp.
    split_run Hrun.
    all: repeat match goal with
                | H : failed OK = true |- _ => discriminate H
                | H : failed ?st = false |- _ => apply failed_false in H; try subst st
                end.
    all: try match goal with
             | Hrd : RefEnv.readPage _ _ _ = (OK, _, _) |- _ =>
                 pose proof (readPage_frame _ _ _ _ _ Hrd)
             end.
    all: digest; try congruence.
    all: first
           [ apply IH in Hrun;
             [ destruct Hrun as (He & Hok & Hf & Hm1 & Hm2 & Hpos);
               simpl in *;
               repeat match goal with |- _ /\ _ => split end;
               first [assumption | congruence]
             | split; simpl; first [reflexivity | assumption] ]
           | injection Hrun; intros; subst;
             first [ match goal with
                     | H : failed OK = true |- _ => discriminate H
                     end
                   | simpl; repeat split; first [assumption | reflexivity] ] ].
Qed.

(** The same over any number of [scanNext] calls. *)
Lemma scans_keep ps dp (this this' : HeapFileScan (RefEnv.make ps dp))
    (s s' : St (RefEnv.make ps dp)) :
  scans _ this s this' s' ->
  scan_ok ps dp this (env s) ->
  env s' = env s /\
  scan_ok ps dp this' (env s') /\
  filePtr _ (base _ this') = filePtr _ (base _ this) /\
  markedPageNo _ this' = markedPageNo _ this /\
  markedRec _ this' = markedRec _ this /\
  (position _ this').2 = (position _ this).2.
Proof.
  induction 1 as [this s | fuel rid r this this1 this2 s s1 s2 Hrun _ IH]; intros Hok.
  - repeat match goal with |- _ /\ _ => split end; first [reflexivity | assumption].
  - destruct (scanNext_keeps _ _ _ _ _ _ _ _ _ Hok Hrun) as (He & Hok1 & Hf & Hm1 & Hm2 & Hp).
    destruct (IH Hok1) as (He' & Hok2 & Hf' & Hm1' & Hm2' & Hp').
    repeat match goal with |- _ /\ _ => split end; first [assumption | congruence].
Qed.

(** After [markScan] and any number of [scanNext] calls that return [OK],
    whether or not they cross pages, [resetScan] returns [OK] and puts the
    scan back where it stood at the mark, on the same files and pages. *)
Lemma resetScan_restores ps dp (this0 this2 : HeapFileScan (RefEnv.make ps dp))
    (s0 s2 : St (RefEnv.make ps dp)) :
  scan_ok ps dp this0 (env s0) ->
  scans _ (markScan _ this0).2 s0 this2 s2 ->
  exists this3 s3,
    resetScan _ this2 s2 = Done (OK, this3) s3 /\
    env s3 = env s0 /\
    position _ this3 = position _ this0 /\
    (markedPageNo _ this3, markedRec _ this3)
    = (curPageNo _ (base _ this0), curRec _ (base _ this0)).
Proof.
  intros Hok Hsc.
  assert (Hok1 : scan_ok ps dp (markScan _ this0).2 (env s0)) by exact Hok.
  destruct (scans_keep _ _ _ _ _ _ Hsc Hok1) as (He & [Hptr Hfr] & Hf & Hm1 & Hm2 & Hp).
  destruct Hok as [Hptr0 Hfr0].
  destruct this0 as [[fp hp hpn hdf cp cpn cdf cr] so sl sty sf sop mp mr].
  destruct this2 as [[fp2 hp2 hpn2 hdf2 cp2 cpn2 cdf2 cr2] so2 sl2 sty2 sf2 sop2 mp2 mr2].
  simpl in *. subst. injection Hp; intros; subst.
  destruct (decide (cpn = cpn2)) as [Heq | Hne].
  - subst cpn2. eexists _, _. split.
    + apply resetScan_same_page. reflexivity.
    + repeat split; simpl; congruence.
  - unfold resetScan. simpl.
    rewrite (bool_decide_eq_true_2 _ Hne). simpl.
    unfold bind, unPinPage, readPage, ret, logged. simpl.
    rewrite (unPinPage_exists _ _ _ _ Hfr). simpl.
    rewrite He. rewrite (readPage_exists _ _ _ Hfr0). simpl.
    eexists _, _. split; [reflexivity |].
    repeat split.
Qed.

(** [matchRec] reads the filter and nothing else of the scan. *)
Lemma matchRec_position (E : Env) (a b : HeapFileScan E) (rec : Record_) :
  (position E a).2 = (position E b).2 ->
  matchRec E a rec = matchRec E b rec.
Proof.
  destruct a as [ba so sl sty sf sop mp mr], b as [bb so' sl' sty' sf' sop' mp' mr'].
  simpl. intros H. injection H; intros; subst. reflexivity.
Qed.

(** What [scanNext] does is determined by where the scan stands and by the
    files and pages. *)
Lemma scanNext_position ps dp (fuel : nat) :
  forall rid (a b : HeapFileScan (RefEnv.make ps dp)) (sa sb : St (RefEnv.make ps dp)),
    position _ a = position _ b ->
    env sa = env sb ->
    outcome _ (scanNext _ fuel rid a sa) = outcome _ (scanNext _ fuel rid b sb).
Proof.
  induction fuel as [| fuel IH]; intros rid a b sa sb Hpos Henv.
  - reflexivity.
  - destruct a as [[fp hp hpn hdf cp cpn cdf cr] so sl sty sf sop mp mr].
    destruct b as [[fp' hp' hpn' hdf' cp' cpn' cdf' cr'] so' sl' sty' sf' sop' mp' mr'].
    destruct sa as [w ca], sb as [w' cb].
    injection Hpos; intros; subst. simpl in Henv. subst w'.
    simpl. unfold scanNext_body.
    unfold bind, page_firstRecord, page_nextRecord, page_getNextPage,
      HeapFileScan_getRecord, page_getRecord, unPinPage, readPage, lift_opt,
      deref, ret, logged, bind, deref.
    simpl.
    repeat match goal with
           | |- context [RefEnv.unPinPage ?f ?n cdf ?w0] =>
               rewrite (unPinPage_flag f n cdf cdf' w0)
           | |- context [matchRec ?E ?a ?r] =>
               lazymatch a with context [cdf'] => fail | _ => idtac end;
               match goal with
               | |- context [matchRec E ?b r] =>
                   lazymatch b with context [cdf'] => idtac end;
                   rewrite (matchRec_position E a b r eq_refl)
               end
           | |- context [match ?x with _ => _ end] =>
               lazymatch x with
               | context [match _ with _ => _ end] => fail
               | _ => idtac
               end;
               destruct x eqn:?; simpl
           end.
    all: first [ reflexivity | apply IH; reflexivity ].
Qed.

(** Mark and reset: after [markScan], any number of [scanNext] calls that
    return [OK] and [resetScan], every further [scanNext] does what it would
    have done straight after the mark.  What it does there is what
    [scanNext_returns_untested_rid] describes: it tests the record at the
    marked RID, not the one after it. *)
Lemma mark_reset_resumes ps dp (this0 this2 : HeapFileScan (RefEnv.make ps dp))
    (s0 s2 : St (RefEnv.make ps dp)) :
  scan_ok ps dp this0 (env s0) ->
  scans _ (markScan _ this0).2 s0 this2 s2 ->
  exists this3 s3,
    resetScan _ this2 s2 = Done (OK, this3) s3 /\
    forall fuel rid,
      outcome _ (scanNext _ fuel rid this3 s3) = outcome _ (scanNext _ fuel rid this0 s0).
Proof.
  intros Hok Hsc.
  destruct (resetScan_restores _ _ _ _ _ _ Hok Hsc) as (this3 & s3 & Hrs & He & Hp & _).
  exists this3, s3. split; [exact Hrs |].
  intros fuel rid. apply scanNext_position; assumption.
Qed.

(** * Further properties of the heap-file layer *)

Import Log Runs2.

Ltac log_shape :=
  unfold made, stops_with; simpl; rewrite <- ?app_assoc; simpl.

(** ** HeapFile::HeapFile *)



(** ** createHeapFile *)

(** X2: apart from the second [allocPage], [createHeapFile] stops at the
    first call that fails.  When it returns, either it answers [FILEEXISTS]
    having made the one [openFile], which succeeded; or that [openFile]
    failed, the calls that followed are an initial part of [createFile],
    [openFile], [allocPage], [allocPage], [unPinPage] of the header page,
    [unPinPage] of the data page, [closeFile], the status returned is that of
    the last call made, and every call before the last, other than the
    second [allocPage], returned [OK]. *)
Theorem createHeapFile_checked_calls (E : Env) (name : string) (s s' : St E)
    (st : Status) :
  createHeapFile E name s = Done st s' ->
  exists l,
    made s s' l /\
    ((st = FILEEXISTS /\ l = [(OpenFile name, OK)]) \/
     (exists st0 l' f n1 n2,
         l = (OpenFile name, st0) :: l' /\ st0 <> OK /\
         l'.*1 `prefix_of` [CreateFile name; OpenFile name; AllocPage f; AllocPage f;
                            UnPinPage f n1 true; UnPinPage f n2 true; CloseFile f] /\
         last (l'.*2) = Some st /\
         forall (i : nat) (x : Status),
           l'.*2 !! i = Some x -> i <> 3%nat -> S i <> length l' -> x = OK)).
Proof.
  intros Hrun.
  unfold createHeapFile, bind, openFile, createFile, allocPage, unPinPage, closeFile,
    page_init, modify_hdr, deref, ret, logged in Hrun.
  split_run Hrun.
  all: injection Hrun; intros; subst.
  all: repeat match goal with
              | H : failed OK = true |- _ => discriminate H
              | H : failed ?x = false |- _ => apply failed_false in H; try subst x
              | H : failed ?x = true |- _ => apply failed_spec in H
              end.
  all: log_shape; eexists; (split; [reflexivity |]).
  all: first [ left; split; reflexivity
             | right; eexists _, _, _, _, _; split; [reflexivity |];
               split; [assumption |]; simpl;
               split; [eexists; reflexivity |];
               split; [reflexivity |];
               intros i x Hi H3 Hlast;
               repeat (destruct i as [| i];
                       [ simpl in Hi; injection Hi as <-;
                         first [reflexivity | exfalso; simpl in Hlast; congruence] |]);
               discriminate Hi ].
  Unshelve.
  all: first [exact 0 | assumption].
Qed.

Lemma createHeapFile_checked_calls_witness :
  exists l, made st0 s_t1 l /\ length l = 8%nat.
Proof.
  destruct (createHeapFile_checked_calls E0 "t1" st0 s_t1 OK eq_refl)
    as (l & Hl & Hcase).
  exists l. split; [exact Hl |].
  unfold made in Hl. simpl in Hl. subst l. reflexivity.
Defined.

(** ** HeapFileScan::~HeapFileScan *)

(** X3: the destructor of a scan, which runs [endScan] and then the base
    destructor, unpins the current data page at most once, with
    [curDirtyFlag], then unpins the header page with [hdrDirtyFlag] and
    closes the file, whatever status each of these calls returns. *)
Theorem HeapFileScan_dtor_unpins_once (E : Env) (this : HeapFileScan E) (s : St E)
    (q : Ptr E) :
  headerPage E (base E this) = Some q ->
  exists this' s' l,
    HeapFileScan_dtor E this s = Done this' s' /\
    made s s' l /\
    l.*1 = (if bool_decide (curPage E (base E this) <> None)
            then [UnPinPage (filePtr E (base E this)) (curPageNo E (base E this))
                            (curDirtyFlag E (base E this))]
            else [])
           ++ [UnPinPage (filePtr E (base E this)) (headerPageNo E (base E this))
                         (hdrDirtyFlag E (base E this));
               CloseFile (filePtr E (base E this))] /\
    curPage E (base E this') = None.
Proof.
  intros Hq.
  destruct this as [[fp hp hpn hdf cp cpn cdf cr] so sl sty sf sop mp mr].
  simpl in Hq. subst hp.
  unfold HeapFileScan_dtor, endScan, HeapFile_dtor, bind, unPinPage, closeFile,
    load_hdr, deref, ret, logged.
  simpl.
  destruct cp as [p |]; simpl.
  - destruct (buf_unPinPage E fp cpn cdf (env s)) as [st1 w1]. simpl.
    destruct (buf_unPinPage E fp hpn hdf w1) as [st2 w2]. simpl.
    destruct (db_closeFile E fp w2) as [st3 w3]. simpl.
    eexists _, _, _. split; [reflexivity |]. log_shape.
    split; [reflexivity |]. split; reflexivity.
  - destruct (buf_unPinPage E fp hpn hdf (env s)) as [st2 w2]. simpl.
    destruct (db_closeFile E fp w2) as [st3 w3]. simpl.
    eexists _, _, _. split; [reflexivity |]. log_shape.
    split; [reflexivity |]. split; reflexivity.
Qed.

Lemma HeapFileScan_dtor_unpins_once_witness :
  exists this' s' l,
    HeapFileScan_dtor E0 scan_t1 s_t1 = Done this' s' /\
    made s_t1 s' l /\
    l.*1 = [UnPinPage "t1" 1 false; UnPinPage "t1" 0 false; CloseFile "t1"] /\
    curPage E0 (base E0 this') = None.
Proof.
  exact (HeapFileScan_dtor_unpins_once E0 scan_t1 s_t1 ("t1", 0) eq_refl).
Defined.

(** ** HeapFileScan::endScan *)

(** X4: [endScan] always returns, and a second [endScan] after it makes no
    call, changes nothing and returns [OK], whatever the first returned. *)
Theorem endScan_twice (E : Env) (this : HeapFileScan E) (s : St E) :
  exists st this1 s1,
    endScan E this s = Done (st, this1) s1 /\
    endScan E this1 s1 = Done (OK, this1) s1.
Proof.
  destruct this as [[fp hp hpn hdf cp cpn cdf cr] so sl sty sf sop mp mr].
  unfold endScan, bind, unPinPage, ret, logged. simpl.
  destruct cp as [p |]; simpl.
  - destruct (buf_unPinPage E fp cpn cdf (env s)) as [st1 w1]. simpl.
    eexists _, _, _. split; reflexivity.
  - eexists _, _, _. split; reflexivity.
Qed.

(** ** HeapFile::getRecord *)

(** X5: [HeapFile::getRecord(rid, rec)] makes no call when [rid] is on the
    current page.  When [rid] is on another page it calls [unPinPage] of
    the current page with [curDirtyFlag]: if that fails, this is its only
    call, its status is returned and the handle and [rec] are untouched;
    if it succeeds, the next and last call is [readPage] of page
    [rid.pageNo], the dirty flag is now clear, and a failure of the read is
    returned with [rec] and [curPageNo] untouched (although [curPage] has
    been overwritten), while a success makes [rid.pageNo] the current
    page.  When it returns [OK], [curRec = rid] and
    [curPageNo = rid.pageNo]; whenever it fails, [curRec] is what it
    was. *)
Theorem HeapFile_getRecord_moves_on_success (E : Env) (rid : RID) (rec r : Record_)
    (this this' : HeapFile E) (s s' : St E) (st : Status) :
  HeapFile_getRecord E rid rec this s = Done (st, r, this') s' ->
  (st = OK -> curRec E this' = rid /\ curPageNo E this' = pageNo rid) /\
  (st <> OK -> curRec E this' = curRec E this) /\
  exists l,
    made s s' l /\
    l.*1 `prefix_of` [UnPinPage (filePtr E this) (curPageNo E this) (curDirtyFlag E this);
                      ReadPage (filePtr E this) (pageNo rid)] /\
    (pageNo rid = curPageNo E this ->
     l = [] /\ curDirtyFlag E this' = curDirtyFlag E this /\
     curPage E this' = curPage E this) /\
    (pageNo rid <> curPageNo E this ->
     (exists st1,
         l = [(UnPinPage (filePtr E this) (curPageNo E this) (curDirtyFlag E this), st1)] /\
         st1 <> OK /\ this' = this) \/
     (exists st2,
         l = [(UnPinPage (filePtr E this) (curPageNo E this) (curDirtyFlag E this), OK);
              (ReadPage (filePtr E this) (pageNo rid), st2)] /\
         curDirtyFlag E this' = false /\
         (st2 = OK -> curPageNo E this' = pageNo rid))) /\
    Forall (fun x => x = OK) (removelast (l.*2)) /\
    (forall x, last (l.*2) = Some x -> x <> OK ->
               st = x /\ r = rec /\ curPageNo E this' = curPageNo E this).
Proof.
  intros Hrun.
  destruct this as [fp hp hpn hdf cp cpn cdf cr].
  unfold HeapFile_getRecord, bind, unPinPage, readPage, page_getRecord, deref, ret,
    logged in Hrun.
  simpl in Hrun.
  split_run Hrun.
  all: injection Hrun; intros; subst.
  all: repeat match goal with
              | H : failed OK = true |- _ => discriminate H
              | H : failed ?x = false |- _ => apply failed_false in H; try subst x
              | H : failed ?x = true |- _ => apply failed_spec in H
              | H : bool_decide _ = true |- _ => apply bool_decide_eq_true_1 in H
              | H : bool_decide _ = false |- _ =>
                  apply bool_decide_eq_false_1 in H; apply dec_stable in H
              end.
  all: simpl; split; [intros HOK; first [split; congruence | contradiction] |].
  all: split; [intros HOK; first [reflexivity | contradiction] |].
  all: log_shape;
    first [ exists []; split; [symmetry; apply app_nil_r |] | eexists; split; [reflexivity |] ].
  all: simpl; split; [eexists; reflexivity |].
  all: split; [intros Heq; first [repeat split; reflexivity | contradiction] |].
  all: split;
    [ intros Hne;
      first [ contradiction
            | left; eexists; split; [reflexivity |]; split; [assumption | reflexivity]
            | right; eexists; split; [reflexivity |]; split; [reflexivity |];
              intros _; reflexivity
            | right; eexists; split; [reflexivity |]; split; [reflexivity |];
              intros HOK; contradiction ] |].
  all: split; [repeat constructor |].
  all: intros x Hx Hne; first [discriminate Hx | injection Hx as <-; first [repeat split; reflexivity | contradiction] ].
Qed.

(** A handle on page 3 of a three-page file fetches record (1, 0): page 3
    is unpinned with the dirty flag it had, page 1 is read and becomes the
    current page, with a clear dirty flag. *)
Lemma HeapFile_getRecord_moves_on_success_witness :
  curPageNo E1 c5.1 = 3 /\ curDirtyFlag E1 c5.1 = true /\
  get_c5.1.1.1 = OK /\
  curRec E1 get_c5.1.2 = mkRID 1 0 /\ curPageNo E1 get_c5.1.2 = 1 /\
  curDirtyFlag E1 get_c5.1.2 = false /\
  exists l, made c5.2 get_c5.2 l /\
            l = [(UnPinPage "t1" 3 true, OK); (ReadPage "t1" 1, OK)].
Proof.
  destruct (HeapFile_getRecord_moves_on_success E1 (mkRID 1 0) (mkRecord [] 0)
              get_c5.1.1.2 c5.1 get_c5.1.2 c5.2 get_c5.2 get_c5.1.1.1 eq_refl)
    as (Hok & _ & l & Hl & _ & _ & Hmove & _).
  split; [reflexivity |]. split; [reflexivity |]. split; [reflexivity |].
  split; [exact (proj1 (Hok eq_refl)) |].
  split; [exact (proj2 (Hok eq_refl)) |].
  assert (Hne : pageNo (mkRID 1 0) <> curPageNo E1 c5.1) by (vm_compute; discriminate).
  destruct (Hmove Hne) as [(st1 & Hl1 & _) | (st2 & Hl2 & Hflag & _)].
  - exfalso. unfold made in Hl. rewrite Hl1 in Hl.
    apply (f_equal length) in Hl. rewrite length_app in Hl. vm_compute in Hl.
    discriminate Hl.
  - split; [exact Hflag |].
    exists l. split; [exact Hl |].
    unfold made in Hl. rewrite Hl2 in Hl. rewrite Hl2.
    assert (Hst : st2 = OK).
    { assert (Hlast : last (calls get_c5.2)
                      = last (calls c5.2 ++ [(UnPinPage (filePtr E1 c5.1) (curPageNo E1 c5.1)
                                                (curDirtyFlag E1 c5.1), OK);
                                             (ReadPage (filePtr E1 c5.1) (pageNo (mkRID 1 0)),
                                              st2)]))
        by (rewrite Hl; reflexivity).
      rewrite last_app in Hlast. simpl in Hlast.
      vm_compute in Hlast. injection Hlast as <-. reflexivity. }
    rewrite Hst. reflexivity.
Defined.

(** ** HeapFileScan::startScan *)

(** X6: with a filter, [startScan] returns [OK] exactly when the parameters
    are valid, and it then stores all five of them; the inherited members
    and the mark are left as they were in either case. *)
Theorem startScan_accepts_exactly_valid (E : Env) (offset_ length_ : Z)
    (type_ : Datatype) (fltr : list byte) (op_ : Operator) (this : HeapFileScan E) :
  is_int length_ ->
  ((startScan E offset_ length_ type_ (Some fltr) op_ this).1 = OK
   <-> ~ bad_scan_params offset_ length_ type_ op_) /\
  (~ bad_scan_params offset_ length_ type_ op_ ->
   startScan E offset_ length_ type_ (Some fltr) op_ this
   = (OK, set_params E offset_ length_ type_ (Some fltr) op_ this)) /\
  base E (startScan E offset_ length_ type_ (Some fltr) op_ this).2 = base E this /\
  markedPageNo E (startScan E offset_ length_ type_ (Some fltr) op_ this).2
  = markedPageNo E this /\
  markedRec E (startScan E offset_ length_ type_ (Some fltr) op_ this).2
  = markedRec E this.
Proof.
  intros Hint.
  assert (Hsz : 0 <= length_ -> to_size_t length_ = length_)
    by (intros H0; apply to_size_t_small; assumption).
  unfold startScan, bad_scan_params, sizeof_int, sizeof_float in *.
  destruct (offset_ <? 0) eqn:Ho; [apply Z.ltb_lt in Ho | apply Z.ltb_ge in Ho];
    destruct (length_ <? 1) eqn:Hl; [apply Z.ltb_lt in Hl | apply Z.ltb_ge in Hl
                                    | apply Z.ltb_lt in Hl | apply Z.ltb_ge in Hl ];
    simpl.
  1-3: repeat split; try discriminate; try (intros Hn; exfalso; apply Hn; lia);
       intros [_ Hn]; exfalso; apply Hn; lia.
  rewrite Hsz by lia.
  repeat match goal with
         | |- context [bool_decide ?P] => destruct (bool_decide_reflect P); simpl
         end.
  all: repeat split; try discriminate; try reflexivity; try tauto; try lia.
  all: try (intros _; intros Hbad; decompose [or and] Hbad; subst; try lia; try congruence; try tauto).
  all: try (intros Hn; exfalso; apply Hn; tauto).
Qed.

Lemma startScan_accepts_exactly_valid_witness :
  startScan E0 0 4 INTEGER (Some [x05; x00; x00; x00]) GTE raw_scan
  = (OK, set_params E0 0 4 INTEGER (Some [x05; x00; x00; x00]) GTE raw_scan).
Proof.
  assert (Hint : is_int 4) by (vm_compute; split; discriminate).
  destruct (startScan_accepts_exactly_valid E0 0 4 INTEGER [x05; x00; x00; x00] GTE
              raw_scan Hint) as (_ & Hacc & _).
  apply Hacc. unfold bad_scan_params, sizeof_int, sizeof_float.
  intros [H | [H | [H | [H | [H | H]]]]].
  - lia.
  - lia.
  - destruct H as (_ & H & _). apply H. reflexivity.
  - destruct H as [_ H]. apply H. reflexivity.
  - destruct H as [H _]. discriminate H.
  - destruct H as (_ & _ & _ & H & _). apply H. reflexivity.
Defined.

(** ** HeapFileScan::scanNext *)

Import Pins.

(** X7: [scanNext] writes the caller's RID only when it returns [OK], and
    then with the RID it left in [curRec]; on every other return, [FILEEOF]
    included, the caller's variable holds what it held before the call. *)
Theorem scanNext_writes_rid_only_on_OK (E : Env) (fuel : nat) :
  forall (outRid r : RID) (this this' : HeapFileScan E) (s s' : St E) (st : Status),
    scanNext E fuel outRid this s = Done (st, r, this') s' ->
    (st = OK -> r = curRec E (base E this')) /\ (st <> OK -> r = outRid).
Proof.
  induction fuel as [| fuel IH]; intros outRid r this this' s s' st Hrun.
  - discriminate Hrun.
  - simpl in Hrun. unfold scanNext_body in Hrun.
    unfold bind, page_firstRecord, page_nextRecord, page_getNextPage,
      HeapFileScan_getRecord, page_getRecord, unPinPage, readPage, lift_opt,
      deref, ret, bind, deref in Hrun.
    split_run Hrun;
      try (apply IH in Hrun; exact Hrun);
      injection Hrun; intros; subst;
      repeat match goal with
             | H : failed OK = true |- _ => discriminate H
             | H : failed ?x = false |- _ => apply failed_false in H; try subst x
             | H : failed ?x = true |- _ => apply failed_spec in H
             end;
      split; intros HOK; first [reflexivity | contradiction | discriminate HOK].
Qed.

Lemma scanNext_writes_rid_only_on_OK_witness :
  (OK = OK -> next_c5.1.1 = curRec E1 (base E1 next_c5.1.2)) /\
  (OK <> OK -> next_c5.1.1 = NULLRID).
Proof.
  exact (scanNext_writes_rid_only_on_OK E1 4 NULLRID next_c5.1.1
           (markScan E1 scan_c5).2 next_c5.1.2 c5.2 next_c5.2 OK eq_refl).
Defined.

(** With [Hu] and [Hr] saying that [unPinPage] and [readPage] leave the
    pages alone, the state after each such call is the state before it. *)
Ltac worlds_fixed Hu Hr :=
  repeat match goal with
         | H : buf_unPinPage _ ?f ?n ?d ?w = (_, ?w1) |- _ =>
             let Hw := fresh in
             pose proof (Hu f n d w) as Hw; rewrite H in Hw; simpl in Hw;
             clear H; try subst w1
         | H : buf_readPage _ ?f ?n ?w = (_, _, ?w1) |- _ =>
             let Hw := fresh in
             pose proof (Hr f n w) as Hw; rewrite H in Hw; simpl in Hw;
             clear H; try subst w1
         end.

(** X8: the only calls [scanNext] makes are [unPinPage] and [readPage], and
    of the scan object it changes nothing but [curPage], [curPageNo] and
    [curRec]: the mark, the filter and both dirty flags are what they were,
    so a page reached by crossing inherits the [curDirtyFlag] of the page
    left.  With a buffer manager whose [unPinPage] and [readPage] leave the
    pages alone, [scanNext] leaves them alone. *)
Theorem scanNext_reads_only (E : Env) (fuel : nat) :
  forall (outRid r : RID) (this this' : HeapFileScan E) (s s' : St E) (st : Status),
    scanNext E fuel outRid this s = Done (st, r, this') s' ->
    (exists l, made s s' l /\ forallb is_pin_traffic (l.*1) = true) /\
    this' = upd E (set_curRec E (curRec E (base E this')))
              (upd E (set_curPage E (curPage E (base E this')))
                 (upd E (set_curPageNo E (curPageNo E (base E this'))) this)) /\
    ((forall f n d w, (buf_unPinPage E f n d w).2 = w) ->
     (forall f n w, (buf_readPage E f n w).2 = w) ->
     env s' = env s).
Proof.
  induction fuel as [| fuel IH]; intros outRid r this this' s s' st Hrun.
  - discriminate Hrun.
  - simpl in Hrun. unfold scanNext_body in Hrun.
    unfold bind, page_firstRecord, page_nextRecord, page_getNextPage,
      HeapFileScan_getRecord, page_getRecord, unPinPage, readPage, lift_opt,
      deref, ret, logged, bind, deref in Hrun.
    destruct this as [[fp hp hpn hdf cp cpn cdf cr] so sl sty sf sop mp mr].
    simpl in Hrun.
    split_run Hrun.
    all: first
           [ apply IH in Hrun; destruct Hrun as ((l & Hl & Hf) & Hthis & Henv);
             unfold made in Hl; simpl in Hl, Hthis, Henv;
             split; [| split];
             [ log_shape; rewrite Hl; rewrite <- ?app_assoc; simpl;
               eexists; split; [reflexivity |]; simpl; exact Hf
             | rewrite Hthis at 1; reflexivity
             | intros Hu Hr; rewrite (Henv Hu Hr);
               worlds_fixed Hu Hr; reflexivity ]
           | injection Hrun; intros; subst;
             split; [| split];
             [ log_shape; first [ exists []; split; [symmetry; apply app_nil_r | reflexivity]
                                | eexists; split; [reflexivity |]; reflexivity ]
             | reflexivity
             | intros Hu Hr; simpl;
               worlds_fixed Hu Hr; reflexivity ] ].
Qed.

Lemma scanNext_reads_only_witness :
  exists l, made c5.2 next_c5.2 l /\ forallb is_pin_traffic (l.*1) = true.
Proof.
  exact (proj1 (scanNext_reads_only E1 4 NULLRID next_c5.1.1
                  (markScan E1 scan_c5).2 next_c5.1.2 c5.2 next_c5.2 OK eq_refl)).
Defined.

(** ** InsertFileScan::insertRecord *)

(** X9: [insertRecord] looks at the status of the page's [insertRecord]
    only to see whether it is [NOSPACE].  On the last page, when the page
    answers any other status, a failure included, [insertRecord] makes no
    call, sets [curDirtyFlag], counts the record in [recCnt], takes the RID
    the page wrote as [curRec] and returns [OK]. *)
Theorem insertRecord_OK_unless_NOSPACE (E : Env) (rec : Record_) (outRid rid : RID)
    (this : HeapFile E) (s : St E) (q p : Ptr E) (st : Status) (w : W E) :
  wrap_unsigned (length_ rec) <= wrap_unsigned (PAGESIZE E - DPFIXED E) ->
  headerPage E this = Some q ->
  curPage E this = Some p ->
  curPageNo E this = lastPage (hdr_load E q (env s)) ->
  pg_insertRecord E p rec (env s) = (st, rid, w) ->
  st <> NOSPACE ->
  insertRecord E rec outRid this s
  = Done (OK, rid, set_curRec E rid (set_curDirtyFlag E true this))
      (mkSt (hdr_store E q (set_recCnt (int_add (recCnt (hdr_load E q w)) 1)
                                       (hdr_load E q w)) w)
            (calls s)).
Proof.
  intros Hlen Hq Hp Hlast Hins Hst.
  unfold insertRecord.
  destruct (wrap_unsigned (length_ rec) >? wrap_unsigned (PAGESIZE E - DPFIXED E)) eqn:Hg;
    [apply Z.gtb_lt in Hg; lia |].
  unfold bind, load_hdr, modify_hdr, deref, ret, page_insertRecord, bind, deref.
  rewrite Hq. simpl.
  rewrite (bool_decide_eq_false_2 _ (fun Hne => Hne Hlast)). simpl.
  rewrite Hp. simpl. rewrite Hins. simpl.
  rewrite (bool_decide_eq_false_2 _ Hst). simpl. rewrite Hq. reflexivity.
Qed.

Lemma insertRecord_OK_unless_NOSPACE_witness :
  insertRecord E_refuse recA NULLRID h_refuse s_refuse
  = Done (OK, NULLRID, set_curRec E_refuse NULLRID (set_curDirtyFlag E_refuse true h_refuse))
      s_refuse.
Proof.
  apply (insertRecord_OK_unless_NOSPACE E_refuse recA NULLRID NULLRID h_refuse s_refuse
           0 1 (OTHER 9) 0%nat).
  - vm_compute. discriminate.
  - reflexivity.
  - reflexivity.
  - reflexivity.
  - reflexivity.
  - discriminate.
Defined.

(** X10: the calls [insertRecord] makes are calls to the buffer manager, at
    most four of them ([unPinPage] and [readPage] to move to the last page,
    [allocPage] and [unPinPage] when that page is full); it stops at the
    first that fails and returns its status.  When it returns [OK] the RID
    handed out is [curRec]. *)
Theorem insertRecord_stops_at_first_failure (E : Env) (rec : Record_) (outRid r : RID)
    (this this' : HeapFile E) (s s' : St E) (st : Status) :
  insertRecord E rec outRid this s = Done (st, r, this') s' ->
  (exists l,
      made s s' l /\
      forallb is_buffer_call (l.*1) = true /\
      (length l <= 4)%nat /\
      Forall (fun x => x = OK) (removelast (l.*2)) /\
      (forall x, last (l.*2) = Some x -> x <> OK -> st = x)) /\
  (st = OK -> curRec E this' = r).
Proof.
  intros Hrun.
  unfold insertRecord in Hrun.
  destruct (wrap_unsigned (length_ rec) >? wrap_unsigned (PAGESIZE E - DPFIXED E)).
  { injection Hrun; intros; subst. split; [| discriminate].
    exists []. unfold made. rewrite app_nil_r. simpl.
    repeat split; [lia | constructor | discriminate]. }
  unfold bind, load_hdr, modify_hdr, deref, ret, unPinPage, readPage, allocPage,
    page_insertRecord, page_init, page_setNextPage, bind, deref, logged in Hrun.
  split_run Hrun.
  all: injection Hrun; intros; subst.
  all: repeat match goal with
              | H : failed OK = true |- _ => discriminate H
              | H : failed ?x = false |- _ => apply failed_false in H; try subst x
              | H : failed ?x = true |- _ => apply failed_spec in H
              end.
  all: split; [| intros HOK; first [reflexivity | contradiction]].
  all: log_shape;
    first [ exists []; split; [symmetry; apply app_nil_r |] | eexists; split; [reflexivity |] ].
  all: simpl; split; [reflexivity |]; split; [lia |]; split; [repeat constructor |].
  all: intros x Hx Hne;
    first [discriminate Hx | injection Hx as <-; first [reflexivity | contradiction]].
Qed.

Lemma insertRecord_stops_at_first_failure_witness :
  exists l, made c4.2 c5.2 l /\ forallb is_buffer_call (l.*1) = true /\ (length l <= 4)%nat.
Proof.
  destruct (insertRecord_stops_at_first_failure E1 recA NULLRID (mkRID 3 0) c4.1 c5.1
              c4.2 c5.2 OK eq_refl) as [(l & Hl & Hb & Hn & _) _].
  exists l. split; [exact Hl |]. split; [exact Hb | exact Hn].
Defined.

(** ** Over the reference collaborators *)

Import Sound.

Local Transparent RefEnv.unPinPage RefEnv.readPage RefEnv.allocPage RefEnv.insertRecord
  RefEnv.init RefEnv.setNextPage RefEnv.load RefEnv.store RefEnv.openFile
  RefEnv.getFirstPage RefEnv.createFile RefEnv.closeFile.

Lemma hdr_at_frame (w : gmap string RefEnv.RFile) f h :
  hdr_at w f = Some h <-> RefEnv.frame_at w (f, 0) = Some (RefEnv.FHdr h).
Proof.
  unfold hdr_at. destruct (RefEnv.frame_at w (f, 0)) as [[| hh | d] |]; split; congruence.
Qed.

Lemma data_at_frame (w : gmap string RefEnv.RFile) p d :
  RefEnv.data_at w p = Some d <-> RefEnv.frame_at w p = Some (RefEnv.FData d).
Proof.
  unfold RefEnv.data_at. destruct (RefEnv.frame_at w p) as [[| hh | d0] |]; split; congruence.
Qed.

Lemma heap_ok_ext (w w1 : gmap string RefEnv.RFile) f h :
  (forall p, RefEnv.frame_at w1 (f, p) = RefEnv.frame_at w (f, p)) ->
  heap_ok w f h -> heap_ok w1 f h.
Proof.
  intros Hsame [Hh Hn]. split.
  - unfold hdr_at. rewrite Hsame. exact Hh.
  - intros n d Hd. apply (Hn n d). unfold RefEnv.data_at in *. rewrite <- Hsame. exact Hd.
Qed.

(** Writing a data page that carries its number over a raw or data frame. *)
Lemma heap_ok_set_data (w : gmap string RefEnv.RFile) f h p fr0 d' :
  heap_ok w f h ->
  RefEnv.frame_at w (f, p) = Some fr0 ->
  (forall h0, fr0 <> RefEnv.FHdr h0) ->
  RefEnv.rp_no d' = p ->
  heap_ok (RefEnv.set_frame w (f, p) (RefEnv.FData d')) f h.
Proof.
  intros [Hh Hn] Hfr Hnh Hno.
  apply hdr_at_frame in Hh.
  assert (Hp : p <> 0) by (intros ->; rewrite Hh in Hfr; injection Hfr as <-; eapply Hnh; reflexivity).
  split.
  - apply hdr_at_frame. rewrite frame_at_set_frame.
    destruct (decide (p = 0)); [contradiction | exact Hh].
  - intros n d Hd. apply data_at_frame in Hd. rewrite frame_at_set_frame in Hd.
    destruct (decide (p = n)) as [<- | Hne].
    + rewrite Hfr in Hd. congruence.
    + apply (Hn n d). apply data_at_frame. exact Hd.
Qed.

Lemma heap_ok_store (w : gmap string RefEnv.RFile) f h0 h :
  heap_ok w f h0 -> heap_ok (RefEnv.store (f, 0) h w) f h.
Proof.
  intros [Hh Hn]. apply hdr_at_frame in Hh. unfold RefEnv.store. split.
  - apply hdr_at_frame. rewrite frame_at_set_frame, Hh.
    destruct (decide (0 = 0)); [reflexivity | contradiction].
  - intros n d Hd. apply data_at_frame in Hd. rewrite frame_at_set_frame, Hh in Hd.
    destruct (decide (0 = n)) as [<- | Hne]; [discriminate |].
    apply (Hn n d). apply data_at_frame. exact Hd.
Qed.

Lemma data_at_store (w : gmap string RefEnv.RFile) f h0 h p :
  hdr_at w f = Some h0 ->
  RefEnv.data_at (RefEnv.store (f, 0) h w) (f, p) = RefEnv.data_at w (f, p).
Proof.
  intros Hh. apply hdr_at_frame in Hh.
  unfold RefEnv.data_at, RefEnv.store. rewrite frame_at_set_frame, Hh.
  destruct (decide (0 = p)) as [<- | Hne]; [rewrite Hh |]; reflexivity.
Qed.

Lemma getRecord_store (w : gmap string RefEnv.RFile) f h0 h p rid :
  hdr_at w f = Some h0 ->
  RefEnv.getRecord (f, p) rid (RefEnv.store (f, 0) h w) = RefEnv.getRecord (f, p) rid w.
Proof.
  intros Hh. unfold RefEnv.getRecord. rewrite (data_at_store w f h0 h p Hh). reflexivity.
Qed.

Lemma heap_ok_alloc (w w1 : gmap string RefEnv.RFile) f h q o :
  RefEnv.allocPage f w = (OK, q, o, w1) ->
  heap_ok w f h ->
  o = Some (f, q) /\ RefEnv.frame_at w1 (f, q) = Some RefEnv.FRaw /\ heap_ok w1 f h.
Proof.
  intros H [Hh Hn].
  destruct (allocPage_OK f w w1 q o H) as (Ho & Hq & Hnone & Hraw & Hsame).
  apply hdr_at_frame in Hh.
  assert (Hq0 : q <> 0) by (intros ->; congruence).
  split; [exact Ho |]. split; [exact Hraw |]. split.
  - apply hdr_at_frame. rewrite Hsame by congruence. exact Hh.
  - intros n d Hd. apply data_at_frame in Hd.
    destruct (decide (n = q)) as [-> | Hne]; [congruence |].
    rewrite Hsame in Hd by exact Hne. apply (Hn n d). apply data_at_frame. exact Hd.
Qed.

Lemma heap_ok_init (w : gmap string RefEnv.RFile) f h q :
  RefEnv.frame_at w (f, q) = Some RefEnv.FRaw ->
  heap_ok w f h -> heap_ok (RefEnv.init (f, q) q w) f h.
Proof.
  intros Hraw Hok. unfold RefEnv.init.
  apply (heap_ok_set_data w f h q RefEnv.FRaw); [exact Hok | exact Hraw | discriminate | reflexivity].
Qed.

Lemma heap_ok_setNextPage (w : gmap string RefEnv.RFile) f h p n :
  heap_ok w f h -> heap_ok (RefEnv.setNextPage (f, p) n w) f h.
Proof.
  intros Hok. unfold RefEnv.setNextPage.
  destruct (RefEnv.data_at w (f, p)) as [d |] eqn:Hd; [| exact Hok].
  apply (heap_ok_set_data w f h p (RefEnv.FData d)).
  - exact Hok.
  - apply data_at_frame. exact Hd.
  - discriminate.
  - simpl. apply (proj2 Hok p d Hd).
Qed.

(** [Page::insertRecord] answers [OK] or [NOSPACE]; after [OK] the RID
    names the page and the record can be fetched there. *)
Lemma heap_ok_insertRecord ps dp (w w1 : gmap string RefEnv.RFile) f h p rec st rid :
  RefEnv.insertRecord ps dp (f, p) rec w = (st, rid, w1) ->
  heap_ok w f h ->
  heap_ok w1 f h /\
  (st = OK \/ st = NOSPACE) /\
  (st = OK -> pageNo rid = p /\ RefEnv.getRecord (f, p) rid w1 = (OK, stored rec)).
Proof.
  intros H Hok. unfold RefEnv.insertRecord in H.
  destruct (RefEnv.data_at w (f, p)) as [d |] eqn:Hd.
  2: { injection H as <- <- <-. split; [exact Hok |]. split; [right; reflexivity | discriminate]. }
  destruct (_ && _).
  2: { injection H as <- <- <-. split; [exact Hok |]. split; [right; reflexivity | discriminate]. }
  injection H as <- <- <-.
  pose proof (proj2 Hok p d Hd) as Hno.
  pose proof (proj1 (data_at_frame _ _ _) Hd) as Hfr.
  split; [| split; [left; reflexivity |]].
  - apply (heap_ok_set_data w f h p (RefEnv.FData d)); [exact Hok | exact Hfr | discriminate | exact Hno].
  - intros _. split; [exact Hno |].
    unfold RefEnv.getRecord, RefEnv.data_at. rewrite frame_at_set_frame, Hfr.
    destruct (decide (p = p)); [| contradiction]. simpl.
    destruct (Z.of_nat (length (RefEnv.rp_slots d)) <? 0) eqn:Hneg;
      [apply Z.ltb_lt in Hneg; lia |].
    rewrite Nat2Z.id, lookup_app_r by lia. rewrite Nat.sub_diag. reflexivity.
Qed.

(** After [Page::deleteRecord], whatever it answered, there is no record
    at the RID; it answers [OK] exactly when there was one. *)
Lemma deleteRecord_page (w w1 : gmap string RefEnv.RFile) f p rid st :
  RefEnv.deleteRecord (f, p) rid w = (st, w1) ->
  hdr_at w1 f = hdr_at w f /\
  RefEnv.getRecord (f, p) rid w1 = (RefEnv.INVALIDSLOTNO, mkRecord [] 0) /\
  (st = OK <-> (RefEnv.getRecord (f, p) rid w).1 = OK).
Proof.
  intros H. unfold RefEnv.deleteRecord in H. unfold RefEnv.getRecord.
  destruct (RefEnv.data_at w (f, p)) as [d |] eqn:Hd.
  2: { injection H as <- <-. rewrite Hd. split; [reflexivity |]. split; [reflexivity |].
       simpl. split; discriminate. }
  destruct (slotNo rid <? 0) eqn:Hneg.
  { injection H as <- <-. rewrite Hd. split; [reflexivity |]. split; [reflexivity |].
    simpl. split; discriminate. }
  destruct (RefEnv.rp_slots d !! Z.to_nat (slotNo rid)) as [[bs |] |] eqn:Hs.
  2,3: injection H as <- <-; rewrite Hd, Hs; split; [reflexivity |]; split; [reflexivity |];
       simpl; split; discriminate.
  injection H as <- <-.
  pose proof (proj1 (data_at_frame _ _ _) Hd) as Hfr.
  split; [| split].
  - unfold hdr_at. rewrite frame_at_set_frame.
    destruct (decide (p = 0)) as [-> | Hne]; [rewrite Hfr |]; reflexivity.
  - unfold RefEnv.data_at. rewrite frame_at_set_frame, Hfr.
    destruct (decide (p = p)); [| contradiction]. simpl.
    rewrite list_lookup_insert_eq by (eapply lookup_lt_Some; exact Hs). reflexivity.
  - simpl. split; reflexivity.
Qed.

Local Opaque RefEnv.unPinPage RefEnv.readPage RefEnv.allocPage RefEnv.insertRecord
  RefEnv.init RefEnv.setNextPage RefEnv.load RefEnv.store RefEnv.openFile
  RefEnv.getFirstPage RefEnv.createFile RefEnv.closeFile.

(** Record [pf] unless a hypothesis already states it. *)
Ltac new_fact pf :=
  let T := type of pf in
  lazymatch goal with
  | _ : T |- _ => fail
  | _ => pose proof pf
  end.

(** From what is known of a file in one state, what holds of it in the
    states the run went through next. *)
Ltac know_world :=
  match goal with
  | Hok : heap_ok ?w ?f ?h |- _ =>
      match goal with
      | |- context [RefEnv.load (f, 0) w] => rewrite (load_header f h w (proj1 Hok)) in *
      | _ : context [RefEnv.load (f, 0) w] |- _ =>
          rewrite (load_header f h w (proj1 Hok)) in *
      | |- context [RefEnv.store (f, 0) ?h1 w] => new_fact (heap_ok_store w f h h1 Hok)
      | _ : context [RefEnv.store (f, 0) ?h1 w] |- _ =>
          new_fact (heap_ok_store w f h h1 Hok)
      | |- context [RefEnv.setNextPage (f, ?p) ?n w] =>
          new_fact (heap_ok_setNextPage w f h p n Hok)
      | _ : context [RefEnv.setNextPage (f, ?p) ?n w] |- _ =>
          new_fact (heap_ok_setNextPage w f h p n Hok)
      | Hraw : RefEnv.frame_at w (f, ?q) = Some RefEnv.FRaw |- _ =>
          new_fact (heap_ok_init w f h q Hraw Hok)
      | H : RefEnv.insertRecord _ _ (f, _) _ w = _ |- _ =>
          let H1 := fresh "Hok" in
          let H2 := fresh "Hst" in
          let H3 := fresh "Hget" in
          destruct (heap_ok_insertRecord _ _ _ _ _ _ _ _ _ _ H Hok) as (H1 & H2 & H3);
          clear H
      | H : RefEnv.allocPage f w = (OK, _, _, _) |- _ =>
          let H1 := fresh "Hptr" in
          let H2 := fresh "Hraw" in
          let H3 := fresh "Hok" in
          destruct (heap_ok_alloc _ _ _ _ _ _ H Hok) as (H1 & H2 & H3);
          clear H; try subst
      end
  | H : failed OK = true |- _ => discriminate H
  | H : failed ?st = false |- _ => apply failed_false in H; try subst st
  | H : bool_decide _ = true |- _ => apply bool_decide_eq_true_1 in H
  | H : bool_decide _ = false |- _ => apply bool_decide_eq_false_1 in H
  | H : Some _ = Some _ |- _ => injection H as H; try subst
  | H : RefEnv.unPinPage _ _ _ _ = _ |- _ => apply unPinPage_world in H; try subst
  | H : RefEnv.readPage _ _ _ = (OK, _, _) |- _ =>
      apply readPage_OK in H; destruct H as [? ?]; try subst
  end.

(** One [insertRecord] that returns [OK]: the header counts one record
    more, the RID names the handle's current page, and the record can be
    fetched there. *)
Lemma insertRecord_sound ps dp f rec rid (h h' : HeapFile (RefEnv.make ps dp))
    (s s' : St (RefEnv.make ps dp)) r hdr :
  handle_ok ps dp f h ->
  heap_ok (env s) f hdr ->
  insertRecord (RefEnv.make ps dp) rec rid h s = Done (OK, r, h') s' ->
  handle_ok ps dp f h' /\
  (exists hdr', heap_ok (env s') f hdr' /\ recCnt hdr' = int_add (recCnt hdr) 1) /\
  curRec _ h' = r /\ pageNo r = curPageNo _ h' /\
  RefEnv.getRecord (f, curPageNo _ h') r (env s') = (OK, stored rec).
Proof.
  intros (Hf & Hhp & Hcp) Hok Hrun.
  destruct h as [fp hp hpn hdf cp cpn cdf cr]. simpl in Hf, Hhp, Hcp. subst fp hp cp.
  unfold insertRecord in Hrun. simpl in Hrun.
  destruct (wrap_unsigned (length_ rec) >? _); [discriminate |].
  unfold bind, load_hdr, modify_hdr, deref, ret, unPinPage, readPage, allocPage,
    page_insertRecord, page_init, page_setNextPage, bind, deref, logged in Hrun.
  simpl in Hrun.
  split_run Hrun.
  all: injection Hrun; intros; subst; clear Hrun.
  all: repeat know_world.
  all: repeat match goal with
              | H : ?st = OK \/ ?st = NOSPACE |- _ =>
                  destruct H as [H | H]; try discriminate H; try contradiction; try subst st
              end.
  all: repeat match goal with
              | H : OK = OK -> _ |- _ => specialize (H eq_refl); destruct H as [? ?]
              end.
  all: split; [unfold handle_ok; simpl; repeat split; reflexivity |].
  all: split; [eexists; split; [simpl; eassumption | reflexivity] |].
  all: simpl; split; [reflexivity |]; split; [assumption |].
  all: repeat match goal with
              | Hk : heap_ok ?w ?f0 ?h0
                |- context [RefEnv.getRecord _ _ (RefEnv.store (?f0, 0) ?h1 ?w)] =>
                  rewrite (getRecord_store w f0 h0 h1 _ _ (proj1 Hk))
              end.
  all: assumption.
Qed.

Local Transparent RefEnv.getFirstPage RefEnv.readPage RefEnv.unPinPage RefEnv.load.

(** The file [createHeapFile] leaves is sound. *)
Lemma heap_ok_fresh (w : gmap string RefEnv.RFile) (name : string) :
  heap_ok (<[name := fresh_file name]> w) name (mkHdr name 1 1 1 0).
Proof.
  split.
  - unfold hdr_at. rewrite frame_at_entry. reflexivity.
  - intros n d Hd. apply data_at_frame in Hd. rewrite frame_at_entry in Hd.
    destruct (0 <=? n) eqn:Hn; [| discriminate]. apply Z.leb_le in Hn.
    destruct (Z.to_nat n) as [| [| k]] eqn:Hk; simpl in Hd; try discriminate.
    injection Hd as <-. simpl. lia.
Qed.

(** [createHeapFile] returns [OK] only on a name that was free, and then
    leaves exactly the fresh file under it. *)
Lemma createHeapFile_OK_fresh ps dp name (s0 s1 : St (RefEnv.make ps dp)) :
  createHeapFile (RefEnv.make ps dp) name s0 = Done OK s1 ->
  env s0 !! name = None /\ env s1 = <[name := fresh_file name]> (env s0).
Proof.
  intros Hcreate. destruct s0 as [w cs].
  destruct (w !! name) as [F |] eqn:Hw.
  - rewrite (createHeapFile_exists (RefEnv.make ps dp) name
               (mkSt (E := RefEnv.make ps dp) w cs) name _
               (openFile_existing w name F Hw)) in Hcreate.
    discriminate Hcreate.
  - rewrite (createHeapFile_fresh w name ps dp cs Hw) in Hcreate.
    injection Hcreate as <-. split; [exact Hw | reflexivity].
Qed.

(** Opening a sound file succeeds and leaves it sound. *)
Lemma ctor_sound ps dp name (this h : HeapFile (RefEnv.make ps dp))
    (s s' : St (RefEnv.make ps dp)) hdr :
  heap_ok (env s) name hdr ->
  HeapFile_ctor (RefEnv.make ps dp) this name s = Done (OK, h) s' ->
  handle_ok ps dp name h /\ heap_ok (env s') name hdr.
Proof.
  intros Hok Hrun.
  unfold HeapFile_ctor in Hrun.
  unfold bind, openFile, getFirstPage, readPage, load_hdr, deref, ret, logged, bind, deref
    in Hrun.
  simpl in Hrun.
  split_run Hrun.
  all: injection Hrun; intros; subst; clear Hrun.
  all: repeat match goal with
              | H : RefEnv.openFile _ _ = (OK, _, _) |- _ =>
                  apply openFile_OK in H; destruct H as [? H]; try subst;
                  apply (fun Hs => heap_ok_ext _ _ _ _ Hs Hok) in H
              | H : RefEnv.getFirstPage _ _ = (OK, _, _) |- _ =>
                  apply getFirstPage_OK in H; destruct H as [? ?]; try subst
              | _ => know_world
              end.
  all: try congruence.
  split; [unfold handle_ok; simpl; repeat split; reflexivity | assumption].
Qed.

(** Any number of [insertRecord] calls that return [OK] keep the file
    sound and count in [recCnt]. *)
Lemma inserts_sound ps dp f recs (h h' : HeapFile (RefEnv.make ps dp))
    (s s' : St (RefEnv.make ps dp)) :
  inserts (RefEnv.make ps dp) recs h s h' s' ->
  forall hdr,
    handle_ok ps dp f h ->
    heap_ok (env s) f hdr ->
    0 <= recCnt hdr ->
    recCnt hdr + Z.of_nat (length recs) <= INT_MAX ->
    handle_ok ps dp f h' /\
    exists hdr', heap_ok (env s') f hdr' /\
                 recCnt hdr' = recCnt hdr + Z.of_nat (length recs).
Proof.
  induction 1 as [h s | rec recs rid r h h1 h2 s s1 s2 Hins Hrest IH];
    intros hdr Hh Hok H0 Hmax.
  - split; [exact Hh |]. exists hdr. split; [exact Hok | simpl; lia].
  - simpl length in Hmax.
    destruct (insertRecord_sound ps dp f rec rid h h1 s s1 r hdr Hh Hok Hins)
      as (Hh1 & (hdr1 & Hok1 & Hcnt1) & _).
    assert (Hcnt : recCnt hdr1 = recCnt hdr + 1).
    { rewrite Hcnt1. unfold int_add. apply wrap_signed_small.
      unfold is_int, INT_MIN, INT_MAX in *. lia. }
    destruct (IH hdr1 Hh1 Hok1 ltac:(lia) ltac:(lia)) as (Hh2 & hdr2 & Hok2 & Hcnt2).
    split; [exact Hh2 |]. exists hdr2. split; [exact Hok2 |].
    rewrite Hcnt2, Hcnt. simpl length. lia.
Qed.

Lemma inserts_keep_sound ps dp f recs (h h' : HeapFile (RefEnv.make ps dp))
    (s s' : St (RefEnv.make ps dp)) :
  inserts (RefEnv.make ps dp) recs h s h' s' ->
  forall hdr,
    handle_ok ps dp f h ->
    heap_ok (env s) f hdr ->
    handle_ok ps dp f h' /\ exists hdr', heap_ok (env s') f hdr'.
Proof.
  induction 1 as [h s | rec recs rid r h h1 h2 s s1 s2 Hins Hrest IH];
    intros hdr Hh Hok.
  - split; [exact Hh |]. exists hdr. exact Hok.
  - destruct (insertRecord_sound ps dp f rec rid h h1 s s1 r hdr Hh Hok Hins)
      as (Hh1 & (hdr1 & Hok1 & _) & _).
    apply (IH hdr1 Hh1 Hok1).
Qed.

(** ** createHeapFile, then open *)

(** X11: a heap file that [createHeapFile] has just created opens: the
    constructor returns [OK] with the header page 0 and the data page 1
    pinned, both dirty flags clear and no current record; [getRecCnt] is 0;
    and [scanNext] on a scan that stands there answers [FILEEOF], making
    no call and leaving the caller's RID and the scan as they were. *)
Theorem createHeapFile_then_open ps dp (name : string)
    (this : HeapFile (RefEnv.make ps dp)) (s0 s1 : St (RefEnv.make ps dp)) :
  createHeapFile (RefEnv.make ps dp) name s0 = Done OK s1 ->
  exists s2,
    HeapFile_ctor (RefEnv.make ps dp) this name s1
    = Done (OK, mkHeapFile (E := RefEnv.make ps dp) name (Some (name, 0)) 0 false
                           (Some (name, 1)) 1 false NULLRID) s2 /\
    getRecCnt (RefEnv.make ps dp)
      (mkHeapFile (E := RefEnv.make ps dp) name (Some (name, 0)) 0 false
                  (Some (name, 1)) 1 false NULLRID) s2
    = Done 0 s2 /\
    forall (fuel : nat) (rid : RID) (scan : HeapFileScan (RefEnv.make ps dp)),
      base _ scan = mkHeapFile (E := RefEnv.make ps dp) name (Some (name, 0)) 0 false
                               (Some (name, 1)) 1 false NULLRID ->
      scanNext (RefEnv.make ps dp) (S fuel) rid scan s2 = Done (FILEEOF, rid, scan) s2.
Proof.
  intros Hcreate.
  destruct (createHeapFile_OK_fresh ps dp name s0 s1 Hcreate) as [Hnone Henv].
  destruct s1 as [w1 cs1]. simpl in Henv. subst w1.
  unfold HeapFile_ctor, getRecCnt, bind, openFile, getFirstPage, readPage, load_hdr,
    deref, ret, logged.
  simpl. rewrite openFile_entry. simpl.
  unfold RefEnv.getFirstPage. rewrite lookup_insert_eq. simpl.
  unfold RefEnv.readPage, RefEnv.load.
  repeat (rewrite frame_at_entry; simpl).
  eexists. split; [reflexivity |]. simpl.
  repeat (rewrite frame_at_entry; simpl).
  split; [reflexivity |].
  intros fuel rid scan Hbase.
  destruct scan as [b so sl sty sf sop mp mr]. simpl in Hbase. subst b.
  simpl. unfold scanNext_body, bind, page_firstRecord, deref, ret. simpl.
  unfold RefEnv.firstRecord, RefEnv.data_at. rewrite frame_at_entry. reflexivity.
Qed.

Lemma createHeapFile_then_open_witness :
  exists s2,
    HeapFile_ctor E0 raw "t1" s_t1 = Done (OK, h_t1) s2 /\
    getRecCnt E0 h_t1 s2 = Done 0 s2.
Proof.
  destruct (createHeapFile_then_open 1024 20 "t1" raw st0 s_t1 eq_refl)
    as (s2 & Hopen & Hcnt & _).
  exists s2. split; [exact Hopen | exact Hcnt].
Defined.

(** ** createHeapFile, then destroyHeapFile *)

(** X12: [createHeapFile] leaves no open handle behind: a heap file that
    was just created can be destroyed at once, [destroyHeapFile] returns
    [OK], and the files are then what they were before the creation. *)
Theorem createHeapFile_then_destroy ps dp (name : string)
    (s0 s1 : St (RefEnv.make ps dp)) :
  createHeapFile (RefEnv.make ps dp) name s0 = Done OK s1 ->
  exists s2,
    destroyHeapFile (RefEnv.make ps dp) name s1 = Done OK s2 /\
    env s2 = env s0 /\
    calls s2 = calls s1 ++ [(DestroyFile name, OK)].
Proof.
  intros Hcreate.
  destruct (createHeapFile_OK_fresh ps dp name s0 s1 Hcreate) as [Hnone Henv].
  destruct s1 as [w1 cs1]. simpl in Henv. subst w1.
  unfold destroyHeapFile, destroyFile, logged. simpl.
  unfold RefEnv.destroyFile. rewrite lookup_insert_eq. simpl.
  eexists. split; [reflexivity |]. simpl.
  split; [| reflexivity].
  rewrite delete_insert_eq. apply delete_id. exact Hnone.
Qed.

Lemma createHeapFile_then_destroy_witness :
  exists s2, destroyHeapFile E0 "t1" s_t1 = Done OK s2 /\ env s2 = env st0.
Proof.
  destruct (createHeapFile_then_destroy 1024 20 "t1" st0 s_t1 eq_refl)
    as (s2 & Hd & He & _).
  exists s2. split; [exact Hd | exact He].
Defined.

Local Opaque RefEnv.getFirstPage RefEnv.readPage RefEnv.unPinPage RefEnv.load.

(** ** insertRecord and getRecCnt *)

(** X13: on a heap file that was just created and opened for insertion,
    after any sequence of [insertRecord] calls that each returned [OK],
    [getRecCnt] is the number of records inserted. *)
Theorem getRecCnt_counts_inserts ps dp (name : string) (recs : list Record_)
    (this h h' : HeapFile (RefEnv.make ps dp)) (s0 s1 s2 s3 : St (RefEnv.make ps dp)) :
  Z.of_nat (length recs) <= INT_MAX ->
  createHeapFile (RefEnv.make ps dp) name s0 = Done OK s1 ->
  InsertFileScan_ctor (RefEnv.make ps dp) this name s1 = Done (OK, h) s2 ->
  inserts (RefEnv.make ps dp) recs h s2 h' s3 ->
  getRecCnt (RefEnv.make ps dp) h' s3 = Done (Z.of_nat (length recs)) s3.
Proof.
  intros Hlen Hcreate Hctor Hins.
  destruct (createHeapFile_OK_fresh ps dp name s0 s1 Hcreate) as [_ Henv].
  assert (Hok1 : heap_ok (env s1) name (mkHdr name 1 1 1 0))
    by (rewrite Henv; apply heap_ok_fresh).
  destruct (ctor_sound ps dp name this h s1 s2 _ Hok1 Hctor) as [Hh Hok2].
  destruct (inserts_sound ps dp name recs h h' s2 s3 Hins _ Hh Hok2)
    as ((_ & Hhp & _) & hdr' & [Hhdr' _] & Hcnt); [simpl; lia | simpl; lia |].
  unfold getRecCnt, bind, load_hdr, deref, ret. rewrite Hhp. simpl.
  rewrite (load_header name hdr' (env s3) Hhdr'). rewrite Hcnt. reflexivity.
Qed.

Lemma getRecCnt_counts_inserts_witness :
  getRecCnt E1 c5.1 c5.2 = Done 3 c5.2.
Proof.
  apply (getRecCnt_counts_inserts 24 20 "t1" [recA; recB; recA] raw1 c2.1 c5.1
           st1 c1 c2.2 c5.2).
  - vm_compute. discriminate.
  - reflexivity.
  - reflexivity.
  - apply (inserts_cons E1 recA _ NULLRID (mkRID 1 0) c2.1 c3.1 c5.1 c2.2 c3.2 c5.2);
      [reflexivity |].
    apply (inserts_cons E1 recB _ NULLRID (mkRID 2 0) c3.1 c4.1 c5.1 c3.2 c4.2 c5.2);
      [reflexivity |].
    apply (inserts_cons E1 recA _ NULLRID (mkRID 3 0) c4.1 c5.1 c5.1 c4.2 c5.2 c5.2);
      [reflexivity |].
    apply inserts_nil.
Defined.

(** ** deleteRecord *)

(** X14: [deleteRecord] makes no call to the buffer manager, returns what
    the page's [deleteRecord] answered, which is [OK] exactly when the
    current record could be fetched, and counts [recCnt] down by one and
    sets both dirty flags whether or not a record was deleted.  Afterwards
    there is no record at [curRec]. *)
Theorem deleteRecord_counts_down ps dp (this : HeapFileScan (RefEnv.make ps dp))
    (s : St (RefEnv.make ps dp)) (f : string) (n : Z) (hdr : FileHdrPage) :
  headerPage _ (base _ this) = Some (f, 0) ->
  curPage _ (base _ this) = Some (f, n) ->
  hdr_at (env s) f = Some hdr ->
  exists st this' s',
    deleteRecord _ this s = Done (st, this') s' /\
    (st = OK <-> exists r, HeapFileScan_getRecord _ this s = Done (OK, r) s) /\
    calls s' = calls s /\
    getRecCnt _ (base _ this') s' = Done (int_sub (recCnt hdr) 1) s' /\
    HeapFileScan_getRecord _ this' s'
    = Done (RefEnv.INVALIDSLOTNO, mkRecord [] 0) s' /\
    this' = upd _ (set_hdrDirtyFlag _ true) (upd _ (set_curDirtyFlag _ true) this).
Proof.
  intros Hhp Hcp Hhdr.
  destruct this as [[fp hp hpn hdf cp cpn cdf cr] so sl sty sf sop mp mr].
  simpl in Hhp, Hcp. subst hp cp.
  unfold deleteRecord, getRecCnt, HeapFileScan_getRecord, bind, page_deleteRecord,
    page_getRecord, modify_hdr, load_hdr, deref, ret, bind, deref.
  simpl.
  destruct (RefEnv.deleteRecord (f, n) cr (env s)) as [st w1] eqn:Hdel. simpl.
  destruct (deleteRecord_page _ _ _ _ _ _ Hdel) as (Hh1 & Hgone & Hiff).
  rewrite Hhdr in Hh1.
  rewrite (load_header f hdr w1 Hh1).
  destruct (store_header f (set_recCnt (int_sub (recCnt hdr) 1) hdr) hdr w1 Hh1) as [Hh2 _].
  eexists _, _, _. split; [reflexivity |]. simpl.
  split; [| split; [reflexivity |]; split; [| split; [| reflexivity]]].
  - rewrite Hiff. destruct (RefEnv.getRecord (f, n) cr (env s)) as [st0 r0]. simpl. split.
    + intros ->. exists r0. reflexivity.
    + intros [r Hr]. congruence.
  - rewrite (load_header f _ _ Hh2). reflexivity.
  - rewrite (getRecord_store w1 f hdr _ n cr Hh1), Hgone. reflexivity.
Qed.

Lemma deleteRecord_counts_down_witness :
  exists st this' s',
    deleteRecord E0 scan_one s_one = Done (st, this') s' /\
    calls s' = calls s_one /\
    getRecCnt E0 (base E0 this') s' = Done 0 s'.
Proof.
  destruct (deleteRecord_counts_down 1024 20 scan_one s_one "t1" 1 (mkHdr "t1" 1 1 1 1)
              eq_refl eq_refl eq_refl)
    as (st & this' & s' & Hdel & _ & Hcalls & Hcnt & _).
  exists st, this', s'. split; [exact Hdel |]. split; [exact Hcalls | exact Hcnt].
Defined.

(** ** Pins held by a scan *)

Lemma pinned_app {F : Type} (n : Z) (l1 l2 : list (Call F)) :
  pinned n (l1 ++ l2) = pinned n l1 + pinned n l2.
Proof.
  induction l1 as [| c l1 IH]; simpl; [reflexivity |].
  destruct c; rewrite ?IH; lia.
Qed.

(** A [scanNext] that returns [OK] holds a pin on the page that is then
    current and has given back the pin on every page it left. *)
Lemma scanNext_pins (E : Env) (fuel : nat) :
  forall (outRid r : RID) (this this' : HeapFileScan E) (s s' : St E),
    scanNext E fuel outRid this s = Done (OK, r, this') s' ->
    curPage E (base E this') <> None /\
    filePtr E (base E this') = filePtr E (base E this) /\
    headerPage E (base E this') = headerPage E (base E this) /\
    headerPageNo E (base E this') = headerPageNo E (base E this) /\
    hdrDirtyFlag E (base E this') = hdrDirtyFlag E (base E this) /\
    exists l,
      made s s' l /\
      forall n, pinned n (l.*1)
                = here n (curPageNo E (base E this')) - here n (curPageNo E (base E this)).
Proof.
  induction fuel as [| fuel IH]; intros outRid r this this' s s' Hrun.
  - discriminate Hrun.
  - simpl in Hrun. unfold scanNext_body in Hrun.
    unfold bind, page_firstRecord, page_nextRecord, page_getNextPage,
      HeapFileScan_getRecord, page_getRecord, unPinPage, readPage, lift_opt,
      deref, ret, logged, bind, deref in Hrun.
    destruct this as [[fp hp hpn hdf cp cpn cdf cr] so sl sty sf sop mp mr].
    simpl in Hrun.
    split_run Hrun.
    all: repeat match goal with
                | H : failed OK = true |- _ => discriminate H
                | H : failed ?x = false |- _ => apply failed_false in H; try subst x
                end.
    all: first
           [ apply IH in Hrun;
             destruct Hrun as (Hcp & Hf & Hh & Hhn & Hhd & l & Hl & Hpin);
             unfold made in Hl; simpl in Hl, Hf, Hh, Hhn, Hhd, Hpin;
             repeat (split; [assumption |]);
             log_shape; rewrite Hl; rewrite <- ?app_assoc; simpl;
             eexists; split; [reflexivity |];
             intros n; simpl; rewrite ?fmap_app, ?pinned_app; simpl;
             rewrite ?Hpin; lia
           | injection Hrun; intros; subst; simpl;
             split; [discriminate |];
             repeat (split; [reflexivity |]);
             log_shape;
             first [ exists []; split; [symmetry; apply app_nil_r |]
                   | eexists; split; [reflexivity |] ];
             intros n; simpl; lia
           | injection Hrun; intros; subst;
             match goal with
             | H : failed OK = true |- _ => discriminate H
             end ].
Qed.

Lemma scans_pins (E : Env) (this this' : HeapFileScan E) (s s' : St E) :
  scans E this s this' s' ->
  curPage E (base E this) <> None ->
  curPage E (base E this') <> None /\
  filePtr E (base E this') = filePtr E (base E this) /\
  headerPage E (base E this') = headerPage E (base E this) /\
  headerPageNo E (base E this') = headerPageNo E (base E this) /\
  hdrDirtyFlag E (base E this') = hdrDirtyFlag E (base E this) /\
  exists l,
    made s s' l /\
    forall n, pinned n (l.*1)
              = here n (curPageNo E (base E this')) - here n (curPageNo E (base E this)).
Proof.
  induction 1 as [this s | fuel rid r this this1 this2 s s1 s2 Hrun _ IH]; intros Hcp.
  - repeat (split; [first [assumption | reflexivity] |]).
    exists []. split; [unfold made; symmetry; apply app_nil_r |]. intros n. simpl. lia.
  - destruct (scanNext_pins E fuel rid r this this1 s s1 Hrun)
      as (Hcp1 & Hf1 & Hh1 & Hn1 & Hd1 & l1 & Hl1 & Hp1).
    destruct (IH Hcp1) as (Hcp2 & Hf2 & Hh2 & Hn2 & Hd2 & l2 & Hl2 & Hp2).
    repeat (split; [first [assumption | congruence] |]).
    exists (l1 ++ l2). split.
    + unfold made in *. rewrite Hl2, Hl1, app_assoc. reflexivity.
    + intros n. rewrite fmap_app, pinned_app, Hp1, Hp2. lia.
Qed.

Lemma HeapFileScan_ctor_pins (E : Env) (this sc : HeapFileScan E) (name : string)
    (s s1 : St E) :
  HeapFileScan_ctor E this name s = Done (OK, sc) s1 ->
  headerPage E (base E sc) <> None /\
  exists l,
    made s s1 l /\
    forall n, pinned n (l.*1)
              = here n (headerPageNo E (base E sc)) + here n (curPageNo E (base E sc)).
Proof.
  intros Hrun.
  unfold HeapFileScan_ctor, HeapFile_ctor, bind, openFile, getFirstPage, readPage,
    load_hdr, deref, ret, logged, bind in Hrun.
  split_run Hrun.
  all: injection Hrun; intros; subst.
  all: repeat match goal with
              | H : failed OK = true |- _ => discriminate H
              | H : failed ?x = false |- _ => apply failed_false in H; try subst x
              | H : bool_decide _ = false |- _ => apply bool_decide_eq_false_1 in H
              end.
  all: try contradiction.
  all: simpl; split; [discriminate |].
  all: log_shape; eexists; split; [reflexivity |].
  all: intros n; simpl; lia.
Qed.

(** X15: a scan gives back every pin it takes.  When the constructor of a
    [HeapFileScan] returns [OK] with a data page pinned, and any number of
    [scanNext] calls each return [OK], then over all the calls made from
    the constructor to the end of the destructor every page has been
    unpinned as often as it was read, and the last call closes the file. *)
Theorem scan_gives_back_its_pins (E : Env) (name : string)
    (this sc1 sc2 sc3 : HeapFileScan E) (s0 s1 s2 s3 : St E) :
  HeapFileScan_ctor E this name s0 = Done (OK, sc1) s1 ->
  curPage E (base E sc1) <> None ->
  scans E sc1 s1 sc2 s2 ->
  HeapFileScan_dtor E sc2 s2 = Done sc3 s3 ->
  exists l,
    made s0 s3 l /\
    (forall n, pinned n (l.*1) = 0) /\
    last (l.*1) = Some (CloseFile (filePtr E (base E sc1))).
Proof.
  intros Hctor Hcp Hsc Hdtor.
  destruct (HeapFileScan_ctor_pins E this sc1 name s0 s1 Hctor) as (Hhp & l1 & Hl1 & Hp1).
  destruct (scans_pins E sc1 sc2 s1 s2 Hsc Hcp)
    as (Hcp2 & Hf & Hh & Hhn & _ & l2 & Hl2 & Hp2).
  destruct sc2 as [[fp hp hpn hdf cp cpn cdf cr] so sl sty sf sop mp mr].
  simpl in Hcp2, Hf, Hh, Hhn, Hp2.
  unfold HeapFileScan_dtor, endScan, HeapFile_dtor, bind, unPinPage, closeFile,
    load_hdr, deref, ret, logged in Hdtor.
  simpl in Hdtor.
  destruct cp as [p |]; [| contradiction]. simpl in Hdtor.
  destruct (buf_unPinPage E fp cpn cdf (env s2)) as [st1 w1]. simpl in Hdtor.
  destruct hp as [q |]; [| discriminate Hdtor]. simpl in Hdtor.
  destruct (buf_unPinPage E fp hpn hdf w1) as [st2 w2]. simpl in Hdtor.
  destruct (db_closeFile E fp w2) as [st3 w3]. simpl in Hdtor.
  injection Hdtor as _ <-.
  unfold made in *. simpl.
  exists (l1 ++ l2 ++ [(UnPinPage fp cpn cdf, st1); (UnPinPage fp hpn hdf, st2);
                       (CloseFile fp, st3)]).
  split; [| split].
  - rewrite Hl2, Hl1. rewrite <- !app_assoc. reflexivity.
  - intros n. rewrite !fmap_app, !pinned_app, Hp1, Hp2. simpl. rewrite Hhn. lia.
  - rewrite !fmap_app, !app_assoc. simpl. rewrite Hf.
    rewrite last_app. reflexivity.
Qed.

Lemma scan_gives_back_its_pins_witness :
  exists l, made s_ok k3.2 l /\ (forall n, pinned n (l.*1) = 0) /\
            last (l.*1) = Some (CloseFile 1).
Proof.
  apply (scan_gives_back_its_pins E_ok "t1" raw_ok k0.1 k2.1 k3.1 s_ok k0.2 k2.2 k3.2).
  - reflexivity.
  - discriminate.
  - apply (scans_cons E_ok 2 NULLRID (mkRID 1 0) k0.1 k1.1 k2.1 k0.2 k1.2 k2.2);
      [reflexivity |].
    apply (scans_cons E_ok 2 NULLRID (mkRID (-1) 0) k1.1 k2.1 k2.1 k1.2 k2.2 k2.2);
      [reflexivity |].
    apply scans_nil.
  - reflexivity.
Defined.

(** ** Records a scan hands out *)

Lemma first_live_lookup (slots : list (option (list byte))) :
  forall i j, RefEnv.first_live slots i = Some j ->
              i <= j /\ exists bs, slots !! Z.to_nat (j - i) = Some (Some bs).
Proof.
  induction slots as [| [bs |] t IH]; intros i j H; simpl in H.
  - discriminate H.
  - injection H as <-. split; [lia |]. exists bs. rewrite Z.sub_diag. reflexivity.
  - destruct (IH (i + 1) j H) as [Hle [bs Hbs]]. split; [lia |]. exists bs.
    replace (Z.to_nat (j - i)) with (S (Z.to_nat (j - (i + 1)))) by lia.
    exact Hbs.
Qed.

Lemma firstRecord_live (p : string * Z) (w : gmap string RefEnv.RFile) (rid : RID) :
  RefEnv.firstRecord p w = (OK, rid) ->
  (RefEnv.getRecord p rid w).1 = OK /\
  exists d, RefEnv.data_at w p = Some d /\ pageNo rid = RefEnv.rp_no d.
Proof.
  unfold RefEnv.firstRecord, RefEnv.getRecord.
  destruct (RefEnv.data_at w p) as [d |] eqn:Hd; [| discriminate].
  destruct (RefEnv.first_live (RefEnv.rp_slots d) 0) as [i |] eqn:Hi; [| discriminate].
  intros H. injection H as <-. simpl.
  destruct (first_live_lookup _ _ _ Hi) as [Hle [bs Hbs]].
  rewrite Z.sub_0_r in Hbs.
  destruct (i <? 0) eqn:Hneg; [apply Z.ltb_lt in Hneg; lia |].
  rewrite Hbs. split; [reflexivity |]. exists d. split; reflexivity.
Qed.

Lemma nextRecord_live (p : string * Z) (cur : RID) (w : gmap string RefEnv.RFile)
    (rid : RID) :
  RefEnv.nextRecord p cur w = (OK, rid) ->
  (RefEnv.getRecord p rid w).1 = OK /\
  exists d, RefEnv.data_at w p = Some d /\ pageNo rid = RefEnv.rp_no d.
Proof.
  unfold RefEnv.nextRecord, RefEnv.getRecord.
  destruct (RefEnv.data_at w p) as [d |] eqn:Hd; [| discriminate].
  destruct (slotNo cur <? 0) eqn:Hc; [discriminate |]. apply Z.ltb_ge in Hc.
  destruct (RefEnv.first_live _ _) as [i |] eqn:Hi; [| discriminate].
  intros H. injection H as <-. simpl.
  destruct (first_live_lookup _ _ _ Hi) as [Hle [bs Hbs]].
  rewrite lookup_drop in Hbs.
  replace (Z.to_nat (slotNo cur + 1) + Z.to_nat (i - (slotNo cur + 1)))%nat
    with (Z.to_nat i) in Hbs by lia.
  destruct (i <? 0) eqn:Hneg; [apply Z.ltb_lt in Hneg; lia |].
  rewrite Hbs. split; [reflexivity |]. exists d. split; reflexivity.
Qed.

(** [nextRecord] fails with a status other than [ENDOFPAGE] only where
    [getRecord] fails too. *)
Lemma nextRecord_status (p : string * Z) (cur : RID) (w : gmap string RefEnv.RFile)
    (st : Status) (rid : RID) (rec : Record_) :
  RefEnv.nextRecord p cur w = (st, rid) ->
  RefEnv.getRecord p cur w = (OK, rec) ->
  st = OK \/ st = ENDOFPAGE.
Proof.
  unfold RefEnv.nextRecord, RefEnv.getRecord.
  destruct (RefEnv.data_at w p) as [d |]; [| discriminate].
  destruct (slotNo cur <? 0); [discriminate |].
  destruct (RefEnv.first_live _ _) as [i |]; intros H _; injection H as <- _; auto.
Qed.

(** X16: whatever record [scanNext] has tested, the RID it returns with
    [OK] is that of a record that exists: it was found by [firstRecord] or
    [nextRecord] on the page that is current when [scanNext] returns, the
    pages being as they were before the call, so [getRecord] on the scan
    fetches a record there; and when the data pages carry their own
    numbers, the RID names the current page. *)
Theorem scanNext_returns_a_live_record ps dp (fuel : nat) :
  forall (outRid r : RID) (this this' : HeapFileScan (RefEnv.make ps dp))
         (s s' : St (RefEnv.make ps dp)),
    scan_ok ps dp this (env s) ->
    scanNext (RefEnv.make ps dp) fuel outRid this s = Done (OK, r, this') s' ->
    env s' = env s /\
    curRec _ (base _ this') = r /\
    (exists rec, HeapFileScan_getRecord _ this' s' = Done (OK, rec) s') /\
    (numbered (env s) (filePtr _ (base _ this)) -> pageNo r = curPageNo _ (base _ this')).
Proof.
  induction fuel as [| fuel IH]; intros outRid r this this' s s' [Hptr Hfr] Hrun.
  - discriminate Hrun.
  - simpl in Hrun. unfold scanNext_body in Hrun.
    unfold bind, page_firstRecord, page_nextRecord, page_getNextPage,
      HeapFileScan_getRecord, page_getRecord, unPinPage, readPage, lift_opt,
      deref, ret, logged, bind, deref in Hrun.
    destruct this as [[fp hp hpn hdf cp cpn cdf cr] so sl sty sf sop mp mr].
    simpl in Hptr, Hfr, Hrun. subst cp.
    split_run Hrun.
    all: repeat match goal with
                | H : failed OK = true |- _ => discriminate H
                | H : failed ?st = false |- _ => apply failed_false in H; try subst st
                end.
    all: try match goal with
             | Hrd : RefEnv.readPage _ _ _ = (OK, _, _) |- _ =>
                 pose proof (readPage_frame _ _ _ _ _ Hrd)
             end.
    all: digest; try congruence.
    all: first
           [ apply IH in Hrun;
             [ destruct Hrun as (He & Hcur & Hget & Hno); simpl in He, Hno;
               split; [exact He |]; split; [exact Hcur |];
               split; [exact Hget |]; simpl; exact Hno
             | split; simpl; first [reflexivity | assumption] ]
           | injection Hrun; intros; subst;
             first [ match goal with
                     | H : failed OK = true |- _ => discriminate H
                     end
                   | idtac ] ].
    all: simpl; split; [reflexivity |]; split; [reflexivity |].
    all: unfold HeapFileScan_getRecord, page_getRecord, bind, deref; simpl.
    all: try match goal with
             | H : RefEnv.nextRecord ?p ?c ?w = (?st, ?rid),
               Hg : RefEnv.getRecord ?p ?c ?w = (OK, _) |- _ =>
                 destruct (nextRecord_status p c w st rid _ H Hg); try subst st;
                 try contradiction
             end.
    all: match goal with
         | H : RefEnv.firstRecord ?p ?w = (OK, ?rid) |- _ =>
             destruct (firstRecord_live p w rid H) as [Hlive Hpage]
         | H : RefEnv.nextRecord ?p ?c ?w = (OK, ?rid) |- _ =>
             destruct (nextRecord_live p c w rid H) as [Hlive Hpage]
         end.
    all: split;
      [ match goal with
        | |- context [RefEnv.getRecord ?p ?rid ?w] =>
            destruct (RefEnv.getRecord p rid w) as [st0 rec0] eqn:Hg;
            simpl in Hlive; subst st0; exists rec0; reflexivity
        end
      | intros Hnum; destruct Hpage as (d & Hd & ->); exact (Hnum _ _ Hd) ].
Qed.

Lemma scanNext_returns_a_live_record_witness :
  env next_c5.2 = env c5.2 /\
  curRec E1 (base E1 next_c5.1.2) = next_c5.1.1 /\
  (exists rec, HeapFileScan_getRecord E1 next_c5.1.2 next_c5.2 = Done (OK, rec) next_c5.2).
Proof.
  destruct (scanNext_returns_a_live_record 24 20 4 NULLRID next_c5.1.1
              (markScan E1 scan_c5).2 next_c5.1.2 c5.2 next_c5.2) as (He & Hc & Hg & _).
  - split; [reflexivity | eexists; reflexivity].
  - reflexivity.
  - split; [exact He |]. split; [exact Hc | exact Hg].
Defined.

(** ** markScan, scanNext, resetScan *)

(** X17: after [markScan] and any number of [scanNext] calls that each
    return [OK], whether or not they cross pages, [resetScan] returns [OK]
    and the scan stands where it stood at the mark, over the same pages;
    every [scanNext] from there returns what it would have returned
    straight after the mark and leaves the scan in the same place. *)
Theorem markScan_resetScan_round_trip ps dp
    (this0 this2 : HeapFileScan (RefEnv.make ps dp)) (s0 s2 : St (RefEnv.make ps dp)) :
  scan_ok ps dp this0 (env s0) ->
  scans _ (markScan _ this0).2 s0 this2 s2 ->
  exists this3 s3,
    resetScan _ this2 s2 = Done (OK, this3) s3 /\
    env s3 = env s0 /\
    position _ this3 = position _ this0 /\
    forall fuel rid,
      outcome _ (scanNext _ fuel rid this3 s3) = outcome _ (scanNext _ fuel rid this0 s0).
Proof.
  intros Hok Hsc.
  destruct (resetScan_restores _ _ _ _ _ _ Hok Hsc) as (this3 & s3 & Hrs & He & Hp & _).
  exists this3, s3. split; [exact Hrs |]. split; [exact He |]. split; [exact Hp |].
  intros fuel rid. apply scanNext_position; assumption.
Qed.

Lemma markScan_resetScan_round_trip_witness :
  exists this3 s3,
    resetScan E1 next_c5.1.2 next_c5.2 = Done (OK, this3) s3 /\
    env s3 = env c5.2 /\
    position E1 this3 = position E1 scan_c5 /\
    forall fuel rid,
      outcome E1 (scanNext E1 fuel rid this3 s3)
      = outcome E1 (scanNext E1 fuel rid scan_c5 c5.2).
Proof.
  apply (markScan_resetScan_round_trip 24 20 scan_c5 next_c5.1.2 c5.2 next_c5.2).
  - split; [reflexivity | eexists; reflexivity].
  - apply (scans_cons E1 4 NULLRID next_c5.1.1 _ next_c5.1.2 next_c5.1.2
             c5.2 next_c5.2 next_c5.2); [reflexivity | apply scans_nil].
Defined.

(** ** Opening and closing *)

Local Transparent RefEnv.openFile.

Lemma openFile_inv name (w w1 : gmap string RefEnv.RFile) f :
  RefEnv.openFile name w = (OK, f, w1) ->
  exists F, w !! name = Some F /\ f = name /\
            w1 = <[name := RefEnv.mkRFile (RefEnv.rf_pages F) (S (RefEnv.rf_open F))]> w.
Proof.
  unfold RefEnv.openFile. destruct (w !! name) as [F |] eqn:Hw; [| discriminate].
  intros H. injection H as <- <-. exists F. repeat split.
Qed.

Local Opaque RefEnv.openFile.

(** X18: over the reference collaborators, a [HeapFile] whose constructor
    returned [OK] is destroyed without a failing call: the data page is
    unpinned with [curDirtyFlag], the header page with [hdrDirtyFlag], the
    file is closed, and the files and pages are then exactly what they were
    before the handle was opened. *)
Theorem HeapFile_open_then_destroy ps dp (name : string)
    (this h : HeapFile (RefEnv.make ps dp)) (s s1 : St (RefEnv.make ps dp)) :
  HeapFile_ctor (RefEnv.make ps dp) this name s = Done (OK, h) s1 ->
  exists h' s2,
    HeapFile_dtor (RefEnv.make ps dp) h s1 = Done h' s2 /\
    env s2 = env s /\
    calls s2 = calls s1 ++ [(UnPinPage name (curPageNo _ h) false, OK);
                            (UnPinPage name 0 false, OK); (CloseFile name, OK)].
Proof.
  intros Hrun.
  unfold HeapFile_ctor in Hrun.
  unfold bind, openFile, getFirstPage, readPage, load_hdr, deref, ret, logged, bind, deref
    in Hrun.
  simpl in Hrun.
  split_run Hrun.
  all: injection Hrun; intros; subst; clear Hrun.
  all: repeat match goal with
              | H : failed OK = true |- _ => discriminate H
              | H : failed ?st = false |- _ => apply failed_false in H; try subst st
              | H : bool_decide _ = true |- _ => apply bool_decide_eq_true_1 in H
              | H : bool_decide _ = false |- _ => apply bool_decide_eq_false_1 in H
              | H : RefEnv.openFile _ _ = (OK, _, _) |- _ =>
                  apply openFile_inv in H; destruct H as (F & HF & ? & ?); try subst
              | H : RefEnv.getFirstPage _ _ = (OK, _, _) |- _ =>
                  apply getFirstPage_OK in H; destruct H as [? ?]; try subst
              | H : RefEnv.readPage _ _ _ = (OK, _, _) |- _ =>
                  pose proof (readPage_frame _ _ _ _ _ H);
                  apply readPage_OK in H; destruct H as [? ?]; try subst
              | H : Some _ = Some _ |- _ => injection H as H; try subst
              end.
  all: try congruence.
  unfold HeapFile_dtor, bind, load_hdr, unPinPage, closeFile, deref, ret, logged.
  simpl.
  match goal with
  | H : is_Some (RefEnv.frame_at ?w (name, ?n)) |- context [RefEnv.unPinPage name ?n false ?w] =>
      rewrite (unPinPage_exists name n false w H)
  end.
  simpl.
  match goal with
  | H : is_Some (RefEnv.frame_at ?w (name, 0)) |- context [RefEnv.unPinPage name 0 false ?w] =>
      rewrite (unPinPage_exists name 0 false w H)
  end.
  simpl. rewrite closeFile_entry. simpl.
  eexists _, _. split; [reflexivity |]. simpl. split.
  - destruct F as [pages n]. simpl. apply insert_id. exact HF.
  - rewrite <- !app_assoc. reflexivity.
Qed.

Lemma HeapFile_open_then_destroy_witness :
  exists h' s2,
    HeapFile_dtor E0 h_t1 s_t1_open = Done h' s2 /\
    env s2 = env s_t1 /\
    calls s2 = calls s_t1_open ++ [(UnPinPage "t1" 1 false, OK);
                                   (UnPinPage "t1" 0 false, OK); (CloseFile "t1", OK)].
Proof.
  exact (HeapFile_open_then_destroy 1024 20 "t1" raw h_t1 s_t1 s_t1_open eq_refl).
Defined.

(** ** HeapFileScan::matchRec *)

Lemma read_bytes_window (d d' : list byte) (off len : Z) :
  length d = length d' ->
  take (Z.to_nat len) (drop (Z.to_nat off) d) = take (Z.to_nat len) (drop (Z.to_nat off) d') ->
  read_bytes (drop (Z.to_nat off) d) len = read_bytes (drop (Z.to_nat off) d') len.
Proof.
  intros Hl Hw. unfold read_bytes. rewrite !length_drop, Hl.
  destruct (_ && _); [rewrite Hw |]; reflexivity.
Qed.

Lemma strncmp_take (s1 s2 : list byte) :
  forall (t : list byte) (n : Z),
    0 <= n -> strncmp (take (Z.to_nat n) s1) t n = strncmp s1 t n.
Proof.
  induction s1 as [| c s1 IH]; intros t n Hn.
  - rewrite take_nil. reflexivity.
  - destruct (Z.eq_dec n 0) as [-> | Hne]; [reflexivity |].
    replace (Z.to_nat n) with (S (Z.to_nat (n - 1))) by lia.
    simpl. destruct (n =? 0); [reflexivity |].
    destruct t as [| c2 t]; [reflexivity |].
    destruct (byte_val c =? byte_val c2); [| reflexivity].
    destruct (byte_val c =? 0); [reflexivity |].
    apply IH. lia.
Qed.

(** X20: [matchRec] looks at no byte of the record outside the attribute
    window: with a non-negative offset, a positive length and
    [offset + length] within [int], two records of the same size whose
    bytes agree on [offset .. offset + length) get the same answer, under
    every type and operator, whatever the bytes before and after the
    window are. *)
Theorem matchRec_reads_only_the_window (E : Env) (this : HeapFileScan E)
    (rec rec' : Record_) :
  0 <= s_offset E this ->
  1 <= s_length E this ->
  s_offset E this + s_length E this <= INT_MAX ->
  length_ rec = length_ rec' ->
  length (data rec) = length (data rec') ->
  window rec (s_offset E this) (s_length E this)
  = window rec' (s_offset E this) (s_length E this) ->
  matchRec E this rec = matchRec E this rec'.
Proof.
  intros Hoff Hlen Hmax Hl Hd Hw. unfold window in Hw.
  destruct (s_filter E this) as [fltr |] eqn:Hf.
  2: { unfold matchRec. rewrite Hf. reflexivity. }
  rewrite !(matchRec_guard E this _ fltr Hf Hoff Hlen Hmax). rewrite Hl.
  destruct (_ >=? _); [reflexivity |].
  assert (Hptr : forall d, ptr_add d (s_offset E this)
                           = if s_offset E this <=? Z.of_nat (length d)
                             then Some (drop (Z.to_nat (s_offset E this)) d) else None).
  { intros d. unfold ptr_add. rewrite (proj2 (Z.leb_le 0 _) Hoff). reflexivity. }
  rewrite !Hptr, Hd.
  destruct (s_offset E this <=? Z.of_nat (length (data rec'))).
  2: { destruct (s_type E this); reflexivity. }
  destruct (s_type E this); cbn [mbind option_bind].
  - assert (Hsz : to_size_t (s_length E this) = s_length E this).
    { unfold to_size_t. apply Z.mod_small. unfold INT_MAX in Hmax. lia. }
    rewrite Hsz.
    rewrite <- (strncmp_take (drop _ (data rec)) fltr fltr (s_length E this)) by lia.
    rewrite <- (strncmp_take (drop _ (data rec')) fltr fltr (s_length E this)) by lia.
    rewrite Hw. reflexivity.
  - unfold memcpy_int. destruct (_ =? _); [| reflexivity]. cbn [mbind option_bind].
    rewrite (read_bytes_window (data rec) (data rec') _ _ Hd Hw). reflexivity.
  - unfold memcpy_float. destruct (_ =? _); [| reflexivity]. cbn [mbind option_bind].
    rewrite (read_bytes_window (data rec) (data rec') _ _ Hd Hw). reflexivity.
  - reflexivity.
Qed.

(** An integer, a float and a string attribute in the middle of a record:
    the records differ before and after the window, the attribute is read
    and the answers agree. *)
Lemma matchRec_reads_only_the_window_witness :
  (matchRec E0 scan_key rec_key = matchRec E0 scan_key rec_key' /\
   matchRec E0 scan_key rec_key = Some true) /\
  (matchRec E0 scan_flt rec_flt = matchRec E0 scan_flt rec_flt' /\
   matchRec E0 scan_flt rec_flt = Some true) /\
  (matchRec E0 scan_str rec_str = matchRec E0 scan_str rec_str' /\
   matchRec E0 scan_str rec_str = Some true).
Proof.
  split; [split | split; split].
  - apply (matchRec_reads_only_the_window E0 scan_key rec_key rec_key');
      vm_compute; first [reflexivity | discriminate].
  - vm_compute. reflexivity.
  - apply (matchRec_reads_only_the_window E0 scan_flt rec_flt rec_flt');
      vm_compute; first [reflexivity | discriminate].
  - vm_compute. reflexivity.
  - apply (matchRec_reads_only_the_window E0 scan_str rec_str rec_str');
      vm_compute; first [reflexivity | discriminate].
  - vm_compute. reflexivity.
Defined.

(** X21: a float attribute or a float filter that is not a number
    satisfies [NE] and no other operator: the difference is then not a
    number, and every ordered comparison of it with zero is false. *)
Theorem matchRec_float_not_a_number (E : Env) (this : HeapFileScan E) (rec : Record_)
    (fltr : list byte) :
  s_filter E this = Some fltr ->
  s_type E this = FLOAT ->
  s_length E this = sizeof_float ->
  0 <= s_offset E this ->
  s_offset E this + sizeof_float - 1 < length_ rec ->
  well_formed rec ->
  is_int (length_ rec) ->
  sizeof_float <= Z.of_nat (length fltr) ->
  b32_of_bits (le_decode (window rec (s_offset E this) sizeof_float)) = S754_nan \/
  b32_of_bits (le_decode (take (Z.to_nat sizeof_float) fltr)) = S754_nan ->
  matchRec E this rec = Some (bool_decide (s_op E this = NE)).
Proof.
  intros Hf Hty Hw Hoff Hin Hwf Hint Hfl Hnan.
  unfold well_formed in Hwf. unfold window in Hnan.
  rewrite (matchRec_guard E this rec fltr Hf Hoff)
    by (unfold is_int, INT_MIN, INT_MAX, sizeof_float in *; lia).
  rewrite Hty, Hw.
  assert (Hgeb : (s_offset E this + sizeof_float - 1 >=? length_ rec) = false).
  { rewrite Z.geb_leb. apply Z.leb_gt. lia. }
  rewrite Hgeb.
  rewrite ptr_add_in_bounds by (unfold sizeof_float in *; lia).
  unfold memcpy_float. rewrite Z.eqb_refl. cbn [mbind option_bind].
  rewrite !read_bytes_in_bounds
    by (rewrite ?length_drop; unfold sizeof_float in *; lia).
  cbn [mbind option_bind].
  assert (Hdiff : float_sub
                    (b32_of_bits (le_decode (take (Z.to_nat sizeof_float)
                                               (drop (Z.to_nat (s_offset E this)) (data rec)))))
                    (b32_of_bits (le_decode (take (Z.to_nat sizeof_float) fltr)))
                  = S754_nan).
  { unfold float_sub. destruct Hnan as [-> | ->]; [reflexivity |].
    destruct (b32_of_bits _); reflexivity. }
  rewrite Hdiff. destruct (s_op E this); reflexivity.
Qed.

Lemma matchRec_float_not_a_number_witness :
  matchRec E0 scan_lt1 (mkRecord [x00; x00; xc0; x7f] 4) = Some (bool_decide (LT = NE)).
Proof.
  apply (matchRec_float_not_a_number E0 scan_lt1 (mkRecord [x00; x00; xc0; x7f] 4)
           [x00; x00; x80; x3f]).
  - reflexivity.
  - reflexivity.
  - reflexivity.
  - vm_compute. discriminate.
  - vm_compute. reflexivity.
  - reflexivity.
  - vm_compute. split; discriminate.
  - vm_compute. discriminate.
  - left. vm_compute. reflexivity.
Defined.

(** ** Records stay where they were put *)

Local Transparent RefEnv.insertRecord RefEnv.init RefEnv.setNextPage RefEnv.store.

Lemma keeps_records_refl (w : gmap string RefEnv.RFile) f : keeps_records w w f.
Proof. intros p rid x H. exact H. Qed.

Lemma keeps_records_trans (w1 w2 w3 : gmap string RefEnv.RFile) f :
  keeps_records w1 w2 f -> keeps_records w2 w3 f -> keeps_records w1 w3 f.
Proof. intros H12 H23 p rid x H. apply H23, H12, H. Qed.

Lemma getRecord_data (w : gmap string RefEnv.RFile) p rid x :
  RefEnv.getRecord p rid w = (OK, x) ->
  exists d bs, RefEnv.data_at w p = Some d /\ 0 <= slotNo rid /\
               RefEnv.rp_slots d !! Z.to_nat (slotNo rid) = Some (Some bs) /\
               x = mkRecord bs (Z.of_nat (length bs)).
Proof.
  unfold RefEnv.getRecord. destruct (RefEnv.data_at w p) as [d |]; [| discriminate].
  destruct (slotNo rid <? 0) eqn:Hneg; [discriminate |]. apply Z.ltb_ge in Hneg.
  destruct (RefEnv.rp_slots d !! Z.to_nat (slotNo rid)) as [[bs |] |] eqn:Hs;
    try discriminate.
  intros H. injection H as <-. exists d, bs. repeat split; assumption.
Qed.

(** Overwriting a frame keeps the records when the frame was raw, or was a
    data page whose slots the new page starts with. *)
Lemma keeps_records_set_data (w : gmap string RefEnv.RFile) f p fr0 d' :
  RefEnv.frame_at w (f, p) = Some fr0 ->
  (forall d, fr0 = RefEnv.FData d ->
             exists more, RefEnv.rp_slots d' = RefEnv.rp_slots d ++ more) ->
  keeps_records w (RefEnv.set_frame w (f, p) (RefEnv.FData d')) f.
Proof.
  intros Hfr Hpre q rid x H.
  destruct (getRecord_data _ _ _ _ H) as (d & bs & Hd & H0 & Hs & ->).
  apply data_at_frame in Hd.
  unfold RefEnv.getRecord, RefEnv.data_at. rewrite frame_at_set_frame.
  destruct (decide (p = q)) as [<- | Hne].
  - rewrite Hfr. rewrite Hfr in Hd. injection Hd as ->.
    destruct (Hpre d eq_refl) as [more Hmore].
    destruct (slotNo rid <? 0) eqn:Hneg; [apply Z.ltb_lt in Hneg; lia |].
    rewrite Hmore, lookup_app_l by (eapply lookup_lt_Some; exact Hs).
    rewrite Hs. reflexivity.
  - rewrite Hd.
    destruct (slotNo rid <? 0) eqn:Hneg; [apply Z.ltb_lt in Hneg; lia |].
    rewrite Hs. reflexivity.
Qed.

Lemma keeps_records_store (w : gmap string RefEnv.RFile) f h0 h :
  hdr_at w f = Some h0 -> keeps_records w (RefEnv.store (f, 0) h w) f.
Proof. intros Hh p rid x H. rewrite (getRecord_store w f h0 h p rid Hh). exact H. Qed.

Lemma keeps_records_init (w : gmap string RefEnv.RFile) f q n :
  RefEnv.frame_at w (f, q) = Some RefEnv.FRaw ->
  keeps_records w (RefEnv.init (f, q) n w) f.
Proof.
  intros Hraw. unfold RefEnv.init.
  apply (keeps_records_set_data w f q RefEnv.FRaw); [exact Hraw | discriminate].
Qed.

Lemma keeps_records_setNextPage (w : gmap string RefEnv.RFile) f p n :
  keeps_records w (RefEnv.setNextPage (f, p) n w) f.
Proof.
  unfold RefEnv.setNextPage.
  destruct (RefEnv.data_at w (f, p)) as [d |] eqn:Hd; [| apply keeps_records_refl].
  apply (keeps_records_set_data w f p (RefEnv.FData d)).
  - apply data_at_frame. exact Hd.
  - intros d0 H0. injection H0 as <-. exists []. simpl. rewrite app_nil_r. reflexivity.
Qed.

Lemma keeps_records_insertRecord ps dp (w w1 : gmap string RefEnv.RFile) f p rec st rid :
  RefEnv.insertRecord ps dp (f, p) rec w = (st, rid, w1) -> keeps_records w w1 f.
Proof.
  unfold RefEnv.insertRecord.
  destruct (RefEnv.data_at w (f, p)) as [d |] eqn:Hd.
  2: { intros H. injection H as _ _ <-. apply keeps_records_refl. }
  destruct (_ && _).
  2: { intros H. injection H as _ _ <-. apply keeps_records_refl. }
  intros H. injection H as _ _ <-.
  apply (keeps_records_set_data w f p (RefEnv.FData d)).
  - apply data_at_frame. exact Hd.
  - intros d0 H0. injection H0 as <-. eexists. reflexivity.
Qed.

Lemma keeps_records_alloc (w w1 : gmap string RefEnv.RFile) f q o :
  RefEnv.allocPage f w = (OK, q, o, w1) -> keeps_records w w1 f.
Proof.
  intros H. destruct (allocPage_OK f w w1 q o H) as (_ & _ & Hnone & _ & Hsame).
  intros p rid x Hg.
  destruct (getRecord_data _ _ _ _ Hg) as (d & bs & Hd & _).
  apply data_at_frame in Hd.
  assert (Hp : p <> q) by (intros ->; congruence).
  unfold RefEnv.getRecord, RefEnv.data_at in *. rewrite (Hsame p Hp). exact Hg.
Qed.

Local Opaque RefEnv.insertRecord RefEnv.init RefEnv.setNextPage RefEnv.store.

(** As [know_world], for the records: what each step of a run keeps. *)
Ltac know_records :=
  match goal with
  | Hok : heap_ok ?w ?f ?h |- _ =>
      match goal with
      | |- context [RefEnv.store (f, 0) ?h1 w] =>
          new_fact (keeps_records_store w f h h1 (proj1 Hok))
      | _ : context [RefEnv.store (f, 0) ?h1 w] |- _ =>
          new_fact (keeps_records_store w f h h1 (proj1 Hok))
      | |- context [RefEnv.setNextPage (f, ?p) ?n w] =>
          new_fact (keeps_records_setNextPage w f p n)
      | _ : context [RefEnv.setNextPage (f, ?p) ?n w] |- _ =>
          new_fact (keeps_records_setNextPage w f p n)
      | Hraw : RefEnv.frame_at w (f, ?q) = Some RefEnv.FRaw |- _ =>
          new_fact (keeps_records_init w f q q Hraw)
      | H : RefEnv.insertRecord _ _ (f, _) _ w = _ |- _ =>
          new_fact (keeps_records_insertRecord _ _ _ _ _ _ _ _ _ H)
      | H : RefEnv.allocPage f w = (OK, _, _, _) |- _ =>
          new_fact (keeps_records_alloc _ _ _ _ _ H)
      end
  end.

Ltac chain_records :=
  repeat match goal with
         | H1 : keeps_records ?a ?b ?f, H2 : keeps_records ?b ?c ?f |- _ =>
             new_fact (keeps_records_trans a b c f H1 H2)
         end.

(** One [insertRecord] that returns [OK] keeps every record of the file. *)
Lemma insertRecord_keeps_records ps dp f rec rid (h h' : HeapFile (RefEnv.make ps dp))
    (s s' : St (RefEnv.make ps dp)) r hdr :
  handle_ok ps dp f h ->
  heap_ok (env s) f hdr ->
  insertRecord (RefEnv.make ps dp) rec rid h s = Done (OK, r, h') s' ->
  keeps_records (env s) (env s') f.
Proof.
  intros (Hf & Hhp & Hcp) Hok Hrun.
  destruct h as [fp hp hpn hdf cp cpn cdf cr]. simpl in Hf, Hhp, Hcp. subst fp hp cp.
  unfold insertRecord in Hrun. simpl in Hrun.
  destruct (wrap_unsigned (length_ rec) >? _); [discriminate |].
  unfold bind, load_hdr, modify_hdr, deref, ret, unPinPage, readPage, allocPage,
    page_insertRecord, page_init, page_setNextPage, bind, deref, logged in Hrun.
  simpl in Hrun.
  split_run Hrun.
  all: injection Hrun; intros; subst; clear Hrun.
  all: repeat first [know_records | know_world].
  all: simpl; chain_records; assumption.
Qed.

Lemma getRecord_frame (w : gmap string RefEnv.RFile) p rid x :
  RefEnv.getRecord p rid w = (OK, x) -> is_Some (RefEnv.frame_at w p).
Proof.
  intros H. destruct (getRecord_data _ _ _ _ H) as (d & _ & Hd & _).
  apply data_at_frame in Hd. eauto.
Qed.

Lemma inserts_keep_records ps dp f recs (h h' : HeapFile (RefEnv.make ps dp))
    (s s' : St (RefEnv.make ps dp)) :
  inserts (RefEnv.make ps dp) recs h s h' s' ->
  forall hdr,
    handle_ok ps dp f h ->
    heap_ok (env s) f hdr ->
    is_Some (RefEnv.frame_at (env s) (f, curPageNo _ h)) ->
    keeps_records (env s) (env s') f /\
    handle_ok ps dp f h' /\
    is_Some (RefEnv.frame_at (env s') (f, curPageNo _ h')).
Proof.
  induction 1 as [h s | rec recs rid r h h1 h2 s s1 s2 Hins Hrest IH];
    intros hdr Hh Hok Hcur.
  - split; [apply keeps_records_refl |]. split; assumption.
  - destruct (insertRecord_sound ps dp f rec rid h h1 s s1 r hdr Hh Hok Hins)
      as (Hh1 & (hdr1 & Hok1 & _) & _ & _ & Hget).
    pose proof (insertRecord_keeps_records ps dp f rec rid h h1 s s1 r hdr Hh Hok Hins)
      as Hk1.
    destruct (IH hdr1 Hh1 Hok1 (getRecord_frame _ _ _ _ Hget)) as (Hk2 & Hh2 & Hcur2).
    split; [exact (keeps_records_trans _ _ _ _ Hk1 Hk2) |]. split; assumption.
Qed.

(** X22: a record stays where [insertRecord] put it.  On a heap file that
    was just created and opened for insertion, after any [insertRecord]
    calls that returned [OK], the [insertRecord] of [rec] which returned
    [OK] with the RID [r], and any further [insertRecord] calls that
    returned [OK], [getRecord(r, ...)] returns [OK] with the bytes stored
    for [rec], whatever page the handle stands on; it leaves the pages as
    they are and the handle on [r].  The bytes stored are the first
    [rec.length] bytes of the data: the record itself when its length field
    is the number of its bytes. *)
Theorem getRecord_finds_inserted ps dp (name : string) (recs1 recs2 : list Record_)
    (rec junk : Record_) (rid r : RID)
    (this h h1 h2 h3 : HeapFile (RefEnv.make ps dp))
    (s0 s1 s2 s3 s4 s5 : St (RefEnv.make ps dp)) :
  createHeapFile (RefEnv.make ps dp) name s0 = Done OK s1 ->
  InsertFileScan_ctor (RefEnv.make ps dp) this name s1 = Done (OK, h) s2 ->
  inserts (RefEnv.make ps dp) recs1 h s2 h1 s3 ->
  insertRecord (RefEnv.make ps dp) rec rid h1 s3 = Done (OK, r, h2) s4 ->
  inserts (RefEnv.make ps dp) recs2 h2 s4 h3 s5 ->
  exists h4 s6,
    HeapFile_getRecord (RefEnv.make ps dp) r junk h3 s5 = Done (OK, stored rec, h4) s6 /\
    env s6 = env s5 /\
    curRec _ h4 = r /\ curPageNo _ h4 = pageNo r /\
    (well_formed rec -> stored rec = rec).
Proof.
  intros Hcreate Hctor Hins1 Hrun Hins2.
  assert (Hst : well_formed rec -> stored rec = rec).
  { unfold well_formed, stored. intros Hwf. destruct rec as [d len]. simpl in *. subst len.
    rewrite Nat2Z.id, firstn_all. reflexivity. }
  destruct (createHeapFile_OK_fresh ps dp name s0 s1 Hcreate) as [_ Henv].
  assert (Hok1 : heap_ok (env s1) name (mkHdr name 1 1 1 0))
    by (rewrite Henv; apply heap_ok_fresh).
  destruct (ctor_sound ps dp name this h s1 s2 _ Hok1 Hctor) as [Hh Hok2].
  destruct (inserts_keep_sound ps dp name recs1 h h1 s2 s3 Hins1 _ Hh Hok2)
    as (Hh1 & hdr1 & Hok3).
  destruct (insertRecord_sound ps dp name rec rid h1 h2 s3 s4 r hdr1 Hh1 Hok3 Hrun)
    as (Hh2 & (hdr2 & Hok4 & _) & _ & Hpage & Hget).
  rewrite <- Hpage in Hget.
  destruct (inserts_keep_records ps dp name recs2 h2 h3 s4 s5 Hins2 hdr2 Hh2 Hok4)
    as (Hkeep & (Hf & Hhp & Hcp) & Hcur).
  { rewrite <- Hpage. eapply getRecord_frame. exact Hget. }
  pose proof (Hkeep _ _ _ Hget) as Hget5.
  pose proof (getRecord_frame _ _ _ _ Hget5) as Hfr.
  destruct h3 as [fp hp hpn hdf cp cpn cdf cr]. simpl in Hf, Hhp, Hcp, Hcur. subst fp hp cp.
  unfold HeapFile_getRecord, bind, unPinPage, readPage, page_getRecord, deref, ret, logged.
  simpl.
  destruct (decide (pageNo r = cpn)) as [Heq | Hne].
  - rewrite bool_decide_eq_false_2 by (intros Hx; apply Hx; exact Heq).
    simpl. rewrite <- Heq, Hget5. simpl.
    eexists _, _. split; [reflexivity |]. simpl. repeat split. exact Hst.
  - rewrite bool_decide_eq_true_2 by exact Hne.
    simpl. rewrite (unPinPage_exists name cpn cdf (env s5) Hcur). simpl.
    rewrite (readPage_exists name (pageNo r) (env s5) Hfr). simpl.
    rewrite Hget5. simpl.
    eexists _, _. split; [reflexivity |]. simpl. repeat split. exact Hst.
Qed.

Lemma getRecord_finds_inserted_witness :
  exists h4 s6,
    HeapFile_getRecord E1 (mkRID 1 0) recB c5.1 c5.2 = Done (OK, stored recA, h4) s6 /\
    env s6 = env c5.2 /\
    curRec E1 h4 = mkRID 1 0 /\ curPageNo E1 h4 = pageNo (mkRID 1 0) /\
    (well_formed recA -> stored recA = recA).
Proof.
  apply (getRecord_finds_inserted 24 20 "t1" [] [recB; recA] recA recB NULLRID (mkRID 1 0)
           raw1 c2.1 c2.1 c3.1 c5.1 st1 c1 c2.2 c2.2 c3.2 c5.2).
  - reflexivity.
  - reflexivity.
  - apply inserts_nil.
  - reflexivity.
  - apply (inserts_cons E1 recB _ NULLRID (mkRID 2 0) c3.1 c4.1 c5.1 c3.2 c4.2 c5.2);
      [reflexivity |].
    apply (inserts_cons E1 recA _ NULLRID (mkRID 3 0) c4.1 c5.1 c5.1 c4.2 c5.2 c5.2);
      [reflexivity |].
    apply inserts_nil.
Defined.
